(** * The extraction and reconciliation engine of the Meta Ads Library scraper

    A shallow embedding of [src/scraper.ts] (class [MetaAdsLibraryScraper])
    and of the record shapes of [src/types.ts].

    The scraper receives JSON-decoded GraphQL responses typed [any]; its
    behaviour on them is fixed by the dynamic semantics of JavaScript
    (truthiness, optional chaining, the iteration protocol, strict
    equality).  Module [JS] embeds the fragment of that semantics the
    scraper relies on, module [Eff] the effects it performs (reading the
    clock, mutating its collections and the database, throwing), and
    module [Scraper] the methods themselves. *)

From Stdlib Require Import ZArith Ascii String List Bool Lia.
From stdpp Require Import base strings gmap list pretty.

Set Warnings "-register-all".
Local Open Scope Z_scope.

(** ** JavaScript values *)

Module JS.

(** A run-time value as [JSON.parse] and the scraper's own expressions
    produce it.  Numbers are kept to the integers: the scraper only tests
    a number for truthiness and renders it inside a template string.
    A string is a sequence of characters, one [ascii] per character.
    An object lists its own properties in order; a name listed twice
    counts where it is listed first. *)
Inductive value : Type :=
| VUndef
| VNull
| VBool (b : bool)
| VNum (n : Z)
| VStr (s : string)
| VArr (xs : list value)
| VObj (props : list (string * value)).

(** What is thrown: a [TypeError] by the language and its library, a
    [BrowserError] by puppeteer (a browser that does not launch, a
    navigation that times out, a page that is gone). *)
Inductive error : Type :=
| TypeError
| BrowserError.

(** The result of evaluating an expression or statement. *)
Inductive completion (A : Type) : Type :=
| Normal (a : A)
| Throw (e : error).
Arguments Normal {A} a.
Arguments Throw {A} e.

(** [ToBoolean]: what [!v], [v || w], [v && w] and [Boolean(v)] test. *)
Definition truthy (v : value) : bool :=
  match v with
  | VUndef | VNull => false
  | VBool b => b
  | VNum n => negb (n =? 0)
  | VStr s => negb (String.eqb s EmptyString)
  | VArr _ | VObj _ => true
  end.

Definition nullish (v : value) : bool :=
  match v with
  | VUndef | VNull => true
  | _ => false
  end.

Definition isArray (v : value) : bool :=
  match v with
  | VArr _ => true
  | _ => false
  end.

(** Own property of an object, [undefined] when absent. *)
Fixpoint own (props : list (string * value)) (k : string) : value :=
  match props with
  | [] => VUndef
  | (k', v) :: rest => if String.eqb k' k then v else own rest k
  end.

(** [v.k].  Reading a property of [undefined] or [null] throws.  The
    scraper reads only the fixed names [data], [ad_library_main],
    [search_results_connection], [edges], [node], [collated_results],
    [snapshot], [ad_archive_id], [id], [page_id], [is_active],
    [start_date], [delivery_start_time], [end_date], [delivery_stop_time],
    [snapshot_url], [body] and [text]; none of them is an index, [length]
    or a method of a built-in prototype, so arrays and primitives answer
    [undefined]. *)
Definition get (v : value) (k : string) : completion value :=
  match v with
  | VUndef | VNull => Throw TypeError
  | VObj props => Normal (own props k)
  | VBool _ | VNum _ | VStr _ | VArr _ => Normal VUndef
  end.

(** [v?.k]: [undefined] on [undefined] and [null], never throws. *)
Definition opt_get (v : value) (k : string) : value :=
  if nullish v then VUndef
  else match v with
       | VObj props => own props k
       | _ => VUndef
       end.

(** [Object.keys(v)], which throws on [undefined] and [null]. *)
Definition keys (v : value) : completion (list string) :=
  match v with
  | VUndef | VNull => Throw TypeError
  | VObj props => Normal (List.map fst props)
  | VArr xs => Normal (List.map (fun i => pretty i) (seq 0 (length xs)))
  | VStr s => Normal (List.map (fun i => pretty i) (seq 0 (String.length s)))
  | VBool _ | VNum _ => Normal []
  end.

(** [a || b] on values already computed. *)
Definition or (a b : value) : value := if truthy a then a else b.

Fixpoint chars (s : string) : list value :=
  match s with
  | EmptyString => []
  | String c rest => VStr (String c EmptyString) :: chars rest
  end.

(** The values [for (const x of v)] visits; a value that is not iterable
    throws.  Arrays and strings are the only iterable values here. *)
Definition iterate (v : value) : completion (list value) :=
  match v with
  | VArr xs => Normal xs
  | VStr s => Normal (chars s)
  | _ => Throw TypeError
  end.

(** [a === b] for operands that were allocated apart from each other.
    Arrays and objects compare by reference, and the operands the scraper
    compares come from different calls of [JSON.parse], from a literal or
    from a template, so two arrays or objects are never the same
    reference.  (The one comparison of a value with itself is noted at
    [save_all_metadata].) *)
Definition strict_eq (a b : value) : bool :=
  match a, b with
  | VUndef, VUndef => true
  | VNull, VNull => true
  | VBool x, VBool y => Bool.eqb x y
  | VNum x, VNum y => x =? y
  | VStr x, VStr y => String.eqb x y
  | _, _ => false
  end.

(** [SameValueZero], the key comparison of [Map] and [Set], under the same
    allocation discipline; the integers have neither [NaN] nor a signed
    zero, so it coincides with [strict_eq]. *)
Definition same_value_zero (a b : value) : bool := strict_eq a b.

(** [String(v)], as a template string [`${v}`] renders a value. *)
Fixpoint to_string (v : value) : string :=
  match v with
  | VUndef => "undefined"
  | VNull => "null"
  | VBool true => "true"
  | VBool false => "false"
  | VNum n => pretty n
  | VStr s => s
  | VArr xs =>
      String.concat ","
        (List.map (fun x => match x with
                            | VUndef | VNull => EmptyString
                            | _ => to_string x
                            end) xs)
  | VObj _ => "[object Object]"
  end.

(** Own enumerable properties copied by [{...v}]. *)
Fixpoint indexed (i : nat) (xs : list value) : list (string * value) :=
  match xs with
  | [] => []
  | x :: rest => (pretty i, x) :: indexed (S i) rest
  end.

Definition spread (v : value) : list (string * value) :=
  match v with
  | VObj props => props
  | VArr xs => indexed 0 xs
  | VStr s => indexed 0 (chars s)
  | _ => []
  end.

(** [k: v] written after a spread inside an object literal: an existing
    property keeps its place and takes the new value. *)
Fixpoint define (props : list (string * value)) (k : string) (v : value)
  : list (string * value) :=
  match props with
  | [] => [(k, v)]
  | (k', v') :: rest =>
      if String.eqb k' k then (k', v) :: rest else (k', v') :: define rest k v
  end.

(** *** [JSON.stringify] *)

Definition dquote : ascii := "034"%char.
Definition backslash : ascii := "092"%char.

Definition hex_digit (n : N) : ascii :=
  if (n <? 10)%N then ascii_of_N (48 + n) else ascii_of_N (87 + n).

(** [QuoteJSONString] on one character: the quote, the backslash and the
    control characters are escaped, every other character stands for
    itself. *)
Definition escape_char (c : ascii) : string :=
  let n := N_of_ascii c in
  if (n =? 34)%N then String backslash (String dquote EmptyString)
  else if (n =? 92)%N then String backslash (String backslash EmptyString)
  else if (n =? 8)%N then String backslash "b"
  else if (n =? 12)%N then String backslash "f"
  else if (n =? 10)%N then String backslash "n"
  else if (n =? 13)%N then String backslash "r"
  else if (n =? 9)%N then String backslash "t"
  else if (n <? 32)%N then
    String backslash
      (String "u" (String "0" (String "0"
        (String (hex_digit (n / 16)) (String (hex_digit (n mod 16)) EmptyString)))))
  else String c EmptyString.

Fixpoint escape (s : string) : string :=
  match s with
  | EmptyString => EmptyString
  | String c rest => (escape_char c ++ escape rest)%string
  end.

Definition quote (s : string) : string :=
  String dquote (escape s ++ String dquote EmptyString).

(** [JSON.stringify(v)] without indentation; [None] stands for the result
    [undefined].  Inside an array [undefined] is written [null], inside
    an object a property holding [undefined] is left out. *)
Fixpoint stringify (v : value) : option string :=
  match v with
  | VUndef => None
  | VNull => Some "null"
  | VBool true => Some "true"
  | VBool false => Some "false"
  | VNum n => Some (pretty n)
  | VStr s => Some (quote s)
  | VArr xs =>
      Some ("[" ++
            String.concat ","
              (List.map (fun x => match stringify x with
                                  | Some t => t
                                  | None => "null"
                                  end) xs)
            ++ "]")%string
  | VObj props =>
      Some ("{" ++
            String.concat ","
              (List.flat_map
                 (fun kv => match stringify (snd kv) with
                            | Some t => [(quote (fst kv) ++ ":" ++ t)%string]
                            | None => []
                            end) props)
            ++ "}")%string
  end.

End JS.

(** ** Effects *)

Module Eff.
Import JS.

(** A computation over a mutable state [St] that may read the system
    clock and may throw.  The clock is the sequence of instants
    (milliseconds since the epoch) the successive reads return; the
    natural number threaded through counts the reads made so far.  A
    throw keeps the state reached when it happened, as a mutated
    JavaScript object does. *)
Definition Eff (St A : Type) : Type := St -> nat -> completion A * St * nat.

#[global] Instance Eff_ret St : MRet (Eff St) :=
  fun A a s t => (Normal a, s, t).

#[global] Instance Eff_bind St : MBind (Eff St) :=
  fun A B f m s t =>
    match m s t with
    | (Normal a, s', t') => f a s' t'
    | (Throw e, s', t') => (Throw e, s', t')
    end.

Definition lift {St A} (c : completion A) : Eff St A :=
  fun s t => (c, s, t).

Definition get_state {St} : Eff St St :=
  fun s t => (Normal s, s, t).

Definition modify {St} (f : St -> St) : Eff St unit :=
  fun s t => (Normal tt, f s, t).

(** [try { m } catch (error) { handler }] *)
Definition try_catch {St A} (m : Eff St A) (handler : error -> Eff St A)
  : Eff St A :=
  fun s t =>
    match m s t with
    | (Normal a, s', t') => (Normal a, s', t')
    | (Throw e, s', t') => handler e s' t'
    end.

(** [Date.now()] and [new Date()]: one read of the clock. *)
Definition now {St} (clock : nat -> Z) : Eff St Z :=
  fun s t => (Normal (clock t), s, S t).

(** [a || b] with [b] evaluated only when [a] is falsy. *)
Definition or_else {St} (a b : Eff St value) : Eff St value :=
  v ← a; if truthy v then mret v else b.

(** [for (const x of xs) body] with [continue] as the only jump. *)
Fixpoint for_each {St A} (xs : list A) (body : A -> Eff St unit)
  : Eff St unit :=
  match xs with
  | [] => mret tt
  | x :: rest => _ ← body x; for_each rest body
  end.

(** [for (const x of xs) body] where [body] answers [true] to [break]. *)
Fixpoint for_break {St A} (xs : list A) (body : A -> Eff St bool)
  : Eff St unit :=
  match xs with
  | [] => mret tt
  | x :: rest => stop ← body x; if (stop : bool) then mret tt else for_break rest body
  end.

End Eff.

(** ** The scraper *)

Module Scraper.
Import JS Eff.

(** [AdData] of [types.ts] as [extractAdData] fills it.  The interface
    declares [id] and [page_id] strings and [is_active] a boolean, yet the
    fields are copied from a response typed [any], so each holds whatever
    value the response had.  [creative_bodies] is always built as an
    array.  [fetched_at] holds the instant read from the clock; the source
    stores its ISO-8601 text. *)
Record AdData : Type := mkAdData {
  id : value;
  page_id : value;
  is_active : value;
  start_date : value;
  end_date : value;
  snapshot_url : value;
  creative_bodies : list value;
  fetched_at : Z;
  raw_data : value
}.

(** [PageMetadata] of [types.ts]; [last_synced] again as an instant. *)
Record PageMetadata : Type := mkPageMetadata {
  meta_page_id : value;
  last_synced : Z;
  total_ads : Z
}.

Section WithClock.

Variable clock : nat -> Z.

(** [`unknown_${Date.now()}`] *)
Definition unknown_id : Eff (list AdData) value :=
  t ← now clock; mret (VStr ("unknown_" ++ pretty t)).

(** Lines 84-99: the object literal bound to [ad]. *)
Definition build_ad (adResult : value) : Eff (list AdData) AdData :=
  s ← lift (get adResult "snapshot");
  let snapshot := or s (VObj []) in
  ad_id ← or_else (lift (get adResult "ad_archive_id"))
            (or_else (lift (get adResult "id")) unknown_id);
  ad_page_id ← or_else (lift (get adResult "page_id"))
                 (or_else (lift (get snapshot "page_id"))
                    (mret (VStr "unknown_page")));
  active ← lift (get adResult "is_active");
  ad_start ← or_else (lift (get adResult "start_date"))
               (lift (get adResult "delivery_start_time"));
  ad_end ← or_else (lift (get adResult "end_date"))
             (lift (get adResult "delivery_stop_time"));
  url ← lift (get adResult "snapshot_url");
  body ← lift (get snapshot "body");
  let text := opt_get body "text" in
  stamp ← now clock;
  mret {| id := ad_id;
          page_id := ad_page_id;
          is_active := if strict_eq active VUndef then VBool true else active;
          start_date := ad_start;
          end_date := ad_end;
          snapshot_url := url;
          creative_bodies := List.filter truthy [text];
          fetched_at := stamp;
          raw_data := VObj (define (spread adResult) "snapshot" snapshot) |}.

(** Lines 82-104: the body of the loop over [collatedResults]. *)
Definition process_result (adResult : value) : Eff (list AdData) unit :=
  if negb (truthy adResult) then mret tt
  else
    ad ← build_ad adResult;
    if truthy (id ad) then
      t ← now clock;
      if negb (strict_eq (id ad) (VStr ("unknown_" ++ pretty t)))
      then modify (fun ads => ads ++ [ad])
      else mret tt
    else mret tt.

(** Lines 75-105: the body of the loop over [edges]. *)
Definition process_edge (edge : value) : Eff (list AdData) unit :=
  let node := opt_get edge "node" in
  if negb (truthy node) then mret tt
  else
    c ← lift (get node "collated_results");
    let collatedResults := or c (VArr []) in
    results ← lift (iterate collatedResults);
    for_each results process_result.

(** Lines 61-106: the block guarded by [try]. *)
Definition extract_block (response : value) : Eff (list AdData) unit :=
  let data := opt_get response "data" in
  if negb (truthy data) then mret tt
  else
    let edges :=
      opt_get (opt_get (opt_get data "ad_library_main")
                 "search_results_connection") "edges" in
    if negb (truthy edges) || negb (isArray edges) then mret tt
    else
      es ← lift (iterate edges);
      for_each es process_edge.

(** [extractAdData(response)], called when [reads] reads of the clock have
    been made; answers the array [ads] and the new count of reads. *)
Definition extractAdData (response : value) (reads : nat)
  : list AdData * nat :=
  match try_catch (extract_block response) (fun _ => mret tt) [] reads with
  | (_, ads, reads') => (ads, reads')
  end.


(** *** The database and the collections of a run *)

(** The directory [./ads_database] by its content: the record last written
    to [<page_id>/<id>.json] and the metadata last written to
    [<page_id>/_metadata.json].  A file holds the JSON text of a record and
    is read back with [JSON.parse]; the records written here hold no
    [undefined] inside a nested value, so the value read back is the value
    written, allocated anew.  Directory and file names are taken as
    written: normalisation by [path.join] of names holding a separator,
    the file [_metadata.json] reached through an ad id, and failures of
    the file system are outside the model. *)
Record Database : Type := mkDatabase {
  ad_files : gmap (string * string) AdData;
  metadata_files : gmap string PageMetadata
}.

(** A [Map<string, AdData>]: its entries in insertion order. *)
Definition AdMap : Type := list (value * AdData).

(** [m.set(k, ad)]: an entry with the same key keeps its place and takes
    the new record, a new key is added at the end. *)
Fixpoint map_set (m : AdMap) (k : value) (ad : AdData) : AdMap :=
  match m with
  | [] => [(k, ad)]
  | (k', ad') :: rest =>
      if same_value_zero k' k then (k', ad) :: rest
      else (k', ad') :: map_set rest k ad
  end.

(** [m.size] *)
Definition map_size (m : AdMap) : nat := length m.

(** [Array.from(m.values())] *)
Definition map_values (m : AdMap) : list AdData := List.map snd m.

(** The entry the map holds under a key. *)
Fixpoint map_get (m : AdMap) (k : value) : option AdData :=
  match m with
  | [] => None
  | (k', ad) :: rest => if same_value_zero k' k then Some ad else map_get rest k
  end.

(** [new Set(xs)] as the list of its members in insertion order. *)
Fixpoint set_of (xs : list value) : list value :=
  match xs with
  | [] => []
  | x :: rest =>
      x :: List.filter (fun y => negb (same_value_zero x y)) (set_of rest)
  end.

(** What a run of [initialSync] or [incrementalSync] mutates: its map
    ([capturedAds], [updatedAds]) and the database. *)
Record Run : Type := mkRun {
  ads_map : AdMap;
  db : Database
}.

Definition with_map (f : AdMap -> AdMap) (r : Run) : Run :=
  {| ads_map := f (ads_map r); db := db r |}.

Definition with_db (f : Database -> Database) (r : Run) : Run :=
  {| ads_map := ads_map r; db := f (db r) |}.

(** [saveAd(ad)]: [path.join] throws on a [page_id] that is not a string. *)
Definition saveAd (ad : AdData) : Eff Run unit :=
  match page_id ad with
  | VStr dir =>
      modify (with_db (fun d =>
        {| ad_files := <[(dir, to_string (id ad)) := ad]> (ad_files d);
           metadata_files := metadata_files d |}))
  | _ => lift (Throw TypeError)
  end.

(** [loadAd(pageId, adId)]: [None] stands for [null]. *)
Definition loadAd (pageId : string) (adId : value) : Eff Run (option AdData) :=
  r ← get_state; mret (ad_files (db r) !! (pageId, to_string adId)).

(** [savePageMetadata(metadata)] *)
Definition savePageMetadata (metadata : PageMetadata) : Eff Run unit :=
  match meta_page_id metadata with
  | VStr dir =>
      modify (with_db (fun d =>
        {| ad_files := ad_files d;
           metadata_files := <[dir := metadata]> (metadata_files d) |}))
  | _ => lift (Throw TypeError)
  end.

(** [loadPageMetadata(pageId)] *)
Definition loadPageMetadata (pageId : string) : Eff Run (option PageMetadata) :=
  r ← get_state; mret (metadata_files (db r) !! pageId).

(** The call [this.extractAdData(json)] inside a response handler. *)
Definition extracted (json : value) : Eff Run (list AdData) :=
  fun r reads =>
    match extractAdData json reads with
    | (ads, reads') => (Normal ads, r, reads')
    end.

(** *** [initialSync] *)

(** [max?: number]: [None] when the argument is left out. *)
Definition cap : Type := option Z.

(** [!max || capturedAds.size < max] *)
Definition below_cap (max : cap) (size : nat) : bool :=
  match max with
  | None => true
  | Some m => (m =? 0) || (Z.of_nat size <? m)
  end.

(** [max && capturedAds.size >= max] *)
Definition cap_reached (max : cap) (size : nat) : bool :=
  match max with
  | None => false
  | Some m => negb (m =? 0) && (m <=? Z.of_nat size)
  end.

(** Lines 184-193: the body of the loop over the extracted ads; answers
    whether the loop breaks. *)
Definition capture (max : cap) (ad : AdData) : Eff Run bool :=
  r ← get_state;
  if below_cap max (map_size (ads_map r)) then
    _ ← modify (with_map (fun m => map_set m (id ad) ad));
    _ ← saveAd ad;
    r' ← get_state;
    mret (cap_reached max (map_size (ads_map r')))
  else mret false.

(** Lines 180-198: what the handler does with the extracted ads; when
    there are none it logs [Object.keys(json)]. *)
Definition capture_all (max : cap) (json : value) (ads : list AdData)
  : Eff Run unit :=
  if (0 <? length ads)%nat then for_break ads (capture max)
  else
    _ ← lift (keys json);
    mret tt.

(** Lines 151-206: the handler of a relevant response (the URL filter
    passed, status 200); [None] is a body that [JSON.parse] rejects.  A
    handler is taken to run to its end before the next one starts: the
    [await] on [saveAd] is the one point where handlers could
    interleave.  [Async] below is the reading in which they do. *)
Definition on_response_initial (max : cap) (body : option value)
  : Eff Run unit :=
  try_catch
    match body with
    | None => mret tt
    | Some json => ads ← extracted json; capture_all max json ads
    end
    (fun _ => mret tt).

(** One turn of the scroll loop as the page lets it be seen: the responses
    handled while the loop scrolls and waits, whether the page reports its
    bottom reached, and the responses handled while that is asked. *)
Record Turn : Type := mkTurn {
  while_waiting : list (option value);
  isAtBottom : bool;
  while_probing : list (option value)
}.

Definition idle : Turn :=
  {| while_waiting := []; isAtBottom := false; while_probing := [] |}.

Definition maxScrollAttempts : nat := 20.

(** Lines 234-271; [left] is [maxScrollAttempts - scrollAttempts]. *)
Fixpoint scroll (max : cap) (left : nat) (turns : list Turn)
  (previousCount noChangeCount : nat) : Eff Run unit :=
  match left with
  | O => mret tt
  | S left' =>
      r ← get_state;
      if below_cap max (map_size (ads_map r)) then
        let turn := hd idle turns in
        _ ← for_each (while_waiting turn) (on_response_initial max);
        r' ← get_state;
        let size := map_size (ads_map r') in
        let same := (size =? previousCount)%nat in
        let noChangeCount' := if same then S noChangeCount else O in
        let previousCount' := if same then previousCount else size in
        if same && (5 <=? noChangeCount')%nat then mret tt
        else
          _ ← for_each (while_probing turn) (on_response_initial max);
          if isAtBottom turn && (2 <=? noChangeCount')%nat then mret tt
          else scroll max left' (tl turns) previousCount' noChangeCount'
      else mret tt
  end.

(** Lines 274-282: the metadata of every page seen.  For a [pageId] that
    is an array or an object the filter compares a reference with itself,
    which [strict_eq] does not render; the count it yields is then never
    seen, since [savePageMetadata] throws on such a [pageId] before it
    writes. *)
Definition save_all_metadata : Eff Run unit :=
  r ← get_state;
  let pageIds := set_of (List.map page_id (map_values (ads_map r))) in
  for_each pageIds (fun pageId =>
    r' ← get_state;
    let pageAds :=
      List.filter (fun ad => strict_eq (page_id ad) pageId)
        (map_values (ads_map r')) in
    stamp ← now clock;
    savePageMetadata {| meta_page_id := pageId;
                        last_synced := stamp;
                        total_ads := Z.of_nat (length pageAds) |}).

(** [initialSync(url, max)] against a page that answers with the
    responses [on_load] while it loads and with [turns] while it is
    scrolled; the run starts with a new, empty [capturedAds].  An error
    that reaches the outer [catch] is thrown again. *)
Definition initialSync (max : cap) (on_load : list (option value))
  (turns : list Turn) : Eff Run unit :=
  _ ← modify (with_map (fun _ => []));
  _ ← for_each on_load (on_response_initial max);
  _ ← scroll max maxScrollAttempts turns 0 0;
  save_all_metadata.

(** *** [incrementalSync] *)

(** Lines 367-371: the condition under which an ad is written. *)
Definition needs_update (existingAd : option AdData) (ad : AdData) : bool :=
  match existingAd with
  | None => true
  | Some existing =>
      negb (strict_eq (is_active existing) (is_active ad))
      || negb (strict_eq (end_date existing) (end_date ad))
      || negb (strict_eq (start_date existing) (start_date ad))
      || negb (bool_decide
                 (stringify (VArr (creative_bodies existing))
                  = stringify (VArr (creative_bodies ad))))
  end.

(** Lines 362-377: the body of the loop over the extracted ads. *)
Definition refresh (pageId : string) (ad : AdData) : Eff Run unit :=
  if strict_eq (page_id ad) (VStr pageId) then
    existingAd ← loadAd pageId (id ad);
    if needs_update existingAd ad then
      _ ← modify (with_map (fun m => map_set m (id ad) ad));
      saveAd ad
    else mret tt
  else mret tt.

(** Lines 337-382: the handler of a relevant response with status 200. *)
Definition on_response_incremental (pageId : string) (body : option value)
  : Eff Run unit :=
  try_catch
    match body with
    | None => mret tt
    | Some json =>
        ads ← extracted json;
        for_each ads (refresh pageId)
    end
    (fun _ => mret tt).

(** [incrementalSync(pageId)] against a page that answers with
    [responses]; the run starts with a new, empty [updatedAds]. *)
Definition incrementalSync (pageId : string) (responses : list (option value))
  : Eff Run unit :=
  _ ← modify (with_map (fun _ => []));
  metadata ← loadPageMetadata pageId;
  _ ← for_each responses (on_response_incremental pageId);
  stamp ← now clock;
  r ← get_state;
  savePageMetadata
    {| meta_page_id := VStr pageId;
       last_synced := stamp;
       total_ads :=
         match metadata with
         | Some m => (if total_ads m =? 0 then 0 else total_ads m)
         | None => 0
         end + Z.of_nat (map_size (ads_map r)) |}.

End WithClock.

End Scraper.

(** ** The response filter and the pages asked for *)

Module Intercept.
Import JS Eff Scraper.

(** [s.startsWith(sub)] *)
Fixpoint starts_with (s sub : string) : bool :=
  match sub with
  | EmptyString => true
  | String c sub' =>
      match s with
      | EmptyString => false
      | String d s' => Ascii.eqb c d && starts_with s' sub'
      end
  end.

(** [s.includes(sub)] *)
Fixpoint includes (s sub : string) : bool :=
  starts_with s sub
  || match s with
     | EmptyString => false
     | String _ s' => includes s' sub
     end.

(** Lines 157-163 and 342-348: [isRelevantRequest], from the URL of a
    response and its [content-type] header. *)
Definition isRelevantRequest (url contentType : string) : bool :=
  (includes url "graphql"
   && (includes url "ad_library" || includes url "AdLibrary"))
  || includes url "/api/graphql/"
  || includes url "ads/library"
  || includes url "ad_archive"
  || (includes url "facebook.com" && includes contentType "application/json").

(** A response as a handler sees it: [response.url()], the header
    [response.headers()['content-type']] ([None] when there is none),
    [response.status()], and [JSON.parse(await response.text())], [None]
    when it throws. *)
Record Response : Type := mkResponse {
  url : string;
  content_type : option string;
  status : Z;
  json_body : option value
}.

(** [response.headers()['content-type'] || ''] *)
Definition contentType (response : Response) : string :=
  match content_type response with
  | Some header => header
  | None => EmptyString
  end.

(** Lines 165 and 350: [isRelevantRequest && response.status() === 200]. *)
Definition intercepted (response : Response) : bool :=
  isRelevantRequest (url response) (contentType response)
  && (status response =? 200).

Section WithClock.

Variable clock : nat -> Z.

(** Lines 151-206: the whole handler [initialSync] registers with
    [page.on('response', ...)]. *)
Definition response_handler_initial (max : cap) (response : Response)
  : Eff Run unit :=
  if intercepted response
  then on_response_initial clock max (json_body response)
  else mret tt.

(** Lines 337-382: the whole handler [incrementalSync] registers. *)
Definition response_handler_incremental (pageId : string) (response : Response)
  : Eff Run unit :=
  if intercepted response
  then on_response_incremental clock pageId (json_body response)
  else mret tt.

End WithClock.

(** Line 384: the URL [incrementalSync] navigates to. *)
Definition library_url (pageId : string) : string :=
  ("https://www.facebook.com/ads/library/?active_status=all&ad_type=all&country=ALL&view_all_page_id="
   ++ pageId)%string.

End Intercept.

(** ** The handlers as the event loop runs them *)

(** [page.on('response', async (response) => ...)] registers a function
    that nobody awaits: called for a response, it runs up to its first
    [await], and each time what it awaits has settled it runs on up to the
    next; in between, other handlers and the sync itself run.  [Scraper]
    takes every handler to run to its end before anything else happens,
    and the browser to do as it is asked; here the order in which the
    suspended handlers are resumed and the calls into the browser that
    fail are, with the responses, what the browser, the page and the
    event loop give a run. *)
Module Async.
Import JS Eff Scraper.

(** A handler at one of its [await]s: at [response.text()] (lines 168,
    351); at [this.loadAd(pageId, ad.id)] (line 364), before the file is
    read and after; at [this.saveAd(ad)] (lines 186, 373), before the file
    is written and after.  [rest] are the records of the response the loop
    has not reached. *)
Inductive pending : Type :=
| Reading (body : option value)
| Loading (ad : AdData) (rest : list AdData)
| Loaded (existingAd : option AdData) (ad : AdData) (rest : list AdData)
| Writing (ad : AdData) (rest : list AdData)
| Written (rest : list AdData)
| Finished.

(** What a sync mutates, and the handlers it has in flight, in the order
    of their responses. *)
Record Session : Type := mkSession {
  run : Run;
  pool : list pending
}.

(** A step of the event loop that concerns the handlers: a relevant
    response of status 200 arrives ([None] is a body that cannot be read
    or that [JSON.parse] rejects), or what the handler of the [n]-th
    response awaits settles and the handler runs on. *)
Inductive event : Type :=
| Respond (body : option value)
| Advance (n : nat).

Definition on_run {A} (m : Eff Run A) : Eff Session A :=
  fun s reads =>
    match m (run s) reads with
    | (c, r, reads') => (c, {| run := r; pool := pool s |}, reads')
    end.

(** [try { m } finally { after }] *)
Definition finally {St A} (m : Eff St A) (after : Eff St unit) : Eff St A :=
  fun s reads =>
    match m s reads with
    | (c, s', reads') =>
        match after s' reads' with
        | (Normal _, s'', reads'') => (c, s'', reads'')
        | (Throw e, s'', reads'') => (Throw e, s'', reads'')
        end
    end.

Section WithClock.

Variable clock : nat -> Z.

(** Lines 183-193, from the head of the loop to its next [await]: a
    record met below the cap is put into the map and [saveAd] is called
    for it; a record met at the cap is passed over. *)
Fixpoint offer (max : cap) (ads : list AdData) : Eff Run pending :=
  match ads with
  | [] => mret Finished
  | ad :: rest =>
      r ← get_state;
      if below_cap max (map_size (ads_map r)) then
        _ ← modify (with_map (fun m => map_set m (id ad) ad));
        mret (Writing ad rest)
      else offer max rest
  end.

(** A handler of [initialSync] run from one [await] to the next.  An
    error ends it: the [catch] of line 201 only logs. *)
Definition resume_initial (max : cap) (h : pending) : Eff Run pending :=
  match h with
  | Reading None => mret Finished
  | Reading (Some json) =>
      ads ← extracted clock json;
      if (0 <? length ads)%nat then offer max ads
      else try_catch (_ ← lift (keys json); mret Finished)
             (fun _ => mret Finished)
  | Writing ad rest =>
      try_catch (_ ← saveAd ad; mret (Written rest)) (fun _ => mret Finished)
  | Written rest =>
      r ← get_state;
      if cap_reached max (map_size (ads_map r)) then mret Finished
      else offer max rest
  | Loading _ _ | Loaded _ _ _ | Finished => mret Finished
  end.

(** Lines 362-364, from the head of the loop to its next [await]: the
    records of other pages are passed over, [loadAd] is called for the
    first record of the page. *)
Fixpoint seek (pageId : string) (ads : list AdData) : pending :=
  match ads with
  | [] => Finished
  | ad :: rest =>
      if strict_eq (page_id ad) (VStr pageId) then Loading ad rest
      else seek pageId rest
  end.

(** A handler of [incrementalSync] run from one [await] to the next. *)
Definition resume_incremental (pageId : string) (h : pending)
  : Eff Run pending :=
  match h with
  | Reading None => mret Finished
  | Reading (Some json) =>
      ads ← extracted clock json;
      mret (seek pageId ads)
  | Loading ad rest =>
      existingAd ← loadAd pageId (id ad);
      mret (Loaded existingAd ad rest)
  | Loaded existingAd ad rest =>
      if needs_update existingAd ad then
        _ ← modify (with_map (fun m => map_set m (id ad) ad));
        mret (Writing ad rest)
      else mret (seek pageId rest)
  | Writing ad rest =>
      try_catch (_ ← saveAd ad; mret (Written rest)) (fun _ => mret Finished)
  | Written rest => mret (seek pageId rest)
  | Finished => mret Finished
  end.

(** One event: a response starts a handler, which stops at
    [await response.text()]; an [Advance] resumes the handler it names,
    and does nothing when there is none. *)
Definition handle (resume : pending -> Eff Run pending) (e : event)
  : Eff Session unit :=
  match e with
  | Respond body =>
      modify (fun s => {| run := run s; pool := pool s ++ [Reading body] |})
  | Advance n =>
      s ← get_state;
      match pool s !! n with
      | Some h =>
          h' ← on_run (resume h);
          modify (fun s => {| run := run s; pool := <[n := h']> (pool s) |})
      | None => mret tt
      end
  end.

(** The events that happen while the sync is at one of its own
    [await]s. *)
Definition happen (resume : pending -> Eff Run pending) (events : list event)
  : Eff Session unit :=
  for_each events (handle resume).

(** A call into the browser that rejects ([puppeteer.launch],
    [page.goto], [page.evaluate], [browser.close]): the sync throws. *)
Definition settled {St} (fulfilled : bool) : Eff St unit :=
  if fulfilled then mret tt else lift (Throw BrowserError).

(** One turn of the scroll loop: what happens while it scrolls and waits
    (until the scroll is rejected, when it is), whether [page.evaluate]
    scrolls the page, what happens while the page is asked for its bottom,
    and its answer ([None] when that call is rejected). *)
Record Turn : Type := mkTurn {
  while_waiting : list event;
  scrolled : bool;
  while_probing : list event;
  isAtBottom : option bool
}.

Definition idle : Turn :=
  {| while_waiting := []; scrolled := true;
     while_probing := []; isAtBottom := Some false |}.

(** Lines 234-271. *)
Fixpoint scroll (max : cap) (left : nat) (turns : list Turn)
  (previousCount noChangeCount : nat) : Eff Session unit :=
  match left with
  | O => mret tt
  | S left' =>
      s ← get_state;
      if below_cap max (map_size (ads_map (run s))) then
        let turn := hd idle turns in
        _ ← happen (resume_initial max) (while_waiting turn);
        _ ← settled (scrolled turn);
        s' ← get_state;
        let size := map_size (ads_map (run s')) in
        let same := (size =? previousCount)%nat in
        let noChangeCount' := if same then S noChangeCount else O in
        let previousCount' := if same then previousCount else size in
        if same && (5 <=? noChangeCount')%nat then mret tt
        else
          _ ← happen (resume_initial max) (while_probing turn);
          match isAtBottom turn with
          | None => lift (Throw BrowserError)
          | Some bottom =>
              if bottom && (2 <=? noChangeCount')%nat then mret tt
              else scroll max left' (tl turns) previousCount' noChangeCount'
          end
      else mret tt
  end.

(** Lines 275-282: the loop over the page ids, with what happens while
    the metadata of each page are written. *)
Fixpoint metadata_loop (max : cap) (pageIds : list value)
  (while_writing : list (list event)) : Eff Session unit :=
  match pageIds with
  | [] => mret tt
  | pageId :: later =>
      s ← get_state;
      let pageAds :=
        List.filter (fun ad => strict_eq (page_id ad) pageId)
          (map_values (ads_map (run s))) in
      stamp ← now clock;
      _ ← on_run (savePageMetadata {| meta_page_id := pageId;
                                      last_synced := stamp;
                                      total_ads := Z.of_nat (length pageAds) |});
      _ ← happen (resume_initial max) (hd [] while_writing);
      metadata_loop max later (tl while_writing)
  end.

(** Lines 274-282: the page ids are those of the map as the scroll loop
    leaves it. *)
Definition save_all_metadata (max : cap) (while_writing : list (list event))
  : Eff Session unit :=
  s ← get_state;
  let pageIds := set_of (List.map page_id (map_values (ads_map (run s)))) in
  metadata_loop max pageIds while_writing.

(** What the browser, the page and the event loop give a run of
    [initialSync]: whether the browser is launched and the page set up
    (lines 120-149); the events while the page loads and settles (until
    the navigation is rejected, when it is) and whether [page.goto]
    succeeds; the turns of the scroll loop; the events while the metadata
    of each page are written; those while the browser is closed, and
    whether [browser.close] succeeds. *)
Record Schedule : Type := mkSchedule {
  launched : bool;
  on_load : list event;
  loaded : bool;
  turns : list Turn;
  while_writing : list (list event);
  while_closing : list event;
  closed : bool
}.

(** [initialSync(url, max)]: a new map and, once the browser is launched,
    a new page without handlers in flight.  What is thrown is thrown
    again by the [catch] of line 285; the [finally] closes the browser. *)
Definition initialSync (max : cap) (schedule : Schedule) : Eff Session unit :=
  _ ← modify (fun s => {| run := with_map (fun _ => []) (run s);
                          pool := [] |});
  _ ← settled (launched schedule);
  finally
    (_ ← happen (resume_initial max) (on_load schedule);
     _ ← settled (loaded schedule);
     _ ← scroll max maxScrollAttempts (turns schedule) 0 0;
     save_all_metadata max (while_writing schedule))
    (_ ← happen (resume_initial max) (while_closing schedule);
     settled (closed schedule)).

(** What the browser, the page and the event loop give a run of
    [incrementalSync]: whether the browser is launched and the page set
    up; the events while the page loads and is scrolled five times (until
    a call is rejected, when one is) and whether [page.goto] and the five
    [page.evaluate] succeed; the events while the metadata are written;
    those while the browser is closed, and whether [browser.close]
    succeeds. *)
Record Visit : Type := mkVisit {
  opened : bool;
  while_scrolling : list event;
  scrolled_down : bool;
  while_stamping : list event;
  while_leaving : list event;
  departed : bool
}.

(** [incrementalSync(pageId)]: the metadata are read before the browser
    is launched. *)
Definition incrementalSync (pageId : string) (visit : Visit)
  : Eff Session unit :=
  _ ← modify (fun s => {| run := with_map (fun _ => []) (run s);
                          pool := [] |});
  metadata ← on_run (loadPageMetadata pageId);
  _ ← settled (opened visit);
  finally
    (_ ← happen (resume_incremental pageId) (while_scrolling visit);
     _ ← settled (scrolled_down visit);
     stamp ← now clock;
     s ← get_state;
     _ ← on_run
           (savePageMetadata
              {| meta_page_id := VStr pageId;
                 last_synced := stamp;
                 total_ads :=
                   match metadata with
                   | Some m => (if total_ads m =? 0 then 0 else total_ads m)
                   | None => 0
                   end + Z.of_nat (map_size (ads_map (run s))) |});
     happen (resume_incremental pageId) (while_stamping visit))
    (_ ← happen (resume_incremental pageId) (while_leaving visit);
     settled (departed visit)).

End WithClock.

End Async.

(** * Verification *)

Import JS Eff Scraper.

(** ** Notions used in the statements *)

(** [triple P m Q E]: started in a state satisfying [P], the computation
    [m] either completes with a result and a state related by [Q], or
    throws in a state satisfying [E]. *)
Definition triple {St A} (P : St -> Prop) (m : Eff St A)
  (Q : A -> St -> Prop) (E : St -> Prop) : Prop :=
  forall s t, P s ->
    match m s t with
    | (Normal a, s', _) => Q a s'
    | (Throw _, s', _) => E s'
    end.

(** [sim R RA m1 m2]: started in states related by [R], the two
    computations complete alike (both normally, with results related by
    [RA], or both with the same error), in states related by [R] again. *)
Definition sim {St A} (R : St -> St -> Prop) (RA : A -> A -> Prop)
  (m1 m2 : Eff St A) : Prop :=
  forall s1 s2 t1 t2, R s1 s2 ->
    match m1 s1 t1, m2 s2 t2 with
    | (Normal a1, s1', _), (Normal a2, s2', _) => RA a1 a2 /\ R s1' s2'
    | (Throw e1, s1', _), (Throw e2, s2', _) => e1 = e2 /\ R s1' s2'
    | _, _ => False
    end.

(** The value found by following property names from a value; a step from
    anything but an object that has the property ends in [undefined]. *)
Fixpoint lookup_path (path : list string) (v : value) : value :=
  match path with
  | [] => v
  | k :: rest =>
      lookup_path rest
        match v with
        | VObj props => own props k
        | _ => VUndef
        end
  end.

(** The anchor path: where the collection of search result edges lives. *)
Definition anchor : list string :=
  ["data"; "ad_library_main"; "search_results_connection"; "edges"].

(** The identity a raw ad-like object carries itself:
    [adResult.ad_archive_id || adResult.id]. *)
Definition own_identity (x : value) : value :=
  or (lookup_path ["ad_archive_id"] x) (lookup_path ["id"] x).

(** The identity made up at an instant for an object that carries none. *)
Definition synthesized (instant : Z) : value :=
  VStr ("unknown_" ++ pretty instant).

(** The record built from a raw ad-like object, given its identity and the
    instant of capture. *)
Definition record_of (x : value) (ad_id : value) (stamp : Z) : AdData :=
  let snapshot := or (lookup_path ["snapshot"] x) (VObj []) in
  {| id := ad_id;
     page_id := or (lookup_path ["page_id"] x)
                  (or (lookup_path ["page_id"] snapshot) (VStr "unknown_page"));
     is_active := if strict_eq (lookup_path ["is_active"] x) VUndef
                  then VBool true else lookup_path ["is_active"] x;
     start_date := or (lookup_path ["start_date"] x)
                     (lookup_path ["delivery_start_time"] x);
     end_date := or (lookup_path ["end_date"] x)
                   (lookup_path ["delivery_stop_time"] x);
     snapshot_url := lookup_path ["snapshot_url"] x;
     creative_bodies :=
       List.filter truthy [lookup_path ["snapshot"; "body"; "text"] x];
     fetched_at := stamp;
     raw_data := VObj (define (spread x) "snapshot" snapshot) |}.

(** A value that is there: neither [undefined], nor [null], nor the empty
    string. *)
Definition non_empty (v : value) : Prop :=
  v <> VUndef /\ v <> VNull /\ v <> VStr EmptyString.

Definition identifiable (ad : AdData) : Prop :=
  non_empty (id ad) /\ non_empty (page_id ad).

(** A run as it starts: an empty map over the database found on disk. *)
Definition fresh (found : Database) : Run :=
  {| ads_map := []; db := found |}.

(** The run after [capturedAds.set(ad.id, ad)], and after [saveAd(ad)]
    wrote the record under the directory [dir]. *)
Definition filed (dir : string) (ad : AdData) (r : Run) : Run :=
  with_db (fun d =>
    {| ad_files := <[(dir, to_string (id ad)) := ad]> (ad_files d);
       metadata_files := metadata_files d |}) r.

Definition kept (ad : AdData) (r : Run) : Run :=
  with_map (fun m => map_set m (id ad) ad) r.

(** Every record in the map, and every record on disk that was not found
    there when the run started, is identifiable. *)
Definition sound (found : Database) (r : Run) : Prop :=
  (forall key ad, ad_files (db r) !! key = Some ad ->
                  ad_files found !! key = Some ad \/ identifiable ad)
  /\ Forall (fun entry => identifiable entry.2) (ads_map r).

(** Values that are not compared by reference. *)
Definition primitive (v : value) : Prop :=
  match v with
  | VArr _ | VObj _ => False
  | _ => True
  end.

Definition is_string (v : value) : Prop := exists s, v = VStr s.

(** The tracked fields hold what [AdData] declares for them: scalars in
    [is_active], [start_date] and [end_date], strings in
    [creative_bodies]. *)
Definition tracked_as_declared (ad : AdData) : Prop :=
  primitive (is_active ad) /\ primitive (start_date ad)
  /\ primitive (end_date ad) /\ Forall is_string (creative_bodies ad).

(** Two records agree on the tracked fields. *)
Definition same_tracked (a b : AdData) : Prop :=
  is_active a = is_active b /\ start_date a = start_date b
  /\ end_date a = end_date b /\ creative_bodies a = creative_bodies b.

(** Reading back what [escape_char] wrote. *)
Definition unhex (c : ascii) : N :=
  let n := N_of_ascii c in if (n <? 58)%N then (n - 48)%N else (n - 87)%N.

Definition unescape_char (s : string) : option (ascii * string) :=
  match s with
  | EmptyString => None
  | String c rest =>
      if Ascii.eqb c backslash then
        match rest with
        | String e rest' =>
            if Ascii.eqb e dquote then Some (dquote, rest')
            else if Ascii.eqb e backslash then Some (backslash, rest')
            else if Ascii.eqb e "b" then Some ("008"%char, rest')
            else if Ascii.eqb e "f" then Some ("012"%char, rest')
            else if Ascii.eqb e "n" then Some ("010"%char, rest')
            else if Ascii.eqb e "r" then Some ("013"%char, rest')
            else if Ascii.eqb e "t" then Some ("009"%char, rest')
            else if Ascii.eqb e "u" then
              match rest' with
              | String _ (String _ (String h (String l r))) =>
                  Some (ascii_of_N (16 * unhex h + unhex l), r)
              | _ => None
              end
            else None
        | EmptyString => None
        end
      else if Ascii.eqb c dquote then None
      else Some (c, rest)
  end.

Fixpoint distinct_ids (ads : list AdData) : Prop :=
  match ads with
  | [] => True
  | ad :: rest =>
      Forall (fun other => same_value_zero (id ad) (id other) = false) rest
      /\ distinct_ids rest
  end.

(** The keys of a map are apart from the identities of some records. *)
Definition apart (m : AdMap) (ads : list AdData) : Prop :=
  Forall (fun entry =>
            Forall (fun ad => same_value_zero entry.1 (id ad) = false) ads) m.

Definition page_is_string (ad : AdData) : Prop := is_string (page_id ad).

(** The handlers of [initialSync] at work on batches of records already
    extracted, one batch a response. *)
Definition feed (max : cap) (batches : list (list AdData)) : Eff Run unit :=
  for_each batches
    (fun ads => try_catch (for_break ads (capture max)) (fun _ => mret tt)).

(** The batches the handlers of a run extract from the bodies of its
    responses, the first body read after [reads] reads of the clock. *)
Fixpoint extracted_batches (clock : nat -> Z) (bodies : list (option value))
  (reads : nat) : list (list AdData) :=
  match bodies with
  | [] => []
  | None :: rest => [] :: extracted_batches clock rest reads
  | Some json :: rest =>
      (extractAdData clock json reads).1
      :: extracted_batches clock rest (extractAdData clock json reads).2
  end.

(** The run with a new, empty map. *)
Definition renewed (r : Run) : Run := with_map (fun _ => []) r.

(** The last record of a list that has a given key. *)
Definition last_with (k : value) (ads : list AdData) : option AdData :=
  List.find (fun ad => same_value_zero (id ad) k) (rev ads).

(** The ad-like objects of a response: the members of the collated results
    of every edge under the anchor path. *)
Definition results_of_edge (edge : value) : list value :=
  match iterate (or (lookup_path ["node"; "collated_results"] edge) (VArr []))
  with
  | Normal xs => xs
  | Throw _ => []
  end.

Definition ad_like_objects (response : value) : list value :=
  match lookup_path anchor response with
  | VArr es => List.flat_map results_of_edge es
  | _ => []
  end.

(** An ad-like object that carries an identity of its own, one that no
    made-up identity can be mistaken for. *)
Definition identified (x : value) : Prop :=
  truthy x = true ->
  truthy (own_identity x) = true
  /\ forall instant, strict_eq (own_identity x) (synthesized instant) = false.

Definition all_identified (body : option value) : Prop :=
  match body with
  | Some response => Forall identified (ad_like_objects response)
  | None => True
  end.

Definition turn_identified (turn : Turn) : Prop :=
  Forall all_identified (while_waiting turn)
  /\ Forall all_identified (while_probing turn).

(** A record, a metadata file and a run with the instants of capture and
    of synchronisation blanked. *)
Definition undated (ad : AdData) : AdData :=
  {| id := id ad;
     page_id := page_id ad;
     is_active := is_active ad;
     start_date := start_date ad;
     end_date := end_date ad;
     snapshot_url := snapshot_url ad;
     creative_bodies := creative_bodies ad;
     fetched_at := 0;
     raw_data := raw_data ad |}.

Definition undated_metadata (m : PageMetadata) : PageMetadata :=
  {| meta_page_id := meta_page_id m;
     last_synced := 0;
     total_ads := total_ads m |}.

Definition undated_map (m : AdMap) : AdMap :=
  List.map (fun entry => (entry.1, undated entry.2)) m.

Definition undated_db (d : Database) : Database :=
  {| ad_files := undated <$> ad_files d;
     metadata_files := undated_metadata <$> metadata_files d |}.

Definition undated_run (r : Run) : Run :=
  {| ads_map := undated_map (ads_map r); db := undated_db (db r) |}.

(** Two runs that differ in instants only. *)
Definition same_undated (r1 r2 : Run) : Prop :=
  undated_run r1 = undated_run r2.

Definition same_records (ads1 ads2 : list AdData) : Prop :=
  List.map undated ads1 = List.map undated ads2.

Definition same_metadata (m1 m2 : option PageMetadata) : Prop :=
  undated_metadata <$> m1 = undated_metadata <$> m2.

(** Two outcomes of a run that differ in instants only. *)
Definition same_outcome (o1 o2 : completion unit * Run * nat) : Prop :=
  o1.1.1 = o2.1.1 /\ same_undated o1.1.2 o2.1.2.

(** Responses used as examples: the GraphQL envelope around a list of
    edges, an edge around its collated results, and two raw ads. *)
Definition response_of (edges : list value) : value :=
  VObj [("data",
         VObj [("ad_library_main",
                VObj [("search_results_connection",
                       VObj [("edges", VArr edges)])])])].

Definition edge_of (collated_results : value) : value :=
  VObj [("node", VObj [("collated_results", collated_results)])].

Definition raw_ad (archive_id page : string) (active : bool) : value :=
  VObj [("ad_archive_id", VStr archive_id); ("page_id", VStr page);
        ("is_active", VBool active)].

Definition nameless_ad (page : string) : value :=
  VObj [("page_id", VStr page)].

(** A clock that advances by a millisecond between any two reads. *)
Definition ticking (start : Z) : nat -> Z := fun n => start + Z.of_nat n.

(** A clock that stands still. *)
Definition frozen (instant : Z) : nat -> Z := fun _ => instant.

(** ** Names the disk takes as written *)

(** [saveAd] and [loadAd] reach the file of a record through
    [path.join(dbPath, page_id, id + '.json')], the metadata through
    [path.join(dbPath, page_id, '_metadata.json')].  [Database] keys the
    files by the page and the id as written, which is what [path.join]
    and the file system do for the names below: made of letters, digits,
    [.], [_] and [-] (no separator, nothing to normalise), short enough
    to name a file, not the empty name, [.] or [..] for a page, and not
    [_metadata] for an id, on a file system that tells upper case from
    lower case.  For other names the file of a record can be another
    record's, another page's, the metadata, or none at all. *)
Definition portable (c : ascii) : bool :=
  let n := nat_of_ascii c in
  ((48 <=? n) && (n <=? 57) || (65 <=? n) && (n <=? 90)
   || (97 <=? n) && (n <=? 122) || (n =? 45) || (n =? 46) || (n =? 95))%nat.

Fixpoint all_portable (s : string) : bool :=
  match s with
  | EmptyString => true
  | String c s' => portable c && all_portable s'
  end.

Definition plain_file (key : string) : bool :=
  all_portable key && negb (String.eqb key "_metadata")
  && (String.length key <=? 200)%nat.

Definition plain_dir (dir : string) : bool :=
  all_portable dir && negb (String.eqb dir EmptyString)
  && negb (String.eqb dir ".") && negb (String.eqb dir "..")
  && (String.length dir <=? 200)%nat.

(** A record that [saveAd] can file where [Database] says: its [id] and
    its [page_id] are strings, plain names both. *)
Definition savable (ad : AdData) : Prop :=
  exists key dir,
    id ad = VStr key /\ page_id ad = VStr dir
    /\ plain_file key = true /\ plain_dir dir = true.

(** The map after the records of a list were accepted one after the
    other, from a map [m] and from the empty map. *)
Definition accepting (m : AdMap) (ads : list AdData) : AdMap :=
  fold_left (fun m ad => map_set m (id ad) ad) ads m.

Definition session_map (ads : list AdData) : AdMap := accepting [] ads.

(** Every record of a list was accepted below the cap: the map held fewer
    records than the cap allows when its turn came. *)
Definition accepted_below (max : cap) (m : AdMap) (accepted : list AdData)
  : Prop :=
  forall before ad after,
    accepted = before ++ ad :: after ->
    below_cap max (map_size (accepting m before)) = true.

(** ** Notions used for the further properties *)

Import Intercept.

(** The edges under the anchor path of a response. *)
Definition edges_of (response : value) : list value :=
  match lookup_path anchor response with
  | VArr es => es
  | _ => []
  end.

(** An edge whose collated results the loop can run over: absent, falsy,
    an array or a string. *)
Definition iterable_edge (edge : value) : Prop :=
  exists xs,
    iterate (or (lookup_path ["node"; "collated_results"] edge) (VArr []))
    = Normal xs.

(** The records of ad-like objects that carry an identity, captured one
    after the other from the read [reads] of the clock on, two reads an
    object. *)
Fixpoint stamped (clock : nat -> Z) (reads : nat) (xs : list value)
  : list AdData :=
  match xs with
  | [] => []
  | x :: rest =>
      record_of x (own_identity x) (clock reads)
      :: stamped clock (S (S reads)) rest
  end.

(** A string occurs inside another. *)
Definition occurs (sub s : string) : Prop :=
  exists before after, s = (before ++ sub ++ after)%string.

(** A turn of the scroll loop in which no response is handled. *)
Definition barren (turn : Turn) : Prop :=
  while_waiting turn = [] /\ while_probing turn = [].



(** The bodies of the responses a handler lets through. *)
Definition intercepted_bodies (responses : list Response)
  : list (option value) :=
  List.map json_body (List.filter intercepted responses).

(** Every record in the map is filed on disk under its page and its key,
    and keys and pages are strings. *)
Definition map_on_disk (r : Run) : Prop :=
  forall k ad,
    In (k, ad) (ads_map r) ->
    exists key dir,
      k = VStr key /\ id ad = VStr key /\ page_id ad = VStr dir
      /\ ad_files (db r) !! (dir, key) = Some ad.

(** A body whose records [saveAd] can all file, whenever it is
    handled. *)
Definition well_named (clock : nat -> Z) (body : option value) : Prop :=
  match body with
  | None => True
  | Some json => forall reads, Forall savable (extractAdData clock json reads).1
  end.

Definition turn_well_named (clock : nat -> Z) (turn : Turn) : Prop :=
  Forall (well_named clock) (while_waiting turn)
  /\ Forall (well_named clock) (while_probing turn).

(** The number of records of a map filed under a page. *)
Definition count_of_page (dir : string) (m : AdMap) : nat :=
  length (List.filter (fun ad => strict_eq (page_id ad) (VStr dir))
            (map_values m)).

(** The files of the pages other than [pageId] are those of [r0]. *)
Definition other_pages_as_in (pageId : string) (r0 r : Run) : Prop :=
  (forall dir key, dir <> pageId ->
     ad_files (db r) !! (dir, key) = ad_files (db r0) !! (dir, key))
  /\ (forall dir, dir <> pageId ->
        metadata_files (db r) !! dir = metadata_files (db r0) !! dir).

(** A record stamped with an instant read from the clock between two
    counts of reads. *)
Definition read_between (clock : nat -> Z) (lo hi : nat) (ad : AdData)
  : Prop :=
  exists k, (lo <= k < hi)%nat /\ fetched_at ad = clock k.

(** A raw ad-like object whose page is a number. *)
Definition numbered_ad (archive_id : string) (page : Z) : value :=
  VObj [("ad_archive_id", VStr archive_id); ("page_id", VNum page)].

(** [initialSync] up to the point where the metadata are written: the
    handlers at work while the page loads and while it is scrolled, on a
    map that starts empty. *)
Definition capture_phase (clock : nat -> Z) (max : cap)
  (on_load : list (option value)) (turns : list Turn) : Eff Run unit :=
  _ ← for_each on_load (on_response_initial clock max);
  scroll clock max maxScrollAttempts turns 0 0.

(** The keys of a map are pairwise distinct, as in a [Map]. *)
Definition keys_apart (r : Run) : Prop := NoDup (List.map fst (ads_map r)).

(** A response with two ads, of the pages P and Q. *)
Definition two_pages : value :=
  response_of [edge_of (VArr [raw_ad "A" "P" true; raw_ad "B" "Q" false])].

(** A computation that never turns the count of clock reads back. *)
Definition steady {St A} (m : Eff St A) : Prop :=
  forall s t, (t <= (m s t).2)%nat.



(** A body whose records of a page have plain names for ids, whenever it
    is handled: what [loadAd] reads and [saveAd] writes for them is a
    file of that page. *)
Definition plainly_identified (clock : nat -> Z) (pageId : string)
  (body : option value) : Prop :=
  match body with
  | None => True
  | Some json =>
      forall reads,
        Forall (fun ad =>
                  page_id ad = VStr pageId ->
                  exists key, id ad = VStr key /\ plain_file key = true)
          (extractAdData clock json reads).1
  end.

(** ** Notions used for the runs of the event loop *)

(** Two handlers at the same [await], with records that differ in the
    instant of capture only; a handler about to read a response is taken
    with a response whose ad-like objects carry identities of their
    own. *)
Definition alike (h1 h2 : Async.pending) : Prop :=
  match h1, h2 with
  | Async.Reading body1, Async.Reading body2 =>
      body1 = body2 /\ all_identified body1
  | Async.Loading ad1 rest1, Async.Loading ad2 rest2 =>
      undated ad1 = undated ad2 /\ same_records rest1 rest2
  | Async.Loaded existing1 ad1 rest1, Async.Loaded existing2 ad2 rest2 =>
      undated <$> existing1 = undated <$> existing2
      /\ undated ad1 = undated ad2 /\ same_records rest1 rest2
  | Async.Writing ad1 rest1, Async.Writing ad2 rest2 =>
      undated ad1 = undated ad2 /\ same_records rest1 rest2
  | Async.Written rest1, Async.Written rest2 => same_records rest1 rest2
  | Async.Finished, Async.Finished => True
  | _, _ => False
  end.

(** Two sessions that differ in instants only. *)
Definition same_session (s1 s2 : Async.Session) : Prop :=
  same_undated (Async.run s1) (Async.run s2)
  /\ Forall2 alike (Async.pool s1) (Async.pool s2).

Definition same_end (o1 o2 : completion unit * Async.Session * nat) : Prop :=
  o1.1.1 = o2.1.1 /\ same_session o1.1.2 o2.1.2.

(** A session as a sync finds it: a map, a disk, no handler in flight. *)
Definition at_rest (r : Run) : Async.Session :=
  {| Async.run := r; Async.pool := [] |}.

Definition event_identified (e : Async.event) : Prop :=
  match e with
  | Async.Respond body => all_identified body
  | Async.Advance _ => True
  end.

Definition schedule_identified (schedule : Async.Schedule) : Prop :=
  Forall event_identified (Async.on_load schedule)
  /\ Forall (fun turn =>
               Forall event_identified (Async.while_waiting turn)
               /\ Forall event_identified (Async.while_probing turn))
       (Async.turns schedule)
  /\ Forall (Forall event_identified) (Async.while_writing schedule)
  /\ Forall event_identified (Async.while_closing schedule).

Definition visit_identified (visit : Async.Visit) : Prop :=
  Forall event_identified (Async.while_scrolling visit)
  /\ Forall event_identified (Async.while_stamping visit)
  /\ Forall event_identified (Async.while_leaving visit).

(** A handler resumed [k] times in a row. *)
Fixpoint drain (resume : Async.pending -> Eff Run Async.pending) (k : nat)
  (h : Async.pending) : Eff Run Async.pending :=
  match k with
  | O => mret h
  | S k' => h' ← resume h; drain resume k' h'
  end.

(** Resumptions enough for the handler of a response to finish: one to
    read the response, and up to four a record (the file read, the
    comparison, the file written, the loop resumed). *)
Definition patience_for (body : option value) : nat :=
  match body with
  | None => 1
  | Some json => 1 + 4 * length (List.filter truthy (ad_like_objects json))
  end.

(** Responses whose handlers run one by one: each response is followed by
    the resumptions of its handler up to its end, before anything else
    happens; [n] is the number of responses before the first of
    [bodies]. *)
Fixpoint one_by_one (n : nat) (bodies : list (option value))
  : list Async.event :=
  match bodies with
  | [] => []
  | body :: later =>
      Async.Respond body :: replicate (patience_for body) (Async.Advance n)
      ++ one_by_one (S n) later
  end.

(** The turns of a scroll loop with their responses handled one by one;
    [n] is the number of responses before them. *)
Fixpoint turns_one_by_one (n : nat) (turns : list Turn) : list Async.Turn :=
  match turns with
  | [] => []
  | turn :: later =>
      {| Async.while_waiting := one_by_one n (while_waiting turn);
         Async.scrolled := true;
         Async.while_probing :=
           one_by_one (n + length (while_waiting turn)) (while_probing turn);
         Async.isAtBottom := Some (isAtBottom turn) |}
      :: turns_one_by_one
           (n + length (while_waiting turn) + length (while_probing turn))
           later
  end.

(** The schedules on which the browser does as it is asked and no two
    handlers are in flight at once: those on which [Scraper] runs. *)
Definition in_turns (on_load : list (option value)) (turns : list Turn)
  : Async.Schedule :=
  {| Async.launched := true;
     Async.on_load := one_by_one 0 on_load;
     Async.loaded := true;
     Async.turns := turns_one_by_one (length on_load) turns;
     Async.while_writing := [];
     Async.while_closing := [];
     Async.closed := true |}.

Definition visit_in_turns (responses : list (option value)) : Async.Visit :=
  {| Async.opened := true;
     Async.while_scrolling := one_by_one 0 responses;
     Async.scrolled_down := true;
     Async.while_stamping := [];
     Async.while_leaving := [];
     Async.departed := true |}.

(** Two responses, with the ads A and B and with the ad C, and two ways
    for the event loop to run their handlers under [initialSync]: the
    second response arriving when the handler of the first has finished,
    or while it is at [await this.saveAd(ad)] for A. *)
Definition first_response : value :=
  response_of [edge_of (VArr [raw_ad "A" "P" true; raw_ad "B" "P" true])].

Definition second_response : value :=
  response_of [edge_of (VArr [raw_ad "C" "P" true])].

Definition in_turn : Async.Schedule :=
  {| Async.launched := true;
     Async.on_load :=
       [Async.Respond (Some first_response);
        Async.Advance 0; Async.Advance 0; Async.Advance 0;
        Async.Advance 0; Async.Advance 0;
        Async.Respond (Some second_response);
        Async.Advance 1; Async.Advance 1; Async.Advance 1];
     Async.loaded := true;
     Async.turns := [];
     Async.while_writing := [];
     Async.while_closing := [];
     Async.closed := true |}.

Definition overlapping : Async.Schedule :=
  {| Async.launched := true;
     Async.on_load :=
       [Async.Respond (Some first_response);
        Async.Advance 0;
        Async.Respond (Some second_response);
        Async.Advance 1;
        Async.Advance 0; Async.Advance 0;
        Async.Advance 1; Async.Advance 1];
     Async.loaded := true;
     Async.turns := [];
     Async.while_writing := [];
     Async.while_closing := [];
     Async.closed := true |}.

(** A handler of [incrementalSync] that is at a record of the page: what
    it reads and writes next is a file of the page. *)
Definition on_page (pageId : string) (h : Async.pending) : Prop :=
  match h with
  | Async.Loading ad _ | Async.Loaded _ ad _ | Async.Writing ad _ =>
      page_id ad = VStr pageId
  | Async.Reading _ | Async.Written _ | Async.Finished => True
  end.

Definition event_plainly_identified (clock : nat -> Z) (pageId : string)
  (e : Async.event) : Prop :=
  match e with
  | Async.Respond body => plainly_identified clock pageId body
  | Async.Advance _ => True
  end.

(** A visit in whose responses the records of the page have plain names
    for ids. *)
Definition visit_plainly_identified (clock : nat -> Z) (pageId : string)
  (visit : Async.Visit) : Prop :=
  Forall (event_plainly_identified clock pageId) (Async.while_scrolling visit)
  /\ Forall (event_plainly_identified clock pageId)
       (Async.while_stamping visit)
  /\ Forall (event_plainly_identified clock pageId)
       (Async.while_leaving visit).

(** A visit during which a second response arrives while the handler of
    the first is at [await this.saveAd(ad)], and the browser is gone
    before the page is scrolled down. *)
Definition cut_short : Async.Visit :=
  {| Async.opened := true;
     Async.while_scrolling :=
       [Async.Respond (Some two_pages);
        Async.Advance 0; Async.Advance 0; Async.Advance 0;
        Async.Respond (Some two_pages);
        Async.Advance 1; Async.Advance 0];
     Async.scrolled_down := false;
     Async.while_stamping := [];
     Async.while_leaving := [Async.Advance 1];
     Async.departed := true |}.

(** ** Reasoning about computations *)

Section Logic.

Context {St : Type}.

Lemma bind_unfold {A B} (m : Eff St A) (f : A -> Eff St B) s t :
  (m ≫= f) s t =
  match m s t with
  | (Normal a, s', t') => f a s' t'
  | (Throw e, s', t') => (Throw e, s', t')
  end.
Proof. reflexivity. Qed.

Lemma try_catch_unfold {A} (m : Eff St A) (h : error -> Eff St A) s t :
  try_catch m h s t =
  match m s t with
  | (Normal a, s', t') => (Normal a, s', t')
  | (Throw e, s', t') => h e s' t'
  end.
Proof. reflexivity. Qed.

Lemma ret_unfold {A} (a : A) (s : St) t :
  mret (M := Eff St) a s t = (Normal a, s, t).
Proof. reflexivity. Qed.

Lemma triple_ret {A} (P : St -> Prop) (a : A) (Q : A -> St -> Prop) E :
  (forall s, P s -> Q a s) -> triple P (mret a) Q E.
Proof. intros H s t Hs. apply H, Hs. Qed.

Lemma triple_bind {A B} (P : St -> Prop) (m : Eff St A) (f : A -> Eff St B)
  (R : A -> St -> Prop) (Q : B -> St -> Prop) (E : St -> Prop) :
  triple P m R E ->
  (forall a, triple (R a) (f a) Q E) ->
  triple P (m ≫= f) Q E.
Proof.
  intros Hm Hf s t Hs. rewrite bind_unfold.
  specialize (Hm s t Hs).
  destruct (m s t) as [[[a|e] s'] t']; [|exact Hm].
  apply Hf, Hm.
Qed.

Lemma triple_weaken {A} (P P' : St -> Prop) (m : Eff St A)
  (Q Q' : A -> St -> Prop) (E E' : St -> Prop) :
  triple P' m Q' E' ->
  (forall s, P s -> P' s) ->
  (forall a s, Q' a s -> Q a s) ->
  (forall s, E' s -> E s) ->
  triple P m Q E.
Proof.
  intros Hm HP HQ HE s t Hs. specialize (Hm s t (HP s Hs)).
  destruct (m s t) as [[[a|e] s'] t']; auto.
Qed.

Lemma triple_lift {A} (P : St -> Prop) (c : completion A)
  (Q : A -> St -> Prop) (E : St -> Prop) :
  (forall s, P s -> match c with Normal a => Q a s | Throw _ => E s end) ->
  triple P (lift c) Q E.
Proof. intros H s t Hs. specialize (H s Hs). destruct c; exact H. Qed.

Lemma triple_get_state (P : St -> Prop) (Q : St -> St -> Prop) E :
  (forall s, P s -> Q s s) -> triple P get_state Q E.
Proof. intros H s t Hs. apply H, Hs. Qed.

Lemma triple_modify (P : St -> Prop) (f : St -> St) (Q : unit -> St -> Prop) E :
  (forall s, P s -> Q tt (f s)) -> triple P (modify f) Q E.
Proof. intros H s t Hs. apply H, Hs. Qed.

Lemma triple_now clock (P : St -> Prop) (Q : Z -> St -> Prop) E :
  (forall s z, P s -> Q z s) -> triple P (now clock) Q E.
Proof. intros H s t Hs. apply H, Hs. Qed.

Lemma triple_try_catch {A} (P : St -> Prop) (m : Eff St A)
  (h : error -> Eff St A) (Q : A -> St -> Prop) (E E' : St -> Prop) :
  triple P m Q E' ->
  (forall e, triple E' (h e) Q E) ->
  triple P (try_catch m h) Q E.
Proof.
  intros Hm Hh s t Hs. unfold try_catch.
  specialize (Hm s t Hs).
  destruct (m s t) as [[[a|e] s'] t']; [exact Hm|].
  apply Hh, Hm.
Qed.

(** A loop keeps what each of its turns keeps. *)
Lemma triple_for_each {A} (I E : St -> Prop) (xs : list A)
  (body : A -> Eff St unit) :
  (forall x, In x xs -> triple I (body x) (fun _ => I) E) ->
  triple I (for_each xs body) (fun _ => I) E.
Proof.
  induction xs as [|x xs IH]; intros Hbody.
  - apply triple_ret. auto.
  - simpl. eapply triple_bind.
    + apply Hbody. now left.
    + intros ?. apply IH. intros y Hy. apply Hbody. now right.
Qed.

Lemma triple_for_break {A} (I E : St -> Prop) (xs : list A)
  (body : A -> Eff St bool) :
  (forall x, In x xs -> triple I (body x) (fun _ => I) E) ->
  triple I (for_break xs body) (fun _ => I) E.
Proof.
  induction xs as [|x xs IH]; intros Hbody.
  - apply triple_ret. auto.
  - simpl. eapply triple_bind.
    + apply Hbody. now left.
    + intros [|].
      * apply triple_ret. auto.
      * apply IH. intros y Hy. apply Hbody. now right.
Qed.


Lemma bind_lift_normal {A B} (a : A) (f : A -> Eff St B) s t :
  (lift (Normal a) ≫= f) s t = f a s t.
Proof. reflexivity. Qed.

Lemma bind_or_else_lift {B} (a b : value) (f : value -> Eff St B) s t :
  (or_else (lift (Normal a)) (lift (Normal b)) ≫= f) s t = f (or a b) s t.
Proof.
  unfold or_else, or. rewrite !bind_unfold. unfold lift.
  destruct (truthy a); reflexivity.
Qed.

Lemma bind_or_else_lift_ret {B} (a b c : value) (f : value -> Eff St B) s t :
  (or_else (lift (Normal a)) (or_else (lift (Normal b)) (mret c)) ≫= f) s t
  = f (or a (or b c)) s t.
Proof.
  unfold or_else, or. rewrite !bind_unfold. unfold lift.
  destruct (truthy a); [reflexivity|].
  rewrite !bind_unfold. destruct (truthy b); reflexivity.
Qed.

Lemma bind_now {B} clock (f : Z -> Eff St B) s t :
  (now clock ≫= f) s t = f (clock t) s (S t).
Proof. reflexivity. Qed.

End Logic.

(** ** Paths through a payload *)

Lemma opt_get_lookup v k : opt_get v k = lookup_path [k] v.
Proof. destruct v; reflexivity. Qed.

Lemma lookup_path_undef path : lookup_path path VUndef = VUndef.
Proof. induction path; simpl; auto. Qed.

Lemma isArray_inv v : isArray v = true -> exists es, v = VArr es.
Proof. destruct v; simpl; try discriminate. eauto. Qed.

Lemma extract_block_edges clock response :
  extract_block clock response =
  if negb (truthy (lookup_path ["data"] response)) then mret tt
  else
    let edges := lookup_path anchor response in
    if negb (truthy edges) || negb (isArray edges) then mret tt
    else es ← lift (iterate edges); for_each es (process_edge clock).
Proof.
  unfold extract_block. rewrite !opt_get_lookup. reflexivity.
Qed.

Lemma extract_block_without_anchor clock response reads :
  (forall es, lookup_path anchor response <> VArr es) ->
  extract_block clock response [] reads = (Normal tt, [], reads).
Proof.
  intros Hno. rewrite extract_block_edges.
  destruct (negb (truthy (lookup_path ["data"] response))); [reflexivity|].
  cbv zeta.
  destruct (negb (truthy (lookup_path anchor response))) eqn:Ht; [reflexivity|].
  destruct (isArray (lookup_path anchor response)) eqn:Ha; [|reflexivity].
  apply isArray_inv in Ha as [es Hes]. destruct (Hno es Hes).
Qed.


(** ** The extraction, step by step *)

Lemma bind_identity {B} clock (a b : value) (f : value -> Eff (list AdData) B) s t :
  (or_else (lift (Normal a)) (or_else (lift (Normal b)) (unknown_id clock)) ≫= f)
    s t
  = if truthy (or a b) then f (or a b) s t
    else f (synthesized (clock t)) s (S t).
Proof.
  unfold or_else, or, unknown_id. rewrite !bind_unfold. unfold lift.
  destruct (truthy a) eqn:Ha; [rewrite Ha; reflexivity|].
  rewrite !bind_unfold. destruct (truthy b) eqn:Hb; reflexivity.
Qed.

Lemma get_truthy v k : truthy v = true -> get v k = Normal (lookup_path [k] v).
Proof. destruct v; simpl; try discriminate; reflexivity. Qed.

Lemma truthy_or_obj v : truthy (or v (VObj [])) = true.
Proof. unfold or. destruct (truthy v) eqn:H; auto. Qed.

Lemma lookup_or_obj v path :
  path <> [] ->
  lookup_path path (or v (VObj [])) = lookup_path path v.
Proof.
  intros Hp. destruct path as [|k rest]; [congruence|].
  unfold or. destruct v as [| |[]|n|s|xs|ps]; simpl; try reflexivity.
  - destruct (n =? 0); reflexivity.
  - destruct (String.eqb s EmptyString); reflexivity.
Qed.

Lemma lookup_path_app p q v :
  lookup_path (p ++ q) v = lookup_path q (lookup_path p v).
Proof. revert v. induction p as [|k p IH]; intros v; simpl; auto. Qed.

(** [build_ad] in closed form: it reads the clock once more when it has to
    make up an identity. *)
Lemma build_ad_eq clock x ads t :
  truthy x = true ->
  build_ad clock x ads t =
  if truthy (own_identity x)
  then (Normal (record_of x (own_identity x) (clock t)), ads, S t)
  else (Normal (record_of x (synthesized (clock t)) (clock (S t))), ads,
        S (S t)).
Proof.
  intros Hx. unfold build_ad.
  rewrite !(get_truthy x) by exact Hx.
  rewrite bind_lift_normal. cbv zeta.
  rewrite !get_truthy by apply truthy_or_obj.
  rewrite bind_identity.
  fold (own_identity x).
  destruct (truthy (own_identity x));
    rewrite bind_or_else_lift_ret, bind_lift_normal, !bind_or_else_lift,
      !bind_lift_normal, bind_now;
    unfold record_of; rewrite opt_get_lookup;
    change (lookup_path ["text"]
              (lookup_path ["body"] (or (lookup_path ["snapshot"] x) (VObj []))))
      with (lookup_path ["body"; "text"] (or (lookup_path ["snapshot"] x) (VObj [])));
    rewrite (lookup_or_obj _ ["body"; "text"]) by discriminate;
    reflexivity.
Qed.

Lemma truthy_synthesized z : truthy (synthesized z) = true.
Proof. reflexivity. Qed.

(** [process_result] in closed form: it never throws, keeps the records
    gathered so far, and adds at most one. *)
Lemma process_result_eq clock x ads t :
  process_result clock x ads t =
  if truthy x then
    if truthy (own_identity x) then
      (Normal tt,
       if negb (strict_eq (own_identity x) (synthesized (clock (S t))))
       then ads ++ [record_of x (own_identity x) (clock t)] else ads,
       S (S t))
    else
      (Normal tt,
       if negb (strict_eq (synthesized (clock t)) (synthesized (clock (S (S t)))))
       then ads ++ [record_of x (synthesized (clock t)) (clock (S t))] else ads,
       S (S (S t)))
  else (Normal tt, ads, t).
Proof.
  unfold process_result.
  destruct (truthy x) eqn:Hx; [|reflexivity]. cbn [negb].
  rewrite bind_unfold, build_ad_eq by exact Hx.
  destruct (truthy (own_identity x)) eqn:Hid.
  - cbn [id record_of]. rewrite Hid, bind_now.
    fold (synthesized (clock (S t))).
    destruct (negb (strict_eq (own_identity x) (synthesized (clock (S t)))));
      reflexivity.
  - cbn [id record_of]. rewrite truthy_synthesized, bind_now.
    fold (synthesized (clock t)) (synthesized (clock (S (S t)))).
    destruct (negb (strict_eq (synthesized (clock t))
                      (synthesized (clock (S (S t))))));
      reflexivity.
Qed.

Lemma truthy_or a b : truthy (or a b) = truthy a || truthy b.
Proof. unfold or. destruct (truthy a) eqn:Ha; [rewrite Ha|]; reflexivity. Qed.

Lemma truthy_page_id x i z : truthy (page_id (record_of x i z)) = true.
Proof. cbn [page_id record_of]. rewrite !truthy_or. cbn. now rewrite !orb_true_r. Qed.

Lemma truthy_non_empty v : truthy v = true -> non_empty v.
Proof. intros H; repeat split; intros ->; discriminate H. Qed.

Lemma process_result_identifiable clock x :
  triple (Forall identifiable) (process_result clock x)
    (fun _ => Forall identifiable) (Forall identifiable).
Proof.
  intros ads t Hads. rewrite process_result_eq.
  assert (Hadd : forall i z, truthy i = true ->
            Forall identifiable (ads ++ [record_of x i z])).
  { intros i z Hi. apply Forall_app. split; [exact Hads|].
    constructor; [|constructor].
    split; apply truthy_non_empty; [exact Hi|apply truthy_page_id]. }
  destruct (truthy x); [|exact Hads].
  destruct (truthy (own_identity x)) eqn:Hid.
  - destruct (negb _); auto.
  - destruct (negb _); auto.
Qed.

Lemma process_edge_keeps clock (I : list AdData -> Prop) edge :
  (forall x, triple I (process_result clock x) (fun _ => I) I) ->
  triple I (process_edge clock edge) (fun _ => I) I.
Proof.
  intros Hbody. unfold process_edge.
  destruct (negb (truthy (opt_get edge "node"))).
  - apply triple_ret; auto.
  - eapply triple_bind with (R := fun _ => I).
    + apply triple_lift. intros s Hs. destruct (get _ _); exact Hs.
    + intros c. eapply triple_bind with (R := fun _ => I).
      * apply triple_lift. intros s Hs. destruct (iterate _); exact Hs.
      * intros results. apply triple_for_each. intros; apply Hbody.
Qed.

Lemma extract_block_keeps clock (I : list AdData -> Prop) response :
  (forall x, triple I (process_result clock x) (fun _ => I) I) ->
  triple I (extract_block clock response) (fun _ => I) I.
Proof.
  intros Hbody. unfold extract_block.
  destruct (negb (truthy (opt_get response "data"))).
  - apply triple_ret; auto.
  - cbv zeta. destruct (_ || _).
    + apply triple_ret; auto.
    + eapply triple_bind with (R := fun _ => I).
      * apply triple_lift. intros s Hs. destruct (iterate _); exact Hs.
      * intros es. apply triple_for_each. intros.
        apply process_edge_keeps, Hbody.
Qed.

(** What every turn of the inner loop keeps, [extractAdData] establishes
    for its result. *)
Lemma extractAdData_all clock (I : list AdData -> Prop) response reads :
  I [] ->
  (forall x, triple I (process_result clock x) (fun _ => I) I) ->
  I (extractAdData clock response reads).1.
Proof.
  intros Hnil Hbody. unfold extractAdData, try_catch.
  pose proof (extract_block_keeps clock I response Hbody [] reads Hnil) as H.
  destruct (extract_block clock response [] reads) as [[[u|e] ads] reads'];
    exact H.
Qed.


(** ** [JSON.stringify] tells arrays of strings apart *)

Lemma unescape_escape c x :
  unescape_char (escape_char c ++ x) = Some (c, x).
Proof.
  destruct c as [[] [] [] [] [] [] [] []]; reflexivity.
Qed.

Lemma append_nil (b : string) : (EmptyString ++ b = b)%string.
Proof. reflexivity. Qed.

Lemma append_cons c (a b : string) :
  (String c a ++ b = String c (a ++ b))%string.
Proof. reflexivity. Qed.

Lemma append_assoc (a b c : string) :
  ((a ++ b) ++ c = a ++ (b ++ c))%string.
Proof.
  induction a as [|x a IH]; [reflexivity|].
  rewrite !append_cons. now f_equal.
Qed.

Lemma unescape_dquote x : unescape_char (String dquote x) = None.
Proof. reflexivity. Qed.

Lemma escape_terminated s s' r r' :
  (escape s ++ String dquote r = escape s' ++ String dquote r')%string ->
  s = s' /\ r = r'.
Proof.
  revert s'. induction s as [|c s IH]; intros [|c' s'] H; cbn [escape] in H.
  - rewrite !append_nil in H. now inversion H.
  - apply (f_equal unescape_char) in H.
    rewrite append_nil, append_assoc, unescape_escape in H. discriminate H.
  - apply (f_equal unescape_char) in H.
    rewrite append_nil, append_assoc, unescape_escape in H. discriminate H.
  - apply (f_equal unescape_char) in H.
    rewrite !append_assoc, !unescape_escape in H.
    inversion H as [[Hc Hrest]]. destruct (IH _ Hrest) as [-> ->]. auto.
Qed.

Lemma quote_terminated s s' r r' :
  (quote s ++ r = quote s' ++ r')%string -> s = s' /\ r = r'.
Proof.
  unfold quote. rewrite !append_cons, !append_assoc, !append_cons, !append_nil.
  intros H. inversion H as [H'].
  now apply escape_terminated in H'.
Qed.

Lemma quote_head s r : exists r', (quote s ++ r)%string = String dquote r'.
Proof. unfold quote. rewrite append_cons. eauto. Qed.

Lemma concat_quote_inj l l' :
  (String.concat "," (List.map quote l) ++ "]"
   = String.concat "," (List.map quote l') ++ "]")%string ->
  l = l'.
Proof.
  revert l'. induction l as [|s l IH]; intros [|s' l'] H.
  - reflexivity.
  - exfalso. cbn [List.map String.concat] in H. rewrite append_nil in H.
    destruct l'; cbn [List.map] in H; rewrite ?append_assoc in H;
      match type of H with
      | _ = (quote ?a ++ ?b)%string =>
          destruct (quote_head a b) as [r' Hr]; rewrite Hr in H; discriminate H
      end.
  - exfalso. cbn [List.map String.concat] in H. rewrite append_nil in H.
    destruct l; cbn [List.map] in H; rewrite ?append_assoc in H;
      match type of H with
      | (quote ?a ++ ?b)%string = _ =>
          destruct (quote_head a b) as [r' Hr]; rewrite Hr in H; discriminate H
      end.
  - cbn [List.map String.concat] in H.
    destruct l as [|x l], l' as [|x' l']; cbn [List.map] in H.
    + apply quote_terminated in H as [-> _]. reflexivity.
    + rewrite append_assoc in H.
      apply quote_terminated in H as [_ H]. discriminate H.
    + rewrite append_assoc in H.
      apply quote_terminated in H as [_ H]. discriminate H.
    + rewrite !append_assoc in H.
      apply quote_terminated in H as [-> H].
      rewrite !append_cons, !append_nil in H. inversion H as [H'].
      rewrite (IH (x' :: l')); [reflexivity|]. exact H'.
Qed.

Lemma stringify_strings l :
  stringify (VArr (List.map VStr l))
  = Some ("[" ++ String.concat "," (List.map quote l) ++ "]")%string.
Proof.
  cbn [stringify]. do 3 f_equal. rewrite List.map_map. reflexivity.
Qed.

Lemma stringify_strings_inj l l' :
  stringify (VArr (List.map VStr l)) = stringify (VArr (List.map VStr l')) ->
  l = l'.
Proof.
  rewrite !stringify_strings. intros H. inversion H as [H'].
  now apply concat_quote_inj.
Qed.

(** ** The handlers, step by step *)

Lemma saveAd_eq ad r t :
  saveAd ad r t =
  match page_id ad with
  | VStr dir => (Normal tt, filed dir ad r, t)
  | _ => (Throw TypeError, r, t)
  end.
Proof. unfold saveAd. destruct (page_id ad); reflexivity. Qed.

Lemma capture_eq max ad r t :
  capture max ad r t =
  if below_cap max (map_size (ads_map r)) then
    match page_id ad with
    | VStr dir =>
        (Normal (cap_reached max (map_size (ads_map (kept ad r)))),
         filed dir ad (kept ad r), t)
    | _ => (Throw TypeError, kept ad r, t)
    end
  else (Normal false, r, t).
Proof.
  unfold capture. rewrite bind_unfold. cbn [get_state].
  destruct (below_cap max (map_size (ads_map r))); [|reflexivity].
  rewrite bind_unfold. cbn [modify]. fold (kept ad r).
  rewrite bind_unfold, saveAd_eq.
  destruct (page_id ad); reflexivity.
Qed.

Lemma refresh_eq pageId ad r t :
  refresh pageId ad r t =
  if strict_eq (page_id ad) (VStr pageId)
     && needs_update (ad_files (db r) !! (pageId, to_string (id ad))) ad
  then (Normal tt, filed pageId ad (kept ad r), t)
  else (Normal tt, r, t).
Proof.
  unfold refresh.
  destruct (strict_eq (page_id ad) (VStr pageId)) eqn:Hp; [|reflexivity].
  cbn [andb]. unfold loadAd. rewrite !bind_unfold. cbn [get_state].
  change (mret (M := Eff Run) ?x r t) with (Normal x, r, t). cbn iota.
  destruct (needs_update _ ad); [|reflexivity].
  rewrite bind_unfold. cbn [modify]. fold (kept ad r).
  rewrite saveAd_eq.
  destruct (page_id ad) as [| | | |dir| |]; try discriminate Hp.
  cbn [strict_eq] in Hp. apply String.eqb_eq in Hp as ->. reflexivity.
Qed.

Lemma extracted_triple clock (I : Run -> Prop) (P : list AdData -> Prop) json :
  (forall reads, P (extractAdData clock json reads).1) ->
  triple I (extracted clock json) (fun ads s => I s /\ P ads) (fun _ => False).
Proof.
  intros HP r t Hr. unfold extracted. specialize (HP t).
  destruct (extractAdData clock json t) as [ads reads']. auto.
Qed.

(** What each capture keeps, a whole run of [initialSync] keeps. *)
Section InitialKeeps.

Variable clock : nat -> Z.
Variable max : cap.
Variable I : Run -> Prop.
Variable P : AdData -> Prop.

Hypothesis extraction_P :
  forall json reads, Forall P (extractAdData clock json reads).1.
Hypothesis capture_keeps :
  forall ad, P ad -> triple I (capture max ad) (fun _ => I) I.
Hypothesis metadata_keeps :
  forall m, triple I (savePageMetadata m) (fun _ => I) I.
Hypothesis renewed_keeps : forall r, I r -> I (renewed r).

Lemma capture_all_keeps json ads :
  Forall P ads -> triple I (capture_all max json ads) (fun _ => I) I.
Proof.
  intros Hads. unfold capture_all.
  destruct (0 <? length ads)%nat.
  - apply triple_for_break. intros ad Hin. apply capture_keeps.
    rewrite Forall_forall in Hads. now apply Hads, list_elem_of_In.
  - eapply triple_bind with (R := fun _ => I).
    + apply triple_lift. intros s Hs. destruct (keys json); exact Hs.
    + intros ?. apply triple_ret. auto.
Qed.

Lemma on_response_initial_keeps body :
  triple I (on_response_initial clock max body) (fun _ => I) (fun _ => False).
Proof.
  unfold on_response_initial.
  apply triple_try_catch with (E' := I).
  - destruct body as [json|]; [|apply triple_ret; auto].
    eapply triple_bind.
    + eapply triple_weaken.
      * apply (extracted_triple clock I (Forall P)). intros. apply extraction_P.
      * auto.
      * intros a s H. exact H.
      * intros s [].
    + intros ads. cbv beta. intros s t [Hs Hads].
      now apply capture_all_keeps.
  - intros e. apply triple_ret. auto.
Qed.

Lemma responses_initial_keeps bodies :
  triple I (for_each bodies (on_response_initial clock max)) (fun _ => I) I.
Proof.
  apply triple_for_each. intros body _.
  eapply triple_weaken; [apply on_response_initial_keeps|auto..].
  intros s [].
Qed.

Lemma scroll_keeps left turns previousCount noChangeCount :
  triple I (scroll clock max left turns previousCount noChangeCount)
    (fun _ => I) I.
Proof.
  revert turns previousCount noChangeCount.
  induction left as [|left IH]; intros turns previousCount noChangeCount.
  - apply triple_ret. auto.
  - cbn [scroll].
    eapply triple_bind with (R := fun _ => I); [apply triple_get_state; auto|].
    intros r. cbv beta.
    destruct (below_cap max (map_size (ads_map r))); [|apply triple_ret; auto].
    cbv zeta.
    eapply triple_bind with (R := fun _ => I); [apply responses_initial_keeps|]. intros _.
    eapply triple_bind with (R := fun _ => I); [apply triple_get_state; auto|].
    intros r'. cbv beta.
    destruct (_ && _); [apply triple_ret; auto|].
    eapply triple_bind with (R := fun _ => I); [apply responses_initial_keeps|]. intros _.
    destruct (_ && _); [apply triple_ret; auto|].
    apply IH.
Qed.

Lemma save_all_metadata_keeps :
  triple I (save_all_metadata clock) (fun _ => I) I.
Proof.
  unfold save_all_metadata.
  eapply triple_bind with (R := fun _ => I); [apply triple_get_state; auto|].
  intros r. cbv beta. apply triple_for_each. intros pageId _.
  eapply triple_bind with (R := fun _ => I); [apply triple_get_state; auto|].
  intros r'. cbv beta.
  eapply triple_bind with (R := fun _ => I); [apply triple_now; auto|].
  intros stamp. apply metadata_keeps.
Qed.

Lemma initialSync_keeps on_load turns :
  triple I (initialSync clock max on_load turns) (fun _ => I) I.
Proof.
  unfold initialSync.
  eapply triple_bind with (R := fun _ => I);
    [apply triple_modify, renewed_keeps|]. intros _.
  eapply triple_bind with (R := fun _ => I); [apply responses_initial_keeps|]. intros _.
  eapply triple_bind with (R := fun _ => I); [apply scroll_keeps|]. intros _.
  apply save_all_metadata_keeps.
Qed.

End InitialKeeps.

(** What each refresh keeps, a whole run of [incrementalSync] keeps. *)
Section IncrementalKeeps.

Variable clock : nat -> Z.
Variable pageId : string.
Variable I : Run -> Prop.
Variable P : AdData -> Prop.

Hypothesis extraction_P :
  forall json reads, Forall P (extractAdData clock json reads).1.
Hypothesis refresh_keeps :
  forall ad, P ad -> triple I (refresh pageId ad) (fun _ => I) I.
Hypothesis metadata_keeps :
  forall m, triple I (savePageMetadata m) (fun _ => I) I.
Hypothesis renewed_keeps : forall r, I r -> I (renewed r).

Lemma on_response_incremental_keeps body :
  triple I (on_response_incremental clock pageId body)
    (fun _ => I) (fun _ => False).
Proof.
  unfold on_response_incremental.
  apply triple_try_catch with (E' := I).
  - destruct body as [json|]; [|apply triple_ret; auto].
    eapply triple_bind.
    + eapply triple_weaken.
      * apply (extracted_triple clock I (Forall P)). intros. apply extraction_P.
      * auto.
      * intros a s H. exact H.
      * intros s [].
    + intros ads. cbv beta. intros s t [Hs Hads]. revert s t Hs.
      apply triple_for_each. intros ad Hin. apply refresh_keeps.
      rewrite Forall_forall in Hads. now apply Hads, list_elem_of_In.
  - intros e. apply triple_ret. auto.
Qed.

Lemma incrementalSync_keeps responses :
  triple I (incrementalSync clock pageId responses) (fun _ => I) I.
Proof.
  unfold incrementalSync, loadPageMetadata.
  eapply triple_bind with (R := fun _ => I);
    [apply triple_modify, renewed_keeps|]. intros _.
  eapply triple_bind with (R := fun _ => I).
  { eapply triple_bind with (R := fun _ => I); [apply triple_get_state; auto|].
    intros r. apply triple_ret. auto. }
  intros metadata.
  eapply triple_bind with (R := fun _ => I).
  { apply triple_for_each. intros body _.
    eapply triple_weaken; [apply on_response_incremental_keeps|auto..].
    intros s []. }
  intros _.
  eapply triple_bind with (R := fun _ => I); [apply triple_now; auto|].
  intros stamp.
  eapply triple_bind with (R := fun _ => I); [apply triple_get_state; auto|].
  intros r. apply metadata_keeps.
Qed.

End IncrementalKeeps.

(** ** Extraction: claims C1 to C4 and C10 *)

(** C1. [extractAdData] never raises: on every response the guarded block,
    under its [catch], completes normally; and on every response whose
    anchor path does not lead to an array (such as [null], [{}],
    [{data: null}], or a payload that lacks a step of the path at any
    depth) it returns the empty array, without even reading the clock. *)
Theorem extractAdData_total_and_empty_without_anchor :
  forall (clock : nat -> Z) (response : value) (reads : nat),
    (exists ads reads',
        try_catch (extract_block clock response) (fun _ => mret tt) [] reads
        = (Normal tt, ads, reads')
        /\ extractAdData clock response reads = (ads, reads'))
    /\ ((forall es, lookup_path anchor response <> VArr es) ->
        extractAdData clock response reads = ([], reads)).
Proof.
  intros clock response reads. split.
  - unfold extractAdData, try_catch.
    destruct (extract_block clock response [] reads) as [[[u|e] ads] reads'];
      [destruct u|]; eauto.
  - intros Hno. unfold extractAdData, try_catch.
    now rewrite extract_block_without_anchor.
Qed.

Lemma extraction_of_malformed_payloads :
  extractAdData (ticking 0) VNull 0 = ([], 0%nat)
  /\ extractAdData (ticking 0) (VObj []) 0 = ([], 0%nat)
  /\ extractAdData (ticking 0) (VObj [("data", VNull)]) 0 = ([], 0%nat)
  /\ extractAdData (ticking 0)
       (VObj [("data", VObj [("ad_library_main", VNull)])]) 0 = ([], 0%nat).
Proof.
  pose proof (fun response =>
                proj2 (extractAdData_total_and_empty_without_anchor
                         (ticking 0) response 0%nat)) as Hempty.
  split; [|split; [|split]]; apply Hempty; intros es H; discriminate H.
Defined.

(** C2. A [collated_results] that is neither absent, falsy nor iterable
    (here the number 5) makes the loop over it throw; the [catch] around
    the whole traversal ends the extraction there, so the ad of the edge
    that follows is lost, although that same edge alone, or placed first,
    yields its record. *)
Theorem uniterable_collated_results_end_the_extraction :
  forall (clock : nat -> Z) (reads : nat),
    let good := edge_of (VArr [raw_ad "A" "P" true]) in
    let bad := edge_of (VNum 5) in
    let record :=
      {| id := VStr "A";
         page_id := VStr "P";
         is_active := VBool true;
         start_date := VUndef;
         end_date := VUndef;
         snapshot_url := VUndef;
         creative_bodies := [];
         fetched_at := clock reads;
         raw_data := VObj [("ad_archive_id", VStr "A"); ("page_id", VStr "P");
                           ("is_active", VBool true); ("snapshot", VObj [])] |}
    in
    extractAdData clock (response_of [bad; good]) reads = ([], reads)
    /\ extractAdData clock (response_of [good]) reads
       = ([record], S (S reads))
    /\ extractAdData clock (response_of [good; bad]) reads
       = ([record], S (S reads)).
Proof.
  intros clock reads. repeat split; reflexivity.
Qed.

(** What does hold of the segments of a branch: an edge whose [node] or
    whose [collated_results] is absent, [null] or otherwise falsy is
    passed over, nothing thrown and the records gathered so far kept. *)
Lemma falsy_segment_skips_the_edge clock edge ads reads :
  truthy (lookup_path ["node"] edge) = false
  \/ truthy (lookup_path ["node"; "collated_results"] edge) = false ->
  process_edge clock edge ads reads = (Normal tt, ads, reads).
Proof.
  intros H. unfold process_edge. rewrite opt_get_lookup.
  destruct (truthy (lookup_path ["node"] edge)) eqn:Hnode; [|reflexivity].
  destruct H as [H|H]; [discriminate H|].
  cbn [negb]. rewrite (get_truthy _ _ Hnode), bind_lift_normal.
  cbn [lookup_path] in H |- *. unfold or. rewrite H. reflexivity.
Qed.

(** C3. An ad-like object without [ad_archive_id] and [id] gets the
    identity [unknown_<instant>], and is dropped only if the clock still
    shows the same instant when the record is checked.  With a clock that
    has advanced by then, the record is returned under its made-up
    identity, and [initialSync] puts it in the map and on disk. *)
Theorem made_up_identity_accepted_when_the_clock_advances :
  let response := response_of [edge_of (VArr [nameless_ad "P"])] in
  let record :=
    {| id := VStr "unknown_1700000000000";
       page_id := VStr "P";
       is_active := VBool true;
       start_date := VUndef;
       end_date := VUndef;
       snapshot_url := VUndef;
       creative_bodies := [];
       fetched_at := 1700000000001;
       raw_data := VObj [("page_id", VStr "P"); ("snapshot", VObj [])] |} in
  let run :=
    (initialSync (ticking 1700000000000) None [Some response] []
       (fresh {| ad_files := ∅; metadata_files := ∅ |}) 0%nat).1.2 in
  extractAdData (ticking 1700000000000) response 0 = ([record], 3%nat)
  /\ extractAdData (frozen 1700000000000) response 0 = ([], 3%nat)
  /\ ads_map run = [(VStr "unknown_1700000000000", record)]
  /\ ad_files (db run) !! ("P", "unknown_1700000000000") = Some record.
Proof.
  vm_compute. repeat split; reflexivity.
Qed.

(** The general shape of the slip behind C3. *)
Lemma made_up_identity_accepted_iff_clock_moved clock x ads reads :
  truthy x = true ->
  truthy (own_identity x) = false ->
  process_result clock x ads reads =
  (Normal tt,
   if bool_decide (clock reads = clock (S (S reads))) then ads
   else ads ++ [record_of x (synthesized (clock reads)) (clock (S reads))],
   S (S (S reads))).
Proof.
  intros Hx Hid. rewrite process_result_eq, Hx, Hid.
  do 2 f_equal. unfold synthesized. cbn [strict_eq].
  case_bool_decide as Heq.
  - rewrite Heq, String.eqb_refl. reflexivity.
  - destruct (String.eqb _ _) eqn:E; [|reflexivity].
    apply String.eqb_eq in E. exfalso. apply Heq.
    apply (inj pretty). now apply (inj (append "unknown_")) in E.
Qed.

Lemma sound_kept found ad r :
  identifiable ad -> sound found r -> sound found (kept ad r).
Proof.
  intros Had [Hdb Hmap]. split; [exact Hdb|].
  cbn [kept with_map ads_map]. induction Hmap as [|[k a] m Ha Hm IH].
  - constructor; [exact Had|constructor].
  - cbn [map_set]. destruct (same_value_zero k (id ad)); constructor; auto.
Qed.

Lemma sound_filed found dir ad r :
  identifiable ad -> sound found r -> sound found (filed dir ad r).
Proof.
  intros Had [Hdb Hmap]. split; [|exact Hmap].
  intros key ad'. cbn [filed with_db db ad_files].
  destruct (decide ((dir, to_string (id ad)) = key)) as [<-|Hne].
  - rewrite lookup_insert_eq. intros [= <-]. now right.
  - rewrite lookup_insert_ne by exact Hne. apply Hdb.
Qed.

Lemma capture_sound found max ad :
  identifiable ad ->
  triple (sound found) (capture max ad) (fun _ => sound found) (sound found).
Proof.
  intros Had r t Hr. rewrite capture_eq.
  destruct (below_cap max (map_size (ads_map r))); [|exact Hr].
  destruct (page_id ad); auto using sound_kept, sound_filed.
Qed.

Lemma refresh_sound found pageId ad :
  identifiable ad ->
  triple (sound found) (refresh pageId ad) (fun _ => sound found) (sound found).
Proof.
  intros Had r t Hr. rewrite refresh_eq.
  destruct (_ && _); auto using sound_kept, sound_filed.
Qed.

Lemma savePageMetadata_sound found m :
  triple (sound found) (savePageMetadata m) (fun _ => sound found) (sound found).
Proof.
  intros r t Hr. unfold savePageMetadata.
  destruct (meta_page_id m); exact Hr.
Qed.

Lemma sound_renewed r : sound (db r) (renewed r).
Proof. split; [intros key ad H; now left|constructor]. Qed.

Lemma sound_renewed_again found r : sound found r -> sound found (renewed r).
Proof. intros [Hdb _]. split; [exact Hdb|constructor]. Qed.

(** C4. Every record [extractAdData] returns has an [id] and a [page_id]
    that are neither [undefined], nor [null], nor the empty string.  Hence
    every record a run of [initialSync] or of [incrementalSync] puts in
    its map or writes to disk is identifiable: what the disk holds after
    the run is either a file found there before or such a record. *)
Theorem accepted_records_identifiable :
  forall (clock : nat -> Z),
    (forall response reads,
        Forall identifiable (extractAdData clock response reads).1)
    /\ (forall max on_load turns r reads,
           sound (db r) (initialSync clock max on_load turns r reads).1.2)
    /\ (forall pageId responses r reads,
           sound (db r) (incrementalSync clock pageId responses r reads).1.2).
Proof.
  intros clock.
  assert (Hext : forall response reads,
             Forall identifiable (extractAdData clock response reads).1).
  { intros. apply extractAdData_all; [constructor|].
    apply process_result_identifiable. }
  split; [exact Hext|]. split.
  - intros max on_load turns r reads.
    pose proof (initialSync_keeps clock max (sound (db r)) identifiable Hext
                  (capture_sound (db r) max) (savePageMetadata_sound (db r))
                  (sound_renewed_again (db r)) on_load turns) as H.
    unfold initialSync in *.
    specialize (H (renewed r) reads (sound_renewed r)).
    rewrite bind_unfold in H |- *. cbn [modify] in H |- *.
    change (with_map (fun _ => []) (renewed r)) with (renewed r) in H.
    change (with_map (fun _ => []) r) with (renewed r).
    destruct (_ ≫= _) as [[[u|e] r'] t]; exact H.
  - intros pageId responses r reads.
    pose proof (incrementalSync_keeps clock pageId (sound (db r)) identifiable
                  Hext (refresh_sound (db r) pageId)
                  (savePageMetadata_sound (db r))
                  (sound_renewed_again (db r)) responses) as H.
    unfold incrementalSync in *.
    specialize (H (renewed r) reads (sound_renewed r)).
    rewrite bind_unfold in H |- *. cbn [modify] in H |- *.
    change (with_map (fun _ => []) (renewed r)) with (renewed r) in H.
    change (with_map (fun _ => []) r) with (renewed r).
    destruct (_ ≫= _) as [[[u|e] r'] t]; exact H.
Qed.

Lemma own_define_other props k v k' :
  k <> k' -> own (define props k v) k' = own props k'.
Proof.
  intros Hne. induction props as [|[k0 v0] props IH]; cbn [define own].
  - destruct (String.eqb_spec k k'); [contradiction|reflexivity].
  - destruct (String.eqb_spec k0 k) as [->|Hk].
    + cbn [own]. destruct (String.eqb_spec k k'); [contradiction|reflexivity].
    + cbn [own]. now rewrite IH.
Qed.

Lemma record_of_bodies_short x i z :
  (length (creative_bodies (record_of x i z)) <= 1)%nat.
Proof.
  cbn [creative_bodies record_of List.filter].
  destruct (truthy _); cbn; lia.
Qed.

Lemma process_result_bodies_short clock x :
  triple (Forall (fun ad => (length (creative_bodies ad) <= 1)%nat))
    (process_result clock x)
    (fun _ => Forall (fun ad => (length (creative_bodies ad) <= 1)%nat))
    (Forall (fun ad => (length (creative_bodies ad) <= 1)%nat)).
Proof.
  intros ads t Hads. rewrite process_result_eq.
  assert (Hadd : forall i z,
            Forall (fun ad => (length (creative_bodies ad) <= 1)%nat)
              (ads ++ [record_of x i z])).
  { intros i z. apply Forall_app. split; [exact Hads|].
    constructor; [apply record_of_bodies_short|constructor]. }
  destruct (truthy x); [|exact Hads].
  destruct (truthy (own_identity x)); destruct (negb _); auto.
Qed.

(** C10. The record built from a raw ad-like object takes its
    [creative_bodies] from [snapshot.body.text] alone: the array holds
    that text when it is truthy and is empty otherwise, so it never has
    more than one element; whatever the raw object holds under its own
    [creative_bodies] leaves the field as it is.  The same bound holds for
    every record [extractAdData] returns. *)
Theorem creative_bodies_from_snapshot_text_alone :
  forall (clock : nat -> Z) (adResult : value) (ads : list AdData)
         (reads : nat),
    truthy adResult = true ->
    (exists ad reads',
        build_ad clock adResult ads reads = (Normal ad, ads, reads')
        /\ creative_bodies ad
           = List.filter truthy
               [lookup_path ["snapshot"; "body"; "text"] adResult]
        /\ (length (creative_bodies ad) <= 1)%nat
        /\ forall props other,
             adResult = VObj props ->
             exists ad' reads'',
               build_ad clock (VObj (define props "creative_bodies" other))
                 ads reads = (Normal ad', ads, reads'')
               /\ creative_bodies ad' = creative_bodies ad)
    /\ forall response,
         Forall (fun ad => (length (creative_bodies ad) <= 1)%nat)
           (extractAdData clock response reads).1.
Proof.
  intros clock x ads reads Hx. split.
  - assert (Hbuild : forall y, truthy y = true ->
              exists ad reads',
                build_ad clock y ads reads = (Normal ad, ads, reads')
                /\ creative_bodies ad
                   = List.filter truthy
                       [lookup_path ["snapshot"; "body"; "text"] y]).
    { intros y Hy. rewrite build_ad_eq by exact Hy.
      destruct (truthy (own_identity y)); eauto. }
    destruct (Hbuild x Hx) as (ad & reads' & Hrun & Hbodies).
    exists ad, reads'. repeat split; [exact Hrun|exact Hbodies| |].
    + rewrite Hbodies. exact (record_of_bodies_short x VUndef 0).
    + intros props other ->.
      destruct (Hbuild (VObj (define props "creative_bodies" other)) eq_refl)
        as (ad' & reads'' & Hrun' & Hbodies').
      exists ad', reads''. split; [exact Hrun'|].
      rewrite Hbodies, Hbodies'. cbn [lookup_path].
      now rewrite own_define_other by discriminate.
  - intros response. apply extractAdData_all; [constructor|].
    apply process_result_bodies_short.
Qed.

Lemma creative_bodies_of_the_raw_object_ignored :
  let raw := VObj [("ad_archive_id", VStr "A");
                   ("creative_bodies", VArr [VStr "one"; VStr "two"])] in
  truthy raw = true
  /\ exists ad reads',
       build_ad (ticking 0) raw [] 0%nat = (Normal ad, [], reads')
       /\ creative_bodies ad = [].
Proof.
  split; [reflexivity|].
  destruct (creative_bodies_from_snapshot_text_alone (ticking 0)
              (VObj [("ad_archive_id", VStr "A");
                     ("creative_bodies", VArr [VStr "one"; VStr "two"])])
              [] 0%nat eq_refl) as [(ad & reads' & Hrun & Hbodies & _) _].
  exists ad, reads'. split; [exact Hrun|exact Hbodies].
Defined.

(** ** Incremental refresh: claims C5 and C6 *)

Lemma strict_eq_primitive a b :
  primitive a -> strict_eq a b = true <-> a = b.
Proof.
  intros Ha. split.
  - destruct a, b; cbn [strict_eq]; try discriminate; try contradiction;
      intros H; try reflexivity.
    + apply Bool.eqb_prop in H. now subst.
    + apply Z.eqb_eq in H. now subst.
    + apply String.eqb_eq in H. now subst.
  - intros <-. destruct a; cbn [strict_eq]; try contradiction;
      auto using Bool.eqb_reflx, Z.eqb_refl, String.eqb_refl.
Qed.

Lemma strict_eq_false_primitive a b :
  primitive a -> strict_eq a b = false <-> a <> b.
Proof.
  intros Ha. rewrite <- (strict_eq_primitive a b Ha).
  destruct (strict_eq a b); split; congruence.
Qed.

Lemma all_strings bodies :
  Forall is_string bodies -> exists l, bodies = List.map VStr l.
Proof.
  induction 1 as [|v bodies [s ->] _ [l ->]].
  - now exists [].
  - now exists (s :: l).
Qed.

Lemma stringify_bodies_inj a b :
  Forall is_string a -> Forall is_string b ->
  stringify (VArr a) = stringify (VArr b) <-> a = b.
Proof.
  intros Ha Hb. split; [|now intros ->].
  destruct (all_strings a Ha) as [la ->], (all_strings b Hb) as [lb ->].
  intros H. now rewrite (stringify_strings_inj la lb H).
Qed.

Lemma needs_update_false previous candidate :
  tracked_as_declared previous -> tracked_as_declared candidate ->
  needs_update (Some previous) candidate = false
  <-> same_tracked previous candidate.
Proof.
  intros (Pa & Ps & Pe & Pb) (Ca & Cs & Ce & Cb).
  unfold needs_update, same_tracked.
  rewrite !orb_false_iff, !negb_false_iff, bool_decide_eq_true.
  rewrite !strict_eq_primitive by assumption.
  rewrite stringify_bodies_inj by assumption.
  tauto.
Qed.

(** C5. For a stored record and a candidate whose tracked fields hold what
    [AdData] declares, the candidate counts as modified exactly when
    [is_active], [start_date], [end_date] or [creative_bodies] (compared
    element by element, in order) differs; records that agree on these
    four fields count as unchanged whatever [raw_data], [fetched_at],
    [snapshot_url] and the other fields hold, and the handler then leaves
    the map and the disk as they are, while a modified candidate is put in
    the map and written to disk. *)
Theorem change_detection_by_tracked_fields :
  forall (previous candidate : AdData),
    tracked_as_declared previous ->
    tracked_as_declared candidate ->
    (needs_update (Some previous) candidate = true
     <-> (is_active previous <> is_active candidate
          \/ start_date previous <> start_date candidate
          \/ end_date previous <> end_date candidate
          \/ creative_bodies previous <> creative_bodies candidate))
    /\ (same_tracked previous candidate ->
        needs_update (Some previous) candidate = false)
    /\ forall pageId r reads,
         page_id candidate = VStr pageId ->
         ad_files (db r) !! (pageId, to_string (id candidate)) = Some previous ->
         (same_tracked previous candidate ->
          refresh pageId candidate r reads = (Normal tt, r, reads))
         /\ (~ same_tracked previous candidate ->
             refresh pageId candidate r reads
             = (Normal tt, filed pageId candidate (kept candidate r), reads)).
Proof.
  intros previous candidate Hp Hc.
  pose proof (needs_update_false previous candidate Hp Hc) as Hiff.
  destruct Hp as (Pa & Ps & Pe & Pb), Hc as (Ca & Cs & Ce & Cb).
  split; [|split].
  - unfold needs_update.
    rewrite !orb_true_iff, !negb_true_iff, bool_decide_eq_false.
    rewrite !strict_eq_false_primitive by assumption.
    rewrite stringify_bodies_inj by assumption.
    tauto.
  - apply Hiff.
  - intros pageId r reads Hpage Hfile.
    rewrite refresh_eq, Hpage, Hfile. cbn [strict_eq].
    rewrite String.eqb_refl. cbn [andb]. split.
    + intros Hsame. apply Hiff in Hsame. now rewrite Hsame.
    + intros Hdiff.
      destruct (needs_update (Some previous) candidate); [reflexivity|].
      destruct Hdiff. now apply Hiff.
Qed.

(** The scenarios of the specification: a stored record against a
    candidate that differs in [raw_data] and [fetched_at] only, which
    leaves the run as it is, and against one whose [is_active] changed. *)
Lemma unchanged_candidate_not_persisted :
  let previous := record_of (raw_ad "A" "P" true) (VStr "A") 1000 in
  let candidate :=
    record_of (VObj [("ad_archive_id", VStr "A"); ("page_id", VStr "P");
                     ("is_active", VBool true); ("page_name", VStr "new")])
      (VStr "A") 2000 in
  let r := fresh {| ad_files := {[("P", "A") := previous]};
                    metadata_files := ∅ |} in
  raw_data previous <> raw_data candidate
  /\ fetched_at previous <> fetched_at candidate
  /\ needs_update (Some previous) candidate = false
  /\ refresh "P" candidate r 0%nat = (Normal tt, r, 0%nat).
Proof.
  set (previous := record_of (raw_ad "A" "P" true) (VStr "A") 1000).
  set (candidate :=
         record_of (VObj [("ad_archive_id", VStr "A"); ("page_id", VStr "P");
                          ("is_active", VBool true); ("page_name", VStr "new")])
           (VStr "A") 2000).
  assert (Hp : tracked_as_declared previous).
  { repeat split; constructor. }
  assert (Hc : tracked_as_declared candidate).
  { repeat split; constructor. }
  assert (Hsame : same_tracked previous candidate).
  { repeat split. }
  destruct (change_detection_by_tracked_fields previous candidate Hp Hc)
    as (_ & Hunchanged & Hrefresh).
  cbv zeta. split; [discriminate|]. split; [discriminate|].
  split; [exact (Hunchanged Hsame)|].
  refine (proj1 (Hrefresh "P" _ 0%nat eq_refl _) Hsame).
  reflexivity.
Defined.



(** C6. [incrementalSync] adds the size of [updatedAds] to the stored
    [total_ads], and [updatedAds] holds the modified records along with
    the new ones.  Here the page has one ad on disk and a stored total of
    1; the ad comes back inactive, so it is modified and no ad is new, yet
    the total written is 2. *)
Theorem total_ads_counts_modified_records :
  let previous := record_of (raw_ad "A" "P" true) (VStr "A") 1000 in
  let found :=
    {| ad_files := {[("P", "A") := previous]};
       metadata_files :=
         {["P" := {| meta_page_id := VStr "P";
                     last_synced := 1000;
                     total_ads := 1 |}]} |} in
  let response := response_of [edge_of (VArr [raw_ad "A" "P" false])] in
  let run :=
    (incrementalSync (ticking 2000) "P" [Some response] (fresh found) 0%nat).1.2
  in
  List.map fst (ads_map run) = [VStr "A"]
  /\ ad_files found !! ("P", "A") = Some previous
  /\ needs_update (Some previous)
       (record_of (raw_ad "A" "P" false) (VStr "A") 2000) = true
  /\ metadata_files (db run) !! "P"
     = Some {| meta_page_id := VStr "P";
               last_synced := 2002;
               total_ads := 2 |}.
Proof.
  vm_compute. repeat split; reflexivity.
Qed.

(** ** Full capture: claims C7 and C8 *)

Lemma same_value_zero_sym a b : same_value_zero a b = same_value_zero b a.
Proof.
  destruct a, b; cbn; try reflexivity.
  - destruct b, b0; reflexivity.
  - apply Z.eqb_sym.
  - apply String.eqb_sym.
Qed.

Lemma same_value_zero_eq a b : same_value_zero a b = true -> a = b.
Proof.
  destruct a, b; cbn; try discriminate; intros H; try reflexivity.
  - apply Bool.eqb_prop in H. now subst.
  - apply Z.eqb_eq in H. now subst.
  - apply String.eqb_eq in H. now subst.
Qed.

Lemma map_set_fresh m k ad :
  Forall (fun entry => same_value_zero entry.1 k = false) m ->
  map_set m k ad = m ++ [(k, ad)].
Proof.
  induction 1 as [|[k' ad'] m Hk _ IH]; [reflexivity|].
  cbn [map_set]. cbn in Hk. rewrite Hk, IH. reflexivity.
Qed.

Lemma map_set_size m k ad :
  (map_size m <= map_size (map_set m k ad) <= S (map_size m))%nat.
Proof.
  unfold map_size. induction m as [|[k' ad'] m IH]; cbn [map_set length].
  - lia.
  - destruct (same_value_zero k' k); cbn [length]; lia.
Qed.

Lemma map_get_set_same m k k' ad :
  same_value_zero k k' = true -> map_get (map_set m k ad) k' = Some ad.
Proof.
  intros Hk. pose proof (same_value_zero_eq _ _ Hk) as <-.
  induction m as [|[k0 ad0] m IH]; cbn [map_set map_get].
  - now rewrite Hk.
  - destruct (same_value_zero k0 k) eqn:E; cbn [map_get]; rewrite E; auto.
Qed.

Lemma map_get_set_other m k k' ad :
  same_value_zero k k' = false -> map_get (map_set m k ad) k' = map_get m k'.
Proof.
  intros Hk. induction m as [|[k0 ad0] m IH]; cbn [map_set map_get].
  - now rewrite Hk.
  - destruct (same_value_zero k0 k) eqn:E; cbn [map_get].
    + apply same_value_zero_eq in E as ->. now rewrite Hk.
    + now rewrite IH.
Qed.

Lemma map_set_size_present m k ad old :
  map_get m k = Some old -> map_size (map_set m k ad) = map_size m.
Proof.
  unfold map_size. induction m as [|[k0 ad0] m IH]; cbn [map_set map_get].
  - discriminate.
  - destruct (same_value_zero k0 k); cbn [length]; [reflexivity|].
    intros H. now rewrite IH.
Qed.

Lemma below_cap_positive (N size : nat) :
  N <> 0%nat -> below_cap (Some (Z.of_nat N)) size = (size <? N)%nat.
Proof.
  intros HN. cbn [below_cap].
  destruct (Z.eqb_spec (Z.of_nat N) 0) as [E|_]; [lia|]. cbn [orb].
  destruct (Z.ltb_spec (Z.of_nat size) (Z.of_nat N)),
           (Nat.ltb_spec size N); auto; lia.
Qed.

Lemma cap_reached_positive (N size : nat) :
  N <> 0%nat -> cap_reached (Some (Z.of_nat N)) size = (N <=? size)%nat.
Proof.
  intros HN. cbn [cap_reached].
  destruct (Z.eqb_spec (Z.of_nat N) 0) as [E|_]; [lia|]. cbn [negb andb].
  destruct (Z.leb_spec (Z.of_nat N) (Z.of_nat size)),
           (Nat.leb_spec N size); auto; lia.
Qed.

(** A response handler of [initialSync] offers to [capture], in order,
    the records [extractAdData] returns, and throws nothing. *)
Lemma on_response_initial_feeds clock max json r reads :
  on_response_initial clock max (Some json) r reads =
  try_catch (for_break (extractAdData clock json reads).1 (capture max))
    (fun _ => mret tt) r (extractAdData clock json reads).2.
Proof.
  unfold on_response_initial, try_catch. rewrite bind_unfold.
  unfold extracted. destruct (extractAdData clock json reads) as [ads reads'].
  cbn [fst snd]. unfold capture_all.
  destruct ads as [|ad ads]; [|reflexivity].
  cbn [length Nat.ltb Nat.leb for_break]. rewrite bind_unfold. unfold lift.
  destruct (keys json); reflexivity.
Qed.

(** Capturing reads no clock: its outcome is the same whenever it runs. *)
Lemma for_break_capture_timeless max ads :
  forall r reads,
    for_break ads (capture max) r reads
    = ((for_break ads (capture max) r 0%nat).1, reads).
Proof.
  induction ads as [|ad ads IH]; intros r reads; [reflexivity|].
  cbn [for_break]. rewrite !bind_unfold, !capture_eq.
  destruct (below_cap max (map_size (ads_map r))).
  - destruct (page_id ad); try reflexivity.
    destruct (cap_reached max _); [reflexivity|].
    rewrite IH. reflexivity.
  - rewrite IH. reflexivity.
Qed.

Lemma feed_timeless max batches :
  forall r reads,
    feed max batches r reads = ((feed max batches r 0%nat).1, reads).
Proof.
  unfold feed.
  induction batches as [|ads batches IH]; intros r reads; [reflexivity|].
  cbn [for_each]. rewrite !bind_unfold, !try_catch_unfold.
  rewrite (for_break_capture_timeless max ads r reads).
  destruct (for_break ads (capture max) r 0%nat) as [[[u|e] r'] t'];
    cbn [fst]; rewrite ?ret_unfold;
    rewrite (IH r' reads), (IH r' t'); reflexivity.
Qed.

(** The handlers of a run do to the map and the disk what [feed] does
    with the batches they extract. *)
Lemma responses_initial_feed clock max bodies :
  forall r reads,
    (for_each bodies (on_response_initial clock max) r reads).1
    = (feed max (extracted_batches clock bodies reads) r 0%nat).1.
Proof.
  induction bodies as [|body bodies IH]; intros r reads; [reflexivity|].
  cbn [for_each]. rewrite bind_unfold.
  destruct body as [json|].
  - rewrite on_response_initial_feeds. cbn [extracted_batches].
    unfold feed. cbn [for_each]. rewrite bind_unfold, !try_catch_unfold.
    rewrite (for_break_capture_timeless max _ r (extractAdData clock json reads).2).
    destruct (for_break _ (capture max) r 0%nat) as [[[u|e] r'] t'];
      cbn [fst]; rewrite ?ret_unfold; rewrite IH;
      match goal with
      | |- _ = (for_each ?bs ?f r' t').1 =>
          change (for_each bs f) with (feed max bs);
          now rewrite (feed_timeless max bs r' t')
      end.
  - cbn [extracted_batches]. unfold on_response_initial.
    rewrite try_catch_unfold, ret_unfold, IH.
    unfold feed at 2. cbn [for_each]. rewrite bind_unfold, try_catch_unfold.
    cbn [for_break]. rewrite ret_unfold. reflexivity.
Qed.

Lemma apart_cons m ad ads :
  apart m (ad :: ads) ->
  Forall (fun entry => same_value_zero entry.1 (id ad) = false) m
  /\ apart m ads.
Proof.
  unfold apart. intros H. split.
  - eapply Forall_impl; [exact H|]. intros entry He. cbv beta in He.
    now apply Forall_cons in He as [He _].
  - eapply Forall_impl; [exact H|]. intros entry He. cbv beta in He.
    now apply Forall_cons in He as [_ He].
Qed.

Lemma apart_later m ads later : apart m (ads ++ later) -> apart m later.
Proof.
  unfold apart. intros H. eapply Forall_impl; [exact H|].
  intros entry He. cbv beta in He. now apply Forall_app in He as [_ He].
Qed.

Lemma distinct_ids_later ads later :
  distinct_ids (ads ++ later) -> distinct_ids later.
Proof. induction ads as [|ad ads IH]; cbn; [auto|]. intros [_ H]. auto. Qed.

Lemma ads_map_filed dir ad r : ads_map (filed dir ad r) = ads_map r.
Proof. reflexivity. Qed.

(** Records with identities apart from each other and from the map fill
    the map up to the cap, one entry a record. *)
Lemma for_break_capture_fills (N : nat) ads :
  N <> 0%nat ->
  forall later r reads,
    apart (ads_map r) (ads ++ later) ->
    distinct_ids (ads ++ later) ->
    Forall page_is_string ads ->
    (map_size (ads_map r) <= N)%nat ->
    exists r',
      for_break ads (capture (Some (Z.of_nat N))) r reads = (Normal tt, r', reads)
      /\ map_size (ads_map r') = Nat.min N (map_size (ads_map r) + length ads)
      /\ apart (ads_map r') later.
Proof.
  intros HN. induction ads as [|ad ads IH];
    intros later r reads Hapart Hdistinct Hpages Hsize.
  - exists r. split; [reflexivity|]. split; [cbn [length]; lia|exact Hapart].
  - cbn [for_break]. rewrite bind_unfold, capture_eq, below_cap_positive by exact HN.
    cbn [app] in Hapart, Hdistinct.
    apply apart_cons in Hapart as [Hfresh Hapart].
    destruct Hdistinct as [Hhead Hdistinct].
    apply Forall_cons in Hpages as [[dir Hdir] Hpages].
    destruct (Nat.ltb_spec (map_size (ads_map r)) N) as [Hlt|Hge].
    + rewrite Hdir.
      assert (Hmap : ads_map (filed dir ad (kept ad r))
                     = ads_map r ++ [(id ad, ad)]).
      { cbn [filed kept with_db with_map ads_map]. now apply map_set_fresh. }
      assert (Hlen : map_size (ads_map (filed dir ad (kept ad r)))
                     = S (map_size (ads_map r))).
      { rewrite Hmap. unfold map_size. rewrite length_app. cbn [length]. lia. }
      assert (Hnext : apart (ads_map (filed dir ad (kept ad r))) (ads ++ later)).
      { rewrite Hmap. apply Forall_app. split; [exact Hapart|].
        constructor; [exact Hhead|constructor]. }
      change (ads_map (kept ad r)) with (ads_map (filed dir ad (kept ad r))).
      rewrite cap_reached_positive, Hlen by exact HN.
      destruct (Nat.leb_spec N (S (map_size (ads_map r)))) as [Hfull|Hroom].
      * exists (filed dir ad (kept ad r)). split; [reflexivity|].
        split; [rewrite Hlen; cbn [length]; lia|].
        now apply apart_later in Hnext.
      * destruct (IH later (filed dir ad (kept ad r)) reads Hnext Hdistinct
                    Hpages ltac:(lia)) as (r' & Hrun & Hfinal & Hlater).
        exists r'. split; [exact Hrun|]. split; [|exact Hlater].
        rewrite Hfinal, Hlen. cbn [length]. lia.
    + destruct (IH later r reads Hapart Hdistinct Hpages Hsize)
        as (r' & Hrun & Hfinal & Hlater).
      exists r'. split; [exact Hrun|]. split; [|exact Hlater].
      rewrite Hfinal. cbn [length]. lia.
Qed.

Lemma feed_fills (N : nat) batches :
  N <> 0%nat ->
  forall r reads,
    apart (ads_map r) (concat batches) ->
    distinct_ids (concat batches) ->
    Forall page_is_string (concat batches) ->
    (map_size (ads_map r) <= N)%nat ->
    exists r',
      feed (Some (Z.of_nat N)) batches r reads = (Normal tt, r', reads)
      /\ map_size (ads_map r')
         = Nat.min N (map_size (ads_map r) + length (concat batches)).
Proof.
  intros HN. induction batches as [|ads batches IH];
    intros r reads Hapart Hdistinct Hpages Hsize.
  - exists r. split; [reflexivity|]. cbn [concat length]. lia.
  - cbn [concat] in Hapart, Hdistinct, Hpages.
    apply Forall_app in Hpages as [Hpages Hrest].
    destruct (for_break_capture_fills N ads HN (concat batches) r reads
                Hapart Hdistinct Hpages Hsize) as (r1 & Hrun & Hlen & Hlater).
    destruct (IH r1 reads Hlater (distinct_ids_later _ _ Hdistinct) Hrest
                ltac:(lia)) as (r' & Hrun' & Hlen').
    exists r'. split.
    + unfold feed. cbn [for_each]. rewrite bind_unfold.
      rewrite try_catch_unfold, Hrun. exact Hrun'.
    + rewrite Hlen', Hlen. cbn [concat]. rewrite length_app. lia.
Qed.

Lemma capture_bounded (N : nat) ad :
  N <> 0%nat ->
  triple (fun r => (map_size (ads_map r) <= N)%nat)
    (capture (Some (Z.of_nat N)) ad)
    (fun _ r => (map_size (ads_map r) <= N)%nat)
    (fun r => (map_size (ads_map r) <= N)%nat).
Proof.
  intros HN r t Hr. rewrite capture_eq, below_cap_positive by exact HN.
  destruct (Nat.ltb_spec (map_size (ads_map r)) N) as [Hlt|Hge]; [|exact Hr].
  pose proof (map_set_size (ads_map r) (id ad) ad) as Hset.
  destruct (page_id ad); cbn [filed kept with_db with_map ads_map]; lia.
Qed.

Lemma savePageMetadata_keeps_map (Q : AdMap -> Prop) m :
  triple (fun r => Q (ads_map r)) (savePageMetadata m)
    (fun _ r => Q (ads_map r)) (fun r => Q (ads_map r)).
Proof.
  intros r t Hr. unfold savePageMetadata. destruct (meta_page_id m); exact Hr.
Qed.

Lemma capture_refused max ad r reads :
  below_cap max (map_size (ads_map r)) = false ->
  capture max ad r reads = (Normal false, r, reads).
Proof. intros H. now rewrite capture_eq, H. Qed.

Lemma scroll_stops clock max left turns previousCount noChangeCount r reads :
  below_cap max (map_size (ads_map r)) = false ->
  scroll clock max left turns previousCount noChangeCount r reads
  = (Normal tt, r, reads).
Proof.
  intros H. destruct left as [|left]; [reflexivity|].
  cbn [scroll]. rewrite bind_unfold. cbn [get_state]. now rewrite H.
Qed.

Lemma fold_capture_last k ads :
  forall m,
    map_get (fold_left (fun m ad => map_set m (id ad) ad) ads m) k
    = match last_with k ads with
      | Some ad => Some ad
      | None => map_get m k
      end.
Proof.
  unfold last_with. induction ads as [|ad ads IH] using rev_ind; intros m.
  - reflexivity.
  - rewrite fold_left_app, rev_unit. cbn [fold_left find].
    destruct (same_value_zero (id ad) k) eqn:E.
    + now apply map_get_set_same.
    + rewrite map_get_set_other by exact E. apply IH.
Qed.


(** ** The run of [initialSync], stage by stage *)

Lemma Forall_map_set (Q : AdData -> Prop) m k ad :
  Forall (fun entry => Q entry.2) m ->
  Q ad ->
  Forall (fun entry => Q entry.2) (map_set m k ad).
Proof.
  intros Hm Had. induction Hm as [|[k' ad'] m Hhead Htail IH]; cbn [map_set].
  - repeat constructor. exact Had.
  - destruct (same_value_zero k' k); constructor; assumption.
Qed.

Lemma set_of_keeps x xs : In x xs -> In x (set_of xs).
Proof.
  induction xs as [|y xs IH]; [intros []|].
  intros [->|Hin]; cbn [set_of]; [now left|].
  destruct (same_value_zero y x) eqn:Hsame.
  - left. now apply same_value_zero_eq.
  - right. apply List.filter_In. split; [now apply IH|]. now rewrite Hsame.
Qed.

Lemma set_of_among x xs : In x (set_of xs) -> In x xs.
Proof.
  induction xs as [|y xs IH]; [intros []|].
  cbn [set_of]. intros [->|Hin]; [now left|].
  right. apply IH. now apply List.filter_In in Hin.
Qed.

(** The loop of [save_all_metadata] over page ids, some of which is no
    string. *)
Lemma metadata_loop_throws clock (pageIds : list value) :
  Exists (fun pageId => ~ is_string pageId) pageIds ->
  forall r reads,
    exists r' reads',
      for_each pageIds (fun pageId =>
        r' ← get_state;
        let pageAds :=
          List.filter (fun ad => strict_eq (page_id ad) pageId)
            (map_values (ads_map r')) in
        stamp ← now clock;
        savePageMetadata {| meta_page_id := pageId;
                            last_synced := stamp;
                            total_ads := Z.of_nat (length pageAds) |})
        r reads
      = (Throw TypeError, r', reads')
      /\ ads_map r' = ads_map r
      /\ ad_files (db r') = ad_files (db r).
Proof.
  induction pageIds as [|pageId pageIds IH]; intros Hex r reads.
  - inversion Hex.
  - cbn [for_each]. rewrite !bind_unfold. cbn [get_state]. cbv zeta.
    rewrite bind_now. unfold savePageMetadata at 1. cbn [meta_page_id].
    destruct pageId as [| | | |dir| |];
      try (eexists _, _; split; [reflexivity|split; reflexivity]).
    cbn [modify].
    apply Exists_cons in Hex as [Hhere|Hlater].
    { destruct Hhere. now exists dir. }
    destruct (IH Hlater
                (with_db (fun d =>
                   {| ad_files := ad_files d;
                      metadata_files :=
                        <[dir := {| meta_page_id := VStr dir;
                                    last_synced := clock reads;
                                    total_ads :=
                                      Z.of_nat (length
                                        (List.filter
                                           (fun ad => strict_eq (page_id ad)
                                                        (VStr dir))
                                           (map_values (ads_map r)))) |}]>
                          (metadata_files d) |}) r)
                (S reads)) as (r' & reads' & Hrun & Hmap & Hfiles).
    exists r', reads'. split; [exact Hrun|]. split; assumption.
Qed.

Lemma save_all_metadata_throws clock r reads :
  Exists (fun ad => ~ is_string (page_id ad)) (map_values (ads_map r)) ->
  exists r' reads',
    save_all_metadata clock r reads = (Throw TypeError, r', reads')
    /\ ads_map r' = ads_map r
    /\ ad_files (db r') = ad_files (db r).
Proof.
  intros Hex.
  unfold save_all_metadata. rewrite bind_unfold. cbn [get_state]. cbv zeta.
  apply metadata_loop_throws.
  apply List.Exists_exists in Hex as (ad & Hin & Hpage).
  apply List.Exists_exists. exists (page_id ad). split; [|exact Hpage].
  apply set_of_keeps. now apply List.in_map.
Qed.

Lemma initialSync_phases clock max on_load turns r reads :
  initialSync clock max on_load turns r reads
  = match capture_phase clock max on_load turns (renewed r) reads with
    | (Normal _, r1, reads1) => save_all_metadata clock r1 reads1
    | (Throw e, r1, reads1) => (Throw e, r1, reads1)
    end.
Proof.
  unfold initialSync, capture_phase. rewrite bind_unfold. cbn [modify].
  change (with_map (fun _ => []) r) with (renewed r).
  rewrite !bind_unfold.
  destruct (for_each on_load (on_response_initial clock max) (renewed r) reads)
    as [[[u|e] r0] reads0]; [|reflexivity].
  rewrite bind_unfold.
  destruct (scroll clock max maxScrollAttempts turns 0 0 r0 reads0)
    as [[[u'|e] r1] reads1]; reflexivity.
Qed.

(** The loop of [save_all_metadata] over page ids that are strings. *)
Lemma metadata_loop_writes clock (pageIds : list value) :
  Forall is_string pageIds ->
  forall r reads,
    exists r',
      for_each pageIds (fun pageId =>
        r' ← get_state;
        let pageAds :=
          List.filter (fun ad => strict_eq (page_id ad) pageId)
            (map_values (ads_map r')) in
        stamp ← now clock;
        savePageMetadata {| meta_page_id := pageId;
                            last_synced := stamp;
                            total_ads := Z.of_nat (length pageAds) |})
        r reads
      = (Normal tt, r', (reads + length pageIds)%nat)
      /\ ads_map r' = ads_map r
      /\ ad_files (db r') = ad_files (db r)
      /\ forall dir,
           if existsb (fun pageId => strict_eq pageId (VStr dir)) pageIds
           then exists k,
                  (reads <= k < reads + length pageIds)%nat
                  /\ metadata_files (db r') !! dir
                     = Some {| meta_page_id := VStr dir;
                               last_synced := clock k;
                               total_ads :=
                                 Z.of_nat (count_of_page dir (ads_map r)) |}
           else metadata_files (db r') !! dir = metadata_files (db r) !! dir.
Proof.
  induction 1 as [|pageId pageIds [d ->] _ IH]; intros r reads.
  - exists r. cbn [for_each length existsb]. rewrite Nat.add_0_r.
    repeat split.
  - cbn [for_each]. rewrite !bind_unfold. cbn [get_state]. cbv zeta.
    rewrite bind_now. unfold savePageMetadata at 1. cbn [meta_page_id modify].
    fold (count_of_page d (ads_map r)).
    match goal with
    | |- context [for_each pageIds _ ?r1 (S reads)] =>
        destruct (IH r1 (S reads)) as (r' & Hrun & Hmap & Hfiles & Hmeta)
    end.
    exists r'. cbn [length].
    replace (reads + S (length pageIds))%nat
      with (S reads + length pageIds)%nat by lia.
    split; [exact Hrun|]. split; [exact Hmap|]. split; [exact Hfiles|].
    intros dir. specialize (Hmeta dir). cbn [existsb strict_eq].
    destruct (existsb _ pageIds).
    + rewrite orb_true_r. destruct Hmeta as (k & Hk & Hlook).
      exists k. split; [lia|exact Hlook].
    + rewrite orb_false_r. rewrite Hmeta.
      cbn [with_db db metadata_files].
      destruct (String.eqb_spec d dir) as [->|Hne].
      * exists reads. split; [lia|]. apply lookup_insert_eq.
      * now apply lookup_insert_ne.
Qed.

Lemma page_in_set_iff_counted dir (m : AdMap) :
  existsb (fun pageId => strict_eq pageId (VStr dir))
    (set_of (List.map page_id (map_values m)))
  = negb (count_of_page dir m =? 0)%nat.
Proof.
  unfold count_of_page.
  destruct (existsb _ _) eqn:Hex.
  - apply List.existsb_exists in Hex as (pageId & Hin & Heq).
    apply set_of_among, List.in_map_iff in Hin as (ad & <- & Hin).
    assert (In ad (List.filter (fun ad => strict_eq (page_id ad) (VStr dir))
                     (map_values m))) as Hcount
      by (apply List.filter_In; auto).
    destruct (List.filter _ _); [destruct Hcount|reflexivity].
  - destruct (List.filter _ _) as [|ad ads] eqn:Hfilter; [reflexivity|].
    assert (In ad (ad :: ads)) as Hin by now left.
    rewrite <- Hfilter in Hin. apply List.filter_In in Hin as [Hin Heq].
    assert (existsb (fun pageId => strict_eq pageId (VStr dir))
              (set_of (List.map page_id (map_values m))) = true) as Hex'.
    { apply List.existsb_exists. exists (page_id ad).
      split; [|exact Heq]. apply set_of_keeps. now apply List.in_map. }
    congruence.
Qed.

Lemma save_all_metadata_writes clock r reads :
  Forall (fun ad => is_string (page_id ad)) (map_values (ads_map r)) ->
  exists r' reads',
    save_all_metadata clock r reads = (Normal tt, r', reads')
    /\ ads_map r' = ads_map r
    /\ ad_files (db r') = ad_files (db r)
    /\ forall dir,
         if (count_of_page dir (ads_map r) =? 0)%nat
         then metadata_files (db r') !! dir = metadata_files (db r) !! dir
         else exists k,
                (reads <= k < reads')%nat
                /\ metadata_files (db r') !! dir
                   = Some {| meta_page_id := VStr dir;
                             last_synced := clock k;
                             total_ads :=
                               Z.of_nat (count_of_page dir (ads_map r)) |}.
Proof.
  intros Hpages.
  unfold save_all_metadata. rewrite bind_unfold. cbn [get_state]. cbv zeta.
  destruct (metadata_loop_writes clock
              (set_of (List.map page_id (map_values (ads_map r))))) with
    (r := r) (reads := reads) as (r' & Hrun & Hmap & Hfiles & Hmeta).
  { apply List.Forall_forall. intros pageId Hin.
    apply set_of_among, List.in_map_iff in Hin as (ad & <- & Hin).
    rewrite List.Forall_forall in Hpages. now apply Hpages. }
  eexists r', _. split; [exact Hrun|]. split; [exact Hmap|].
  split; [exact Hfiles|].
  intros dir. specialize (Hmeta dir).
  rewrite page_in_set_iff_counted in Hmeta.
  destruct (count_of_page dir (ads_map r) =? 0)%nat; exact Hmeta.
Qed.

(** ** What every schedule keeps *)

Lemma bind_on_run {A B} (m : Eff Run A) (f : A -> Eff Async.Session B) s reads :
  (Async.on_run m ≫= f) s reads
  = match m (Async.run s) reads with
    | (Normal a, r, reads') =>
        f a {| Async.run := r; Async.pool := Async.pool s |} reads'
    | (Throw e, r, reads') =>
        (Throw e, {| Async.run := r; Async.pool := Async.pool s |}, reads')
    end.
Proof.
  rewrite bind_unfold. unfold Async.on_run.
  destruct (m (Async.run s) reads) as [[[a|e] r] reads']; reflexivity.
Qed.

Lemma on_run_keeps {A} (I : Run -> Prop) (m : Eff Run A) (E : Run -> Prop) :
  triple I m (fun _ => I) E ->
  triple (fun s => I (Async.run s)) (Async.on_run m)
    (fun _ s => I (Async.run s)) (fun s => E (Async.run s)).
Proof.
  intros Hm s t Hs. unfold Async.on_run. specialize (Hm (Async.run s) t Hs).
  destruct (m (Async.run s) t) as [[[a|e] r] t']; exact Hm.
Qed.

Lemma finally_keeps {St A} (P I : St -> Prop) (m : Eff St A)
  (after : Eff St unit) :
  triple P m (fun _ => I) I ->
  triple I after (fun _ => I) I ->
  triple P (Async.finally m after) (fun _ => I) I.
Proof.
  intros Hm Hafter s t Hs. unfold Async.finally. specialize (Hm s t Hs).
  destruct (m s t) as [[c s'] t'].
  assert (I s') as Hs' by (destruct c; exact Hm).
  specialize (Hafter s' t' Hs').
  destruct (after s' t') as [[[u|e] s''] t'']; [destruct c|]; exact Hafter.
Qed.

Lemma settled_keeps {St} (I : St -> Prop) fulfilled :
  triple I (Async.settled fulfilled) (fun _ => I) I.
Proof.
  destruct fulfilled; [apply triple_ret|apply triple_lift]; auto.
Qed.

(** What each resumption of a handler keeps, a run of [initialSync]
    keeps, however its handlers are scheduled. *)
Section Schedules.

Variable clock : nat -> Z.
Variable max : cap.
Variables I P : Run -> Prop.

Hypothesis resume_keeps :
  forall h,
    triple I (Async.resume_initial clock max h) (fun _ => I) (fun _ => False).
Hypothesis metadata_keeps :
  forall m, triple I (savePageMetadata m) (fun _ => I) I.
Hypothesis renewed_keeps : forall r, P r -> I (renewed r).

Lemma handle_keeps e :
  triple (fun s => I (Async.run s))
    (Async.handle (Async.resume_initial clock max) e)
    (fun _ s => I (Async.run s)) (fun _ => False).
Proof.
  destruct e as [body|n]; cbn [Async.handle].
  - apply triple_modify. auto.
  - eapply triple_bind with (R := fun _ s => I (Async.run s));
      [apply triple_get_state; auto|].
    intros s. destruct (Async.pool s !! n) as [h|]; [|apply triple_ret; auto].
    eapply triple_bind with (R := fun _ s => I (Async.run s)).
    + apply (on_run_keeps I _ (fun _ => False)), resume_keeps.
    + intros h'. apply triple_modify. auto.
Qed.

Lemma happen_keeps events :
  triple (fun s => I (Async.run s))
    (Async.happen (Async.resume_initial clock max) events)
    (fun _ s => I (Async.run s)) (fun _ => False).
Proof. apply triple_for_each. intros e _. apply handle_keeps. Qed.

Lemma happen_keeps_or_throws events :
  triple (fun s => I (Async.run s))
    (Async.happen (Async.resume_initial clock max) events)
    (fun _ s => I (Async.run s)) (fun s => I (Async.run s)).
Proof. eapply triple_weaken; [apply happen_keeps|auto..]. intros ? []. Qed.

Lemma async_scroll_keeps left :
  forall turns previousCount noChangeCount,
    triple (fun s => I (Async.run s))
      (Async.scroll clock max left turns previousCount noChangeCount)
      (fun _ s => I (Async.run s)) (fun s => I (Async.run s)).
Proof.
  induction left as [|left IH]; intros turns previousCount noChangeCount.
  - apply triple_ret. auto.
  - cbn [Async.scroll].
    eapply triple_bind with (R := fun _ s => I (Async.run s));
      [apply triple_get_state; auto|].
    intros s. cbv beta.
    destruct (below_cap max _); [|apply triple_ret; auto]. cbv zeta.
    eapply triple_bind with (R := fun _ s => I (Async.run s));
      [apply happen_keeps_or_throws|]. intros ?.
    eapply triple_bind with (R := fun _ s => I (Async.run s));
      [apply settled_keeps|]. intros ?.
    eapply triple_bind with (R := fun _ s => I (Async.run s));
      [apply triple_get_state; auto|].
    intros s'. cbv beta.
    destruct (_ && _); [apply triple_ret; auto|].
    eapply triple_bind with (R := fun _ s => I (Async.run s));
      [apply happen_keeps_or_throws|]. intros ?.
    destruct (Async.isAtBottom _) as [bottom|]; [|apply triple_lift; auto].
    destruct (_ && _); [apply triple_ret; auto|].
    apply IH.
Qed.

Lemma metadata_loop_keeps pageIds :
  forall while_writing,
    triple (fun s => I (Async.run s))
      (Async.metadata_loop clock max pageIds while_writing)
      (fun _ s => I (Async.run s)) (fun s => I (Async.run s)).
Proof.
  induction pageIds as [|pageId pageIds IH]; intros while_writing.
  - apply triple_ret. auto.
  - cbn [Async.metadata_loop].
    eapply triple_bind with (R := fun _ s => I (Async.run s));
      [apply triple_get_state; auto|].
    intros s. cbv beta zeta.
    eapply triple_bind with (R := fun _ s => I (Async.run s));
      [apply triple_now; auto|].
    intros stamp.
    eapply triple_bind with (R := fun _ s => I (Async.run s));
      [apply (on_run_keeps I _ I), metadata_keeps|].
    intros ?.
    eapply triple_bind with (R := fun _ s => I (Async.run s)).
    + eapply triple_weaken; [apply happen_keeps|auto..]. intros ? [].
    + intros ?. apply IH.
Qed.

Lemma async_initialSync_keeps schedule :
  triple (fun s => P (Async.run s)) (Async.initialSync clock max schedule)
    (fun _ s => I (Async.run s)) (fun s => I (Async.run s)).
Proof.
  unfold Async.initialSync.
  eapply triple_bind with (R := fun _ s => I (Async.run s)).
  { apply triple_modify. intros s Hs. now apply renewed_keeps. }
  intros ?.
  eapply triple_bind with (R := fun _ s => I (Async.run s));
    [apply settled_keeps|]. intros ?.
  apply finally_keeps.
  - eapply triple_bind with (R := fun _ s => I (Async.run s));
      [apply happen_keeps_or_throws|]. intros ?.
    eapply triple_bind with (R := fun _ s => I (Async.run s));
      [apply settled_keeps|]. intros ?.
    eapply triple_bind with (R := fun _ s => I (Async.run s));
      [apply async_scroll_keeps|]. intros ?.
    unfold Async.save_all_metadata.
    eapply triple_bind with (R := fun _ s => I (Async.run s));
      [apply triple_get_state; auto|].
    intros s. apply metadata_loop_keeps.
  - eapply triple_bind with (R := fun _ s => I (Async.run s));
      [apply happen_keeps_or_throws|]. intros ?.
    apply settled_keeps.
Qed.

End Schedules.

Lemma offer_bounded (N : nat) ads :
  N <> 0%nat ->
  triple (fun r => (map_size (ads_map r) <= N)%nat)
    (Async.offer (Some (Z.of_nat N)) ads)
    (fun _ r => (map_size (ads_map r) <= N)%nat) (fun _ => False).
Proof.
  intros HN. induction ads as [|ad ads IH]; [apply triple_ret; auto|].
  cbn [Async.offer].
  eapply triple_bind
    with (R := fun r0 r => r = r0 /\ (map_size (ads_map r) <= N)%nat);
    [apply triple_get_state; auto|].
  intros r0. rewrite below_cap_positive by exact HN.
  destruct (Nat.ltb_spec (map_size (ads_map r0)) N) as [Hlt|Hge].
  - eapply triple_bind with (R := fun _ r => (map_size (ads_map r) <= N)%nat).
    + apply triple_modify. intros r [Hr _]. subst r0.
      pose proof (map_set_size (ads_map r) (id ad) ad).
      cbn [with_map ads_map]. lia.
    + intros ?. apply triple_ret. auto.
  - eapply triple_weaken; [exact IH|..]; auto. now intros r [_ Hr].
Qed.

Lemma resume_initial_bounded clock (N : nat) h :
  N <> 0%nat ->
  triple (fun r => (map_size (ads_map r) <= N)%nat)
    (Async.resume_initial clock (Some (Z.of_nat N)) h)
    (fun _ r => (map_size (ads_map r) <= N)%nat) (fun _ => False).
Proof.
  intros HN.
  destruct h as [[json|]|ad rest|existing ad rest|ad rest|rest|];
    cbn [Async.resume_initial]; try (apply triple_ret; auto).
  - eapply triple_bind with (R := fun _ r => (map_size (ads_map r) <= N)%nat).
    + intros r t Hr. unfold extracted.
      destruct (extractAdData clock json t). exact Hr.
    + intros ads. destruct (0 <? length ads)%nat; [now apply offer_bounded|].
      apply triple_try_catch
        with (E' := fun r => (map_size (ads_map r) <= N)%nat);
        [|intros e; apply triple_ret; auto].
      eapply triple_bind
        with (R := fun _ r => (map_size (ads_map r) <= N)%nat).
      * apply triple_lift. intros r Hr. destruct (keys json); exact Hr.
      * intros ?. apply triple_ret. auto.
  - apply triple_try_catch
      with (E' := fun r => (map_size (ads_map r) <= N)%nat);
      [|intros e; apply triple_ret; auto].
    eapply triple_bind with (R := fun _ r => (map_size (ads_map r) <= N)%nat).
    + intros r t Hr. rewrite saveAd_eq. destruct (page_id ad); exact Hr.
    + intros ?. apply triple_ret. auto.
  - eapply triple_bind with (R := fun _ r => (map_size (ads_map r) <= N)%nat);
      [apply triple_get_state; auto|].
    intros r. destruct (cap_reached _ _); [apply triple_ret; auto|].
    now apply offer_bounded.
Qed.

(** ** The records of an extraction *)

Lemma falsy_lookup v path :
  truthy v = false -> path <> [] -> lookup_path path v = VUndef.
Proof.
  intros Hv Hpath. destruct path as [|k rest]; [congruence|].
  destruct v; try discriminate Hv; cbn [lookup_path]; apply lookup_path_undef.
Qed.

Lemma stamped_app clock reads xs ys :
  stamped clock reads (xs ++ ys)
  = stamped clock reads xs ++ stamped clock (reads + 2 * length xs) ys.
Proof.
  revert reads. induction xs as [|x xs IH]; intros reads; cbn [app stamped length].
  - now rewrite Nat.add_0_r.
  - rewrite IH. do 3 f_equal. lia.
Qed.

Lemma results_run clock xs :
  forall ads reads,
    Forall identified xs ->
    for_each xs (process_result clock) ads reads
    = (Normal tt, ads ++ stamped clock reads (List.filter truthy xs),
       reads + 2 * length (List.filter truthy xs))%nat.
Proof.
  induction xs as [|x xs IH]; intros ads reads Hid.
  - cbn. now rewrite app_nil_r, Nat.add_0_r.
  - apply Forall_cons in Hid as [Hx Hxs].
    cbn [for_each List.filter]. rewrite bind_unfold, process_result_eq.
    destruct (truthy x) eqn:Htruthy.
    + destruct (Hx Htruthy) as [Hown Hreal]. rewrite Hown, Hreal. cbn [negb].
      rewrite IH by exact Hxs. cbn [stamped length].
      rewrite <- app_assoc. cbn [app]. f_equal; first [reflexivity | lia].
    + now rewrite IH.
Qed.

Lemma edge_run clock edge ads reads :
  iterable_edge edge ->
  Forall identified (results_of_edge edge) ->
  process_edge clock edge ads reads
  = (Normal tt,
     ads ++ stamped clock reads (List.filter truthy (results_of_edge edge)),
     reads + 2 * length (List.filter truthy (results_of_edge edge)))%nat.
Proof.
  intros [xs Hxs] Hid. unfold results_of_edge in *. rewrite Hxs in *.
  unfold process_edge. rewrite opt_get_lookup.
  change (lookup_path ["node"; "collated_results"] edge)
    with (lookup_path ["collated_results"] (lookup_path ["node"] edge)) in Hxs.
  destruct (truthy (lookup_path ["node"] edge)) eqn:Hnode; cbn [negb].
  - rewrite (get_truthy _ _ Hnode), bind_lift_normal. cbv zeta.
    rewrite Hxs, bind_lift_normal. now apply results_run.
  - rewrite (falsy_lookup _ ["collated_results"] Hnode) in Hxs by discriminate.
    cbn in Hxs. injection Hxs as <-. cbn. now rewrite app_nil_r, Nat.add_0_r.
Qed.

Lemma edges_run clock es :
  forall ads reads,
    Forall iterable_edge es ->
    Forall identified (List.flat_map results_of_edge es) ->
    for_each es (process_edge clock) ads reads
    = (Normal tt,
       ads ++ stamped clock reads
                (List.filter truthy (List.flat_map results_of_edge es)),
       reads + 2 * length (List.filter truthy
                             (List.flat_map results_of_edge es)))%nat.
Proof.
  induction es as [|edge es IH]; intros ads reads Hiter Hid.
  - cbn. now rewrite app_nil_r, Nat.add_0_r.
  - apply Forall_cons in Hiter as [Hedge Hiter].
    cbn [List.flat_map] in Hid |- *. apply Forall_app in Hid as [Hhere Hrest].
    cbn [for_each]. rewrite bind_unfold, edge_run by assumption.
    rewrite IH by assumption.
    rewrite List.filter_app, stamped_app, length_app, <- app_assoc.
    f_equal; first [reflexivity | lia].
Qed.

Lemma anchor_of_falsy_data response :
  truthy (lookup_path ["data"] response) = false ->
  lookup_path anchor response = VUndef.
Proof.
  intros H.
  change (lookup_path anchor response)
    with (lookup_path ["ad_library_main"; "search_results_connection"; "edges"]
            (lookup_path ["data"] response)).
  now apply falsy_lookup.
Qed.

(** X1. On a response whose edges all have collated results the loop can
    run over, and whose ad-like objects all carry an identity,
    [extractAdData] returns one record for every truthy ad-like object, in
    the order of the payload, stamped with the clock as it is read twice
    an object. *)
Theorem extraction_yields_one_record_per_object :
  forall (clock : nat -> Z) (response : value) (reads : nat),
    Forall iterable_edge (edges_of response) ->
    Forall identified (ad_like_objects response) ->
    extractAdData clock response reads
    = (stamped clock reads (List.filter truthy (ad_like_objects response)),
       reads + 2 * length (List.filter truthy (ad_like_objects response)))%nat.
Proof.
  intros clock response reads Hiter Hid.
  unfold extractAdData. rewrite try_catch_unfold, extract_block_edges.
  unfold edges_of, ad_like_objects in *.
  destruct (truthy (lookup_path ["data"] response)) eqn:Hdata; cbn [negb].
  - cbv zeta.
    destruct (lookup_path anchor response) as [| | | | |es|] eqn:Hedges;
      cbn [truthy isArray negb]; rewrite ?orb_true_r;
      try (cbn; now rewrite Nat.add_0_r).
    cbn [orb iterate]. rewrite bind_lift_normal.
    now rewrite edges_run.
  - rewrite (anchor_of_falsy_data _ Hdata). cbn. now rewrite Nat.add_0_r.
Qed.

Lemma two_collated_results_of_one_edge :
  let a := raw_ad "A" "P" true in
  let b := raw_ad "B" "P" false in
  let response := response_of [edge_of (VArr [a; VNull; b])] in
  extractAdData (ticking 0) response 0
  = ([record_of a (VStr "A") 0; record_of b (VStr "B") 2], 4%nat).
Proof.
  refine (extraction_yields_one_record_per_object (ticking 0)
            (response_of [edge_of (VArr [raw_ad "A" "P" true; VNull;
                                         raw_ad "B" "P" false])]) 0%nat _ _).
  - constructor; [|constructor]. eexists. reflexivity.
  - vm_compute.
    repeat (constructor;
            [intros H;
             first [discriminate H | split; [|intros instant]; reflexivity]|]).
    constructor.
Defined.

Lemma process_result_adds_at_most_one clock x ads reads :
  exists ads' reads',
    process_result clock x ads reads = (Normal tt, ads', reads')
    /\ (length ads' <= length ads + length (List.filter truthy [x]))%nat.
Proof.
  rewrite process_result_eq. cbn [List.filter].
  destruct (truthy x); [|eexists _, _; split; [reflexivity|cbn; lia]].
  destruct (truthy (own_identity x)); destruct (negb _);
    eexists _, _; (split; [reflexivity|]);
    rewrite ?length_app; cbn [length]; lia.
Qed.

Lemma results_add_at_most clock xs :
  forall ads reads,
    exists ads' reads',
      for_each xs (process_result clock) ads reads = (Normal tt, ads', reads')
      /\ (length ads' <= length ads + length (List.filter truthy xs))%nat.
Proof.
  induction xs as [|x xs IH]; intros ads reads.
  - exists ads, reads. split; [reflexivity|cbn; lia].
  - destruct (process_result_adds_at_most_one clock x ads reads)
      as (ads1 & reads1 & Hrun & Hlen).
    destruct (IH ads1 reads1) as (ads' & reads' & Hrun' & Hlen').
    exists ads', reads'. cbn [for_each]. rewrite bind_unfold, Hrun.
    split; [exact Hrun'|].
    change (x :: xs) with ([x] ++ xs). rewrite List.filter_app, length_app. lia.
Qed.

Lemma edge_adds_at_most clock edge ads reads :
  (length (process_edge clock edge ads reads).1.2
   <= length ads + length (List.filter truthy (results_of_edge edge)))%nat.
Proof.
  unfold process_edge, results_of_edge. rewrite opt_get_lookup.
  change (lookup_path ["node"; "collated_results"] edge)
    with (lookup_path ["collated_results"] (lookup_path ["node"] edge)).
  destruct (truthy (lookup_path ["node"] edge)) eqn:Hnode; cbn [negb].
  - rewrite (get_truthy _ _ Hnode), bind_lift_normal. cbv zeta.
    destruct (iterate _) as [xs|e] eqn:Hxs.
    + rewrite bind_lift_normal.
      destruct (results_add_at_most clock xs ads reads)
        as (ads' & reads' & Hrun & Hlen).
      now rewrite Hrun.
    + rewrite bind_unfold. cbn. lia.
  - cbn. lia.
Qed.

Lemma edges_add_at_most clock es :
  forall ads reads,
    (length (for_each es (process_edge clock) ads reads).1.2
     <= length ads
        + length (List.filter truthy (List.flat_map results_of_edge es)))%nat.
Proof.
  induction es as [|edge es IH]; intros ads reads.
  - cbn. lia.
  - cbn [for_each List.flat_map]. rewrite bind_unfold.
    pose proof (edge_adds_at_most clock edge ads reads) as Hedge.
    rewrite List.filter_app, length_app.
    destruct (process_edge clock edge ads reads) as [[[u|e] ads1] reads1];
      cbn [fst snd] in *.
    + specialize (IH ads1 reads1). lia.
    + lia.
Qed.

(** X2. Whatever the response, [extractAdData] never returns more records
    than the response has truthy ad-like objects under its anchor path. *)
Theorem extraction_never_invents_records :
  forall (clock : nat -> Z) (response : value) (reads : nat),
    (length (extractAdData clock response reads).1
     <= length (List.filter truthy (ad_like_objects response)))%nat.
Proof.
  intros clock response reads.
  unfold extractAdData. rewrite try_catch_unfold, extract_block_edges.
  unfold ad_like_objects.
  destruct (negb (truthy (lookup_path ["data"] response))); [cbn; lia|].
  cbv zeta.
  destruct (lookup_path anchor response) as [| | | | |es|] eqn:Hedges;
    cbn [truthy isArray negb]; rewrite ?orb_true_r; try (cbn; lia).
  cbn [orb iterate]. rewrite bind_lift_normal.
  pose proof (edges_add_at_most clock es [] reads) as H.
  destruct (for_each es (process_edge clock) [] reads) as [[[u|e] ads] t];
    exact H.
Qed.


(** ** Handlers that run one by one

    On the schedules [in_turns] and [visit_in_turns] no handler starts
    before the one before it has finished, and the event loop of [Async]
    does what the handlers of [Scraper] do. *)

Lemma drain_finished resume k r reads :
  resume Async.Finished = mret Async.Finished ->
  drain resume k Async.Finished r reads = (Normal Async.Finished, r, reads).
Proof.
  intros Hresume. induction k as [|k IH]; [reflexivity|].
  cbn [drain]. rewrite Hresume, bind_unfold. exact IH.
Qed.

Lemma happen_advances resume n k :
  forall s reads h h' r' reads',
    Async.pool s !! n = Some h ->
    drain resume k h (Async.run s) reads = (Normal h', r', reads') ->
    Async.happen resume (replicate k (Async.Advance n)) s reads
    = (Normal tt,
       {| Async.run := r'; Async.pool := <[n := h']> (Async.pool s) |},
       reads').
Proof.
  induction k as [|k IH]; intros s reads h h' r' reads' Hn Hdrain.
  - cbn in Hdrain. injection Hdrain as <- <- <-.
    cbn. rewrite list_insert_id by exact Hn. now destruct s.
  - cbn [drain] in Hdrain. rewrite bind_unfold in Hdrain.
    cbn [replicate]. unfold Async.happen. cbn [for_each].
    rewrite bind_unfold. unfold Async.handle at 1.
    rewrite bind_unfold. cbn [get_state]. rewrite Hn, bind_on_run.
    destruct (resume h (Async.run s) reads) as [[[h1|e] r1] reads1];
      [|discriminate Hdrain].
    cbn [modify Async.run Async.pool].
    pose proof (lookup_lt_Some _ _ _ Hn) as Hlt.
    fold (Async.happen resume (replicate k (Async.Advance n))).
    rewrite (IH {| Async.run := r1;
                   Async.pool := <[n := h1]> (Async.pool s) |}
               reads1 h1 h' r' reads').
    + cbn [Async.pool]. now rewrite list_insert_insert_eq.
    + cbn [Async.pool]. now apply list_lookup_insert_eq.
    + exact Hdrain.
Qed.

Ltac settle := rewrite ?ret_unfold; cbv beta match; cbn [fst snd].

Lemma drain_offer clock max ads :
  forall k r reads,
    (2 * length ads <= k)%nat ->
    (h ← Async.offer max ads; drain (Async.resume_initial clock max) k h)
      r reads
    = (Normal Async.Finished,
       (try_catch (for_break ads (capture max)) (fun _ => mret tt) r reads).1.2,
       (try_catch (for_break ads (capture max)) (fun _ => mret tt) r reads).2).
Proof.
  induction ads as [|ad rest IH]; intros k r reads Hk.
  - cbn [Async.offer]. rewrite bind_unfold, ret_unfold.
    now rewrite drain_finished.
  - cbn [Async.offer for_break]. rewrite try_catch_unfold.
    rewrite !bind_unfold. cbn [get_state]. rewrite capture_eq.
    destruct (below_cap max (map_size (ads_map r))) eqn:Hbelow.
    + rewrite !bind_unfold. cbn [modify]. fold (kept ad r). settle.
      destruct k as [|[|k]]; [cbn in Hk; lia..|].
      cbn [drain Async.resume_initial].
      rewrite bind_unfold, try_catch_unfold, bind_unfold, saveAd_eq.
      destruct (page_id ad) as [| | | |dir| |]; settle;
        try exact (drain_finished (Async.resume_initial clock max) (S k) _ _ eq_refl).
      cbn [Async.resume_initial].
      rewrite !bind_unfold. cbn [get_state].
      destruct (cap_reached max _); settle.
      * now rewrite drain_finished.
      * rewrite <- bind_unfold, IH by (cbn in Hk; lia).
        now rewrite try_catch_unfold.
    + settle. rewrite <- bind_unfold, IH by (cbn in Hk; lia).
      now rewrite try_catch_unfold.
Qed.

Lemma patience_suffices clock json reads :
  (1 + 4 * length (extractAdData clock json reads).1
   <= patience_for (Some json))%nat.
Proof.
  cbn [patience_for].
  enough (length (extractAdData clock json reads).1
          <= length (List.filter truthy (ad_like_objects json)))%nat by lia.
  unfold extractAdData. rewrite try_catch_unfold, extract_block_edges.
  unfold ad_like_objects.
  destruct (negb (truthy (lookup_path ["data"] json))); [cbn; lia|].
  cbv zeta.
  destruct (lookup_path anchor json) as [| | | | |es|] eqn:Hedges;
    cbn [truthy isArray negb]; rewrite ?orb_true_r; try (cbn; lia).
  cbn [orb iterate]. rewrite bind_lift_normal.
  pose proof (edges_add_at_most clock es [] reads) as H.
  destruct (for_each es (process_edge clock) [] reads) as [[[u|e] ads] t];
    exact H.
Qed.

Lemma drain_reading_initial clock max body k r reads :
  (patience_for body <= k)%nat ->
  drain (Async.resume_initial clock max) k (Async.Reading body) r reads
  = (Normal Async.Finished,
     (on_response_initial clock max body r reads).1.2,
     (on_response_initial clock max body r reads).2).
Proof.
  intros Hk. destruct body as [json|].
  - pose proof (patience_suffices clock json reads) as Hjson.
    rewrite on_response_initial_feeds.
    destruct k as [|k]; [cbn in Hk; lia|].
    cbn [drain Async.resume_initial]. rewrite !bind_unfold.
    unfold extracted.
    destruct (extractAdData clock json reads) as [ads reads'] eqn:Hads.
    cbn [fst snd] in *.
    destruct ads as [|ad ads].
    + cbn [length Nat.ltb Nat.leb]. rewrite try_catch_unfold, bind_unfold.
      unfold lift. destruct (keys json); settle;
        now rewrite drain_finished.
    + change (0 <? length (ad :: ads))%nat with true. cbv beta match.
      rewrite <- bind_unfold. apply drain_offer. lia.
  - destruct k as [|k]; [cbn in Hk; lia|].
    cbn [drain Async.resume_initial]. rewrite bind_unfold. settle.
    now rewrite drain_finished.
Qed.

Lemma happen_app resume events later s reads :
  Async.happen resume (events ++ later) s reads
  = (_ ← Async.happen resume events; Async.happen resume later) s reads.
Proof.
  revert s reads. unfold Async.happen.
  induction events as [|e events IH]; intros s reads; [reflexivity|].
  cbn [app for_each]. rewrite !bind_unfold.
  destruct (Async.handle resume e s reads) as [[[u|err] s1] reads1];
    [|reflexivity].
  rewrite IH. now rewrite bind_unfold.
Qed.

Section OneByOne.

Variable resume : Async.pending -> Eff Run Async.pending.
Variable handler : option value -> Eff Run unit.

Hypothesis handler_finishes :
  forall body k r reads,
    (patience_for body <= k)%nat ->
    drain resume k (Async.Reading body) r reads
    = (Normal Async.Finished,
       (handler body r reads).1.2, (handler body r reads).2).

Hypothesis handler_returns :
  forall body r reads, (handler body r reads).1.1 = Normal tt.

Lemma one_by_one_handled bodies :
  forall s reads,
    Async.happen resume (one_by_one (length (Async.pool s)) bodies) s reads
    = (Normal tt,
       {| Async.run := (for_each bodies handler (Async.run s) reads).1.2;
          Async.pool :=
            Async.pool s ++ replicate (length bodies) Async.Finished |},
       (for_each bodies handler (Async.run s) reads).2).
Proof.
  induction bodies as [|body later IH]; intros s reads.
  - cbn. rewrite app_nil_r. now destruct s.
  - cbn [one_by_one for_each length replicate].
    unfold Async.happen at 1. cbn [for_each]. rewrite bind_unfold.
    cbn [Async.handle modify].
    change (for_each ?xs (Async.handle resume))
      with (Async.happen resume xs).
    rewrite happen_app, bind_unfold.
    erewrite happen_advances;
      [|cbn [Async.pool]; apply list_lookup_middle; reflexivity
       |cbn [Async.run]; apply handler_finishes; lia].
    cbn [Async.pool]. rewrite bind_unfold.
    pose proof (handler_returns body (Async.run s) reads) as Hret.
    destruct (handler body (Async.run s) reads) as [[c r1] reads1].
    cbn [fst snd] in *. subst c.
    rewrite insert_app_r_alt, Nat.sub_diag by lia. cbn [insert list_insert].
    specialize (IH {| Async.run := r1;
                      Async.pool := Async.pool s ++ [Async.Finished] |} reads1).
    cbn [Async.pool Async.run] in IH.
    rewrite length_app, Nat.add_1_r in IH. rewrite IH.
    now rewrite <- app_assoc.
Qed.

End OneByOne.

Lemma on_response_initial_returns clock max body r reads :
  (on_response_initial clock max body r reads).1.1 = Normal tt.
Proof.
  unfold on_response_initial. rewrite try_catch_unfold.
  match goal with
  | |- context [match ?m with (_, _) => _ end] =>
      destruct m as [[[[]|e] r1] reads1]; reflexivity
  end.
Qed.

Lemma on_response_incremental_returns clock pageId body r reads :
  (on_response_incremental clock pageId body r reads).1.1 = Normal tt.
Proof.
  unfold on_response_incremental. rewrite try_catch_unfold.
  match goal with
  | |- context [match ?m with (_, _) => _ end] =>
      destruct m as [[[[]|e] r1] reads1]; reflexivity
  end.
Qed.

Lemma responses_initial_in_turn clock max bodies s reads :
  Async.happen (Async.resume_initial clock max)
    (one_by_one (length (Async.pool s)) bodies) s reads
  = (Normal tt,
     {| Async.run :=
          (for_each bodies (on_response_initial clock max)
             (Async.run s) reads).1.2;
        Async.pool :=
          Async.pool s ++ replicate (length bodies) Async.Finished |},
     (for_each bodies (on_response_initial clock max) (Async.run s) reads).2).
Proof.
  apply one_by_one_handled.
  - intros body k r t. apply drain_reading_initial.
  - intros body r t. apply on_response_initial_returns.
Qed.

Lemma for_each_returns {St A} (body : A -> Eff St unit) xs :
  (forall x s reads, (body x s reads).1.1 = Normal tt) ->
  forall s reads, (for_each xs body s reads).1.1 = Normal tt.
Proof.
  intros Hbody. induction xs as [|x xs IH]; intros s reads; [reflexivity|].
  cbn [for_each]. rewrite bind_unfold.
  pose proof (Hbody x s reads) as Hx.
  destruct (body x s reads) as [[c s1] reads1]. cbn [fst snd] in Hx.
  subst c. apply IH.
Qed.

Lemma scroll_in_turns clock max left :
  forall turns previousCount noChangeCount s reads,
  exists finished,
    Async.scroll clock max left
      (turns_one_by_one (length (Async.pool s)) turns)
      previousCount noChangeCount s reads
    = ((scroll clock max left turns previousCount noChangeCount
          (Async.run s) reads).1.1,
       {| Async.run :=
            (scroll clock max left turns previousCount noChangeCount
               (Async.run s) reads).1.2;
          Async.pool := Async.pool s ++ replicate finished Async.Finished |},
       (scroll clock max left turns previousCount noChangeCount
          (Async.run s) reads).2).
Proof.
  induction left as [|left IH];
    intros turns previousCount noChangeCount s reads.
  - exists 0%nat. cbn. rewrite app_nil_r. now destruct s.
  - cbn [Async.scroll scroll]. rewrite !bind_unfold. cbn [get_state].
    destruct (below_cap max (map_size (ads_map (Async.run s))));
      [|exists 0%nat; cbn; rewrite app_nil_r; now destruct s].
    cbv zeta.
    set (turn := hd idle turns).
    assert (Hwaiting :
      Async.while_waiting
        (hd Async.idle (turns_one_by_one (length (Async.pool s)) turns))
      = one_by_one (length (Async.pool s)) (while_waiting turn))
      by (subst turn; now destruct turns).
    assert (Hprobing :
      Async.while_probing
        (hd Async.idle (turns_one_by_one (length (Async.pool s)) turns))
      = one_by_one (length (Async.pool s) + length (while_waiting turn))
          (while_probing turn))
      by (subst turn; now destruct turns).
    assert (Hbottom :
      Async.isAtBottom
        (hd Async.idle (turns_one_by_one (length (Async.pool s)) turns))
      = Some (isAtBottom turn))
      by (subst turn; now destruct turns).
    assert (Hscrolled :
      Async.scrolled
        (hd Async.idle (turns_one_by_one (length (Async.pool s)) turns))
      = true)
      by now destruct turns.
    rewrite Hwaiting, Hprobing, Hbottom, Hscrolled.
    cbn [Async.settled].
    rewrite !bind_unfold, responses_initial_in_turn.
    pose proof (for_each_returns (on_response_initial clock max)
                  (while_waiting turn)
                  (fun x => on_response_initial_returns clock max x)
                  (Async.run s) reads) as Hret.
    destruct (for_each (while_waiting turn) (on_response_initial clock max)
                (Async.run s) reads) as [[c r1] reads1].
    cbn [fst snd] in *. subst c. rewrite !bind_unfold. settle.
    rewrite ?bind_unfold. cbn [get_state Async.run].
    destruct ((map_size (ads_map r1) =? previousCount)%nat
              && (5 <=? _)%nat).
    { exists (length (while_waiting turn)). reflexivity. }
    rewrite !bind_unfold.
    set (s1 := {| Async.run := r1;
                  Async.pool := Async.pool s
                    ++ replicate (length (while_waiting turn))
                         Async.Finished |}).
    assert (Hlen : (length (Async.pool s) + length (while_waiting turn)
                    = length (Async.pool s1))%nat)
      by (subst s1; cbn [Async.pool];
          now rewrite length_app, length_replicate).
    rewrite Hlen, responses_initial_in_turn.
    pose proof (for_each_returns (on_response_initial clock max)
                  (while_probing turn)
                  (fun x => on_response_initial_returns clock max x)
                  (Async.run s1) reads1) as Hret.
    subst s1. cbn [Async.run Async.pool] in *.
    destruct (for_each (while_probing turn) (on_response_initial clock max)
                r1 reads1) as [[c r2] reads2].
    cbn [fst snd] in *. subst c.
    rewrite <- app_assoc, <- replicate_add.
    destruct (isAtBottom turn && (2 <=? _)%nat).
    { eexists. reflexivity. }
    set (s2 := {| Async.run := r2; Async.pool := _ |}).
    assert (Hturns :
      tl (turns_one_by_one (length (Async.pool s)) turns)
      = turns_one_by_one (length (Async.pool s2)) (tl turns)).
    { subst s2 turn. cbn [Async.pool].
      rewrite length_app, length_replicate.
      destruct turns as [|t later]; [reflexivity|].
      cbn [turns_one_by_one tl hd]. f_equal. lia. }
    rewrite Hturns.
    destruct (IH (tl turns)
                (if (map_size (ads_map r1) =? previousCount)%nat
                 then previousCount else map_size (ads_map r1))
                (if (map_size (ads_map r1) =? previousCount)%nat
                 then S noChangeCount else 0%nat) s2 reads2)
      as (finished & Hrun).
    rewrite Hrun. subst s2. cbn [Async.run Async.pool].
    rewrite <- app_assoc, <- replicate_add. eexists. reflexivity.
Qed.

Lemma metadata_loop_undisturbed clock max pageIds :
  forall s reads,
    Async.metadata_loop clock max pageIds [] s reads
    = Async.on_run
        (for_each pageIds (fun pageId =>
           r' ← get_state;
           stamp ← now clock;
           savePageMetadata
             {| meta_page_id := pageId;
                last_synced := stamp;
                total_ads :=
                  Z.of_nat
                    (length
                       (List.filter
                          (fun ad => strict_eq (page_id ad) pageId)
                          (map_values (ads_map r')))) |})) s reads.
Proof.
  induction pageIds as [|pageId later IH]; intros s reads; [now destruct s|].
  cbn [Async.metadata_loop for_each hd tl]. unfold Async.on_run.
  rewrite !bind_unfold. cbn [get_state]. rewrite !bind_now. cbv beta.
  rewrite !bind_unfold. cbv beta.
  destruct (savePageMetadata _ (Async.run s) (S reads))
    as [[[u|e] r1] reads1]; [|reflexivity].
  change ((_ ← Async.happen (Async.resume_initial clock max) [];
           Async.metadata_loop clock max later []) ?s ?t)
    with (Async.metadata_loop clock max later [] s t).
  rewrite IH. reflexivity.
Qed.

Lemma save_all_metadata_undisturbed clock max s reads :
  Async.save_all_metadata clock max [] s reads
  = Async.on_run (save_all_metadata clock) s reads.
Proof.
  unfold Async.save_all_metadata, save_all_metadata.
  rewrite bind_unfold. cbn [get_state]. cbv zeta.
  rewrite metadata_loop_undisturbed. unfold Async.on_run.
  now rewrite bind_unfold.
Qed.

Lemma finally_undisturbed {St A} (m : Eff St A) (after : Eff St unit) s reads :
  (forall s' reads', after s' reads' = (Normal tt, s', reads')) ->
  Async.finally m after s reads = m s reads.
Proof.
  intros Hafter. unfold Async.finally.
  destruct (m s reads) as [[c s1] reads1]. now rewrite Hafter.
Qed.

(** On the schedule on which the handlers run one by one, the event loop
    runs [initialSync] as [Scraper] has it, and leaves no handler in
    flight. *)
Lemma initialSync_in_turns clock max on_load turns s reads :
  exists finished,
    Async.initialSync clock max (in_turns on_load turns) s reads
    = ((initialSync clock max on_load turns (Async.run s) reads).1.1,
       {| Async.run :=
            (initialSync clock max on_load turns (Async.run s) reads).1.2;
          Async.pool := replicate finished Async.Finished |},
       (initialSync clock max on_load turns (Async.run s) reads).2).
Proof.
  unfold Async.initialSync, initialSync, in_turns.
  cbn [Async.launched Async.on_load Async.loaded Async.turns
       Async.while_writing Async.while_closing Async.closed Async.settled].
  rewrite !bind_unfold. cbn [modify]. settle.
  rewrite bind_unfold. settle.
  rewrite finally_undisturbed by reflexivity.
  set (s0 := {| Async.run := with_map (fun _ => []) (Async.run s);
                Async.pool := [] |}).
  change (one_by_one 0 on_load)
    with (one_by_one (length (Async.pool s0)) on_load).
  rewrite !bind_unfold, responses_initial_in_turn.
  pose proof (for_each_returns (on_response_initial clock max) on_load
                (fun x => on_response_initial_returns clock max x)
                (Async.run s0) reads) as Hret.
  subst s0. cbn [Async.run Async.pool app] in *.
  destruct (for_each on_load (on_response_initial clock max)
              (with_map (fun _ => []) (Async.run s)) reads)
    as [[c r1] reads1].
  cbn [fst snd] in *. subst c. rewrite !bind_unfold. settle.
  rewrite ?bind_unfold.
  set (s1 := {| Async.run := r1; Async.pool := _ |}).
  replace (length on_load) with (length (Async.pool s1))
    by (subst s1; cbn [Async.pool]; apply length_replicate).
  destruct (scroll_in_turns clock max maxScrollAttempts turns 0 0 s1 reads1)
    as (finished & Hrun).
  rewrite Hrun. subst s1. cbn [Async.run Async.pool].
  rewrite <- replicate_add.
  destruct (scroll clock max maxScrollAttempts turns 0 0 r1 reads1)
    as [[[u|e] r2] reads2]; cbn [fst snd].
  - rewrite save_all_metadata_undisturbed. unfold Async.on_run.
    cbn [Async.run Async.pool].
    destruct (save_all_metadata clock r2 reads2) as [[c r3] reads3].
    eexists. reflexivity.
  - eexists. reflexivity.
Qed.

Ltac resumed :=
  cbn [Async.resume_incremental]; try unfold loadAd; rewrite ?bind_unfold;
  cbn [get_state modify]; settle.

Lemma drain_seek clock pageId ads :
  forall k r reads,
    (4 * length ads <= k)%nat ->
    drain (Async.resume_incremental clock pageId) k (Async.seek pageId ads)
      r reads
    = (Normal Async.Finished,
       (for_each ads (refresh pageId) r reads).1.2,
       (for_each ads (refresh pageId) r reads).2).
Proof.
  induction ads as [|ad rest IH]; intros k r reads Hk.
  - cbn [Async.seek for_each]. now rewrite drain_finished.
  - cbn [Async.seek for_each]. rewrite bind_unfold, refresh_eq.
    destruct (strict_eq (page_id ad) (VStr pageId)) eqn:Hpage;
      [|cbn [andb]; cbv beta match; apply IH; cbn in Hk; lia].
    cbn [andb].
    destruct k as [|[|[|[|k]]]]; [cbn in Hk; lia..|].
    cbn [drain]. resumed. resumed.
    destruct (needs_update _ ad).
    + resumed. fold (kept ad r). resumed.
      rewrite try_catch_unfold, bind_unfold, saveAd_eq.
      destruct (page_id ad) as [| | | |dir| |]; try discriminate Hpage.
      cbn [strict_eq] in Hpage. apply String.eqb_eq in Hpage as ->.
      resumed. apply IH. cbn in Hk. lia.
    + resumed.
      change ((h' ← Async.resume_incremental clock pageId
                      (Async.seek pageId rest);
               h'' ← Async.resume_incremental clock pageId h';
               drain (Async.resume_incremental clock pageId) k h'') r reads)
        with (drain (Async.resume_incremental clock pageId) (S (S k))
                (Async.seek pageId rest) r reads).
      apply IH. cbn in Hk. lia.
Qed.

Lemma drain_reading_incremental clock pageId body k r reads :
  (patience_for body <= k)%nat ->
  drain (Async.resume_incremental clock pageId) k (Async.Reading body) r reads
  = (Normal Async.Finished,
     (on_response_incremental clock pageId body r reads).1.2,
     (on_response_incremental clock pageId body r reads).2).
Proof.
  intros Hk. unfold on_response_incremental. rewrite try_catch_unfold.
  destruct k as [|k]; [destruct body; cbn in Hk; lia|].
  destruct body as [json|].
  - pose proof (patience_suffices clock json reads) as Hjson.
    cbn [drain Async.resume_incremental]. rewrite !bind_unfold.
    unfold extracted.
    destruct (extractAdData clock json reads) as [ads reads'].
    cbn [fst snd] in Hjson. settle.
    rewrite drain_seek by lia.
    pose proof (for_each_returns (refresh pageId) ads) as Hret.
    destruct (for_each ads (refresh pageId) r reads') as [[[u|e] r1] reads1];
      reflexivity.
  - cbn [drain Async.resume_incremental]. rewrite bind_unfold. settle.
    now rewrite drain_finished.
Qed.

Lemma responses_incremental_in_turn clock pageId bodies s reads :
  Async.happen (Async.resume_incremental clock pageId)
    (one_by_one (length (Async.pool s)) bodies) s reads
  = (Normal tt,
     {| Async.run :=
          (for_each bodies (on_response_incremental clock pageId)
             (Async.run s) reads).1.2;
        Async.pool :=
          Async.pool s ++ replicate (length bodies) Async.Finished |},
     (for_each bodies (on_response_incremental clock pageId)
        (Async.run s) reads).2).
Proof.
  apply one_by_one_handled.
  - intros body k r t. apply drain_reading_incremental.
  - intros body r t. apply on_response_incremental_returns.
Qed.

(** On the visit on which the handlers run one by one, the event loop
    runs [incrementalSync] as [Scraper] has it, and leaves no handler in
    flight. *)
Lemma incrementalSync_in_turns clock pageId responses s reads :
  Async.incrementalSync clock pageId (visit_in_turns responses) s reads
  = ((incrementalSync clock pageId responses (Async.run s) reads).1.1,
     {| Async.run :=
          (incrementalSync clock pageId responses (Async.run s) reads).1.2;
        Async.pool := replicate (length responses) Async.Finished |},
     (incrementalSync clock pageId responses (Async.run s) reads).2).
Proof.
  unfold Async.incrementalSync, incrementalSync, visit_in_turns.
  cbn [Async.opened Async.while_scrolling Async.scrolled_down
       Async.while_stamping Async.while_leaving Async.departed
       Async.settled].
  rewrite !bind_unfold. cbn [modify].
  rewrite bind_on_run. unfold loadPageMetadata.
  rewrite !bind_unfold. cbn [get_state Async.run Async.pool]. settle.
  rewrite ?bind_unfold. settle.
  rewrite finally_undisturbed by reflexivity.
  set (s0 := {| Async.run := with_map (fun _ => []) (Async.run s);
                Async.pool := [] |}).
  change (one_by_one 0 responses)
    with (one_by_one (length (Async.pool s0)) responses).
  rewrite !bind_unfold, responses_incremental_in_turn.
  pose proof (for_each_returns (on_response_incremental clock pageId)
                responses
                (fun x => on_response_incremental_returns clock pageId x)
                (Async.run s0) reads) as Hret.
  subst s0. cbn [Async.run Async.pool app] in *.
  destruct (for_each responses (on_response_incremental clock pageId)
              (with_map (fun _ => []) (Async.run s)) reads)
    as [[c r1] reads1].
  cbn [fst snd] in *. subst c. settle. rewrite ?bind_unfold. settle.
  rewrite ?bind_now. cbn [now]. settle. rewrite ?bind_unfold.
  cbn [get_state Async.run]. rewrite bind_on_run.
  cbn [Async.run Async.pool].
  destruct (savePageMetadata _ r1 (S reads1)) as [[[[]|e] r2] reads2];
    reflexivity.
Qed.

(** ** Acceptance under a cap *)

Lemma savable_page ad : savable ad -> page_is_string ad.
Proof. intros (key & dir & _ & Hpage & _). now exists dir. Qed.

Lemma savable_pages ads : Forall savable ads -> Forall page_is_string ads.
Proof. intros H. eapply Forall_impl; [exact H|]. apply savable_page. Qed.

Lemma cap_reached_not_below max size :
  cap_reached max size = true -> below_cap max size = false.
Proof.
  destruct max as [m|]; cbn [cap_reached below_cap]; [|discriminate].
  destruct (Z.eqb_spec m 0); cbn [negb andb orb]; [discriminate|].
  intros H. apply Z.leb_le in H. apply Z.ltb_ge. exact H.
Qed.

Lemma for_break_capture_refused max ads r reads :
  below_cap max (map_size (ads_map r)) = false ->
  for_break ads (capture max) r reads = (Normal tt, r, reads).
Proof.
  intros Hfull. induction ads as [|ad ads IH]; [reflexivity|].
  cbn [for_break]. now rewrite bind_unfold, capture_refused.
Qed.

Lemma feed_refused max batches r reads :
  below_cap max (map_size (ads_map r)) = false ->
  feed max batches r reads = (Normal tt, r, reads).
Proof.
  intros Hfull. unfold feed. induction batches as [|ads batches IH];
    [reflexivity|].
  cbn [for_each].
  now rewrite bind_unfold, try_catch_unfold, for_break_capture_refused.
Qed.

Lemma accepted_below_nil max m : accepted_below max m [].
Proof. intros [|? ?] ad after H; discriminate H. Qed.

Lemma accepted_below_cons max m ad ads :
  below_cap max (map_size m) = true ->
  accepted_below max (map_set m (id ad) ad) ads ->
  accepted_below max m (ad :: ads).
Proof.
  intros Hhead Hrest [|x before] y after Hsplit.
  - exact Hhead.
  - injection Hsplit as <- Hsplit. exact (Hrest before y after Hsplit).
Qed.

Lemma accepting_app m ads later :
  accepting m (ads ++ later) = accepting (accepting m ads) later.
Proof. apply fold_left_app. Qed.

Lemma accepted_below_app max m ads later :
  accepted_below max m ads ->
  accepted_below max (accepting m ads) later ->
  accepted_below max m (ads ++ later).
Proof.
  revert m. induction ads as [|ad ads IH]; intros m Hads Hlater.
  - exact Hlater.
  - cbn [app]. apply accepted_below_cons.
    + exact (Hads [] ad ads eq_refl).
    + apply IH; [|exact Hlater].
      intros before y after Hsplit.
      exact (Hads (ad :: before) y after (f_equal (cons ad) Hsplit)).
Qed.

(** A handler accepts the records of its response up to the one that
    fills the map, and no record from there on. *)
Lemma for_break_capture_split max ads :
  forall r reads,
    Forall page_is_string ads ->
    exists r' accepted refused,
      for_break ads (capture max) r reads = (Normal tt, r', reads)
      /\ ads = accepted ++ refused
      /\ ads_map r' = accepting (ads_map r) accepted
      /\ accepted_below max (ads_map r) accepted
      /\ (refused <> [] -> below_cap max (map_size (ads_map r')) = false).
Proof.
  induction ads as [|ad ads IH]; intros r reads Hpages.
  - exists r, [], []. repeat split; [apply accepted_below_nil|congruence].
  - apply Forall_cons in Hpages as [[dir Hdir] Hpages].
    destruct (below_cap max (map_size (ads_map r))) eqn:Hbelow.
    + cbn [for_break]. rewrite bind_unfold, capture_eq, Hbelow, Hdir.
      change (ads_map (kept ad r)) with (ads_map (filed dir ad (kept ad r))).
      destruct (cap_reached max (map_size (ads_map (filed dir ad (kept ad r)))))
        eqn:Hreached.
      * exists (filed dir ad (kept ad r)), [ad], ads.
        repeat split.
        -- apply accepted_below_cons; [exact Hbelow|apply accepted_below_nil].
        -- intros _. now apply cap_reached_not_below.
      * destruct (IH (filed dir ad (kept ad r)) reads Hpages)
          as (r' & accepted & refused & Hrun & Hsplit & Hmap & Hacc & Hfull).
        exists r', (ad :: accepted), refused.
        split; [exact Hrun|]. split; [cbn [app]; now f_equal|].
        split; [exact Hmap|]. split; [|exact Hfull].
        apply accepted_below_cons; [exact Hbelow|exact Hacc].
    + exists r, [], (ad :: ads).
      split; [now apply for_break_capture_refused|].
      repeat split; [apply accepted_below_nil|]. intros _. exact Hbelow.
Qed.

Lemma feed_split max batches :
  forall r reads,
    Forall page_is_string (concat batches) ->
    exists r' accepted refused,
      feed max batches r reads = (Normal tt, r', reads)
      /\ concat batches = accepted ++ refused
      /\ ads_map r' = accepting (ads_map r) accepted
      /\ accepted_below max (ads_map r) accepted
      /\ (refused <> [] -> below_cap max (map_size (ads_map r')) = false).
Proof.
  induction batches as [|ads batches IH]; intros r reads Hpages.
  - exists r, [], []. repeat split; [apply accepted_below_nil|congruence].
  - cbn [concat] in Hpages |- *. apply Forall_app in Hpages as [Hpages Hrest].
    destruct (for_break_capture_split max ads r reads Hpages)
      as (r1 & accepted1 & refused1 & Hrun1 & Hsplit1 & Hmap1 & Hacc1 & Hfull1).
    assert (Hstep : forall r' reads',
               feed max batches r1 reads = (Normal tt, r', reads') ->
               feed max (ads :: batches) r reads = (Normal tt, r', reads')).
    { intros r' reads' H. unfold feed in *. cbn [for_each].
      now rewrite bind_unfold, try_catch_unfold, Hrun1. }
    destruct refused1 as [|ad refused1].
    + destruct (IH r1 reads Hrest)
        as (r' & accepted & refused & Hrun & Hsplit & Hmap & Hacc & Hfull).
      exists r', (accepted1 ++ accepted), refused.
      split; [now apply Hstep|].
      rewrite app_nil_r in Hsplit1. subst ads.
      split; [now rewrite Hsplit, app_assoc|].
      split; [now rewrite accepting_app, <- Hmap1|].
      split; [|exact Hfull].
      apply accepted_below_app; [exact Hacc1|now rewrite <- Hmap1].
    + specialize (Hfull1 ltac:(discriminate)).
      exists r1, accepted1, ((ad :: refused1) ++ concat batches).
      split; [apply Hstep; now apply feed_refused|].
      split; [now rewrite Hsplit1, <- app_assoc|].
      split; [exact Hmap1|]. split; [exact Hacc1|].
      intros _. exact Hfull1.
Qed.

Lemma accepting_last m k ads :
  map_get (accepting m ads) k
  = match last_with k ads with
    | Some ad => Some ad
    | None => map_get m k
    end.
Proof. apply fold_capture_last. Qed.

Lemma accepting_keeps (Q : AdData -> Prop) m ads :
  Forall (fun entry => Q entry.2) m ->
  Forall Q ads ->
  Forall (fun entry => Q entry.2) (accepting m ads).
Proof.
  revert m. induction ads as [|ad ads IH]; intros m Hm Hads; [exact Hm|].
  apply Forall_cons in Hads as [Had Hads].
  cbn [accepting fold_left]. apply IH; [|exact Hads].
  now apply Forall_map_set.
Qed.

(** ** The cap: claim C7 *)

(** C7, as it stands, fails.  Under a cap of 0 a response with three ads
    of distinct identities leaves three records in the map, not 0: [!max]
    reads 0 as no cap.  And under a cap of 2, when the first of the three
    cannot be saved (its page is a number), the handler ends there with
    one record in the map. *)
Lemma cap_of_zero_keeps_every_record :
  let three :=
    response_of [edge_of (VArr [raw_ad "A" "P" true; raw_ad "B" "P" true;
                                raw_ad "C" "P" true])] in
  let unsaved :=
    response_of [edge_of (VArr [numbered_ad "A" 7; raw_ad "B" "P" true;
                                raw_ad "C" "P" true])] in
  let found := {| ad_files := ∅; metadata_files := ∅ |} in
  distinct_ids (extractAdData (ticking 0) three 0).1
  /\ length (extractAdData (ticking 0) three 0).1 = 3%nat
  /\ map_size
       (ads_map (initialSync (ticking 0) (Some 0) [Some three] []
                   (fresh found) 0%nat).1.2) = 3%nat
  /\ distinct_ids (extractAdData (ticking 0) unsaved 0).1
  /\ length (extractAdData (ticking 0) unsaved 0).1 = 3%nat
  /\ map_size
       (ads_map (for_each [Some unsaved]
                   (on_response_initial (ticking 0) (Some 2))
                   (fresh found) 0%nat).1.2) = 1%nat.
Proof. vm_compute. repeat split; repeat constructor. Qed.

(** C7, amended.  Under a cap of [N] records, [N] at least 1: the map
    never holds more than [N] records, whatever the page answers and
    however its handlers are scheduled; fed more than [N] records of
    distinct identities that [saveAd] can file, one response after the
    other, it ends with exactly [N], be the records fed in batches,
    extracted by the handlers from the responses of a run, or met by
    [initialSync] while the page loads, in the sequential reading of the
    run and on the schedule of the event loop that is this reading; and
    once the map holds [N], a further record is refused, with the map and
    the disk left as they are and nothing thrown, and the scroll loop
    stops, in either reading. *)
Theorem cap_bounds_the_session :
  forall (N : nat) (found : Database),
    N <> 0%nat ->
    (forall clock on_load turns r reads,
        (map_size
           (ads_map
              (initialSync clock (Some (Z.of_nat N)) on_load turns
                 r reads).1.2) <= N)%nat)
    /\ (forall clock schedule s reads,
           (map_size
              (ads_map
                 (Async.run
                    (Async.initialSync clock (Some (Z.of_nat N)) schedule
                       s reads).1.2)) <= N)%nat)
    /\ (forall batches reads,
           distinct_ids (concat batches) ->
           Forall savable (concat batches) ->
           (N < length (concat batches))%nat ->
           exists r,
             feed (Some (Z.of_nat N)) batches (fresh found) reads
             = (Normal tt, r, reads)
             /\ map_size (ads_map r) = N)
    /\ (forall clock bodies reads,
           distinct_ids (concat (extracted_batches clock bodies reads)) ->
           Forall savable (concat (extracted_batches clock bodies reads)) ->
           (N < length (concat (extracted_batches clock bodies reads)))%nat ->
           map_size
             (ads_map
                (for_each bodies
                   (on_response_initial clock (Some (Z.of_nat N)))
                   (fresh found) reads).1.2) = N)
    /\ (forall clock on_load turns reads,
           distinct_ids (concat (extracted_batches clock on_load reads)) ->
           Forall savable (concat (extracted_batches clock on_load reads)) ->
           (N < length (concat (extracted_batches clock on_load reads)))%nat ->
           map_size
             (ads_map
                (initialSync clock (Some (Z.of_nat N)) on_load turns
                   (fresh found) reads).1.2) = N
           /\ map_size
                (ads_map
                   (Async.run
                      (Async.initialSync clock (Some (Z.of_nat N))
                         (in_turns on_load turns) (at_rest (fresh found))
                         reads).1.2)) = N)
    /\ (forall r,
           (N <= map_size (ads_map r))%nat ->
           (forall ad reads,
               capture (Some (Z.of_nat N)) ad r reads = (Normal false, r, reads))
           /\ (forall clock left turns previousCount noChangeCount reads,
                  scroll clock (Some (Z.of_nat N)) left turns previousCount
                    noChangeCount r reads = (Normal tt, r, reads))
           /\ (forall ads reads,
                  Async.offer (Some (Z.of_nat N)) ads r reads
                  = (Normal Async.Finished, r, reads))
           /\ (forall clock left turns previousCount noChangeCount pool reads,
                  Async.scroll clock (Some (Z.of_nat N)) left turns
                    previousCount noChangeCount
                    {| Async.run := r; Async.pool := pool |} reads
                  = (Normal tt, {| Async.run := r; Async.pool := pool |},
                     reads))).
Proof.
  intros N found HN.
  assert (Hfull : forall r,
             (N <= map_size (ads_map r))%nat ->
             below_cap (Some (Z.of_nat N)) (map_size (ads_map r)) = false).
  { intros r Hr. rewrite below_cap_positive by exact HN.
    now apply Nat.ltb_ge. }
  assert (Hfeed : forall batches reads,
             distinct_ids (concat batches) ->
             Forall savable (concat batches) ->
             (N < length (concat batches))%nat ->
             exists r,
               feed (Some (Z.of_nat N)) batches (fresh found) reads
               = (Normal tt, r, reads)
               /\ map_size (ads_map r) = N
               /\ Forall (fun ad => is_string (page_id ad))
                    (map_values (ads_map r))).
  { intros batches reads Hdistinct Hsavable Hmore.
    apply savable_pages in Hsavable.
    destruct (feed_fills N batches HN (fresh found) reads)
      as (r & Hrun & Hlen); [constructor|assumption..|cbn; lia|].
    exists r. split; [exact Hrun|]. split.
    - rewrite Hlen. cbn [fresh ads_map map_size length]. lia.
    - destruct (feed_split (Some (Z.of_nat N)) batches (fresh found) reads
                  Hsavable)
        as (r' & accepted & refused & Hrun' & Hsplit & Hmap & _).
      rewrite Hrun in Hrun'. injection Hrun' as <-.
      rewrite Hsplit in Hsavable. apply Forall_app in Hsavable as [Hacc _].
      unfold map_values. rewrite Forall_map, Hmap.
      apply (accepting_keeps page_is_string); [constructor|exact Hacc]. }
  split; [|split; [|split; [|split; [|split]]]].
  - intros clock on_load turns r reads.
    pose proof (initialSync_keeps clock (Some (Z.of_nat N))
                  (fun r => (map_size (ads_map r) <= N)%nat) (fun _ => True))
      as Hkeeps.
    specialize (Hkeeps ltac:(intros; apply Forall_true; auto)).
    specialize (Hkeeps (fun ad _ => capture_bounded N ad HN)).
    specialize (Hkeeps (savePageMetadata_keeps_map
                          (fun m => (map_size m <= N)%nat))).
    specialize (Hkeeps ltac:(intros; cbn; lia)).
    specialize (Hkeeps on_load turns (renewed r) reads ltac:(cbn; lia)).
    unfold initialSync in *. rewrite bind_unfold in Hkeeps |- *.
    cbn [modify] in Hkeeps |- *.
    change (with_map (fun _ => []) (renewed r)) with (renewed r) in Hkeeps.
    change (with_map (fun _ => []) r) with (renewed r).
    destruct (_ ≫= _) as [[[u|e] r'] t]; exact Hkeeps.
  - intros clock schedule s reads.
    pose proof (async_initialSync_keeps clock (Some (Z.of_nat N))
                  (fun r => (map_size (ads_map r) <= N)%nat) (fun _ => True)
                  (fun h => resume_initial_bounded clock N h HN)
                  (savePageMetadata_keeps_map
                     (fun m => (map_size m <= N)%nat))
                  ltac:(intros; cbn; lia) schedule s reads I) as Hkeeps.
    destruct (Async.initialSync _ _ _ s reads) as [[[u|e] s'] t];
      exact Hkeeps.
  - intros batches reads Hdistinct Hsavable Hmore.
    destruct (Hfeed batches reads Hdistinct Hsavable Hmore)
      as (r & Hrun & Hlen & _). eauto.
  - intros clock bodies reads Hdistinct Hsavable Hmore.
    destruct (Hfeed _ 0%nat Hdistinct Hsavable Hmore) as (r & Hrun & Hlen & _).
    rewrite responses_initial_feed, Hrun. exact Hlen.
  - intros clock on_load turns reads Hdistinct Hsavable Hmore.
    destruct (Hfeed _ 0%nat Hdistinct Hsavable Hmore)
      as (r1 & Hrun & Hlen & Hpages).
    assert (Hsync : map_size
                      (ads_map
                         (initialSync clock (Some (Z.of_nat N)) on_load turns
                            (fresh found) reads).1.2) = N).
    { rewrite initialSync_phases. unfold capture_phase. rewrite bind_unfold.
      pose proof (responses_initial_feed clock (Some (Z.of_nat N)) on_load
                    (fresh found) reads) as Hload.
      change (renewed (fresh found)) with (fresh found).
      rewrite Hrun in Hload.
      destruct (for_each on_load _ (fresh found) reads) as [[c r0] reads0].
      cbn [fst] in Hload. injection Hload as -> ->.
      rewrite scroll_stops by (apply Hfull; lia).
      destruct (save_all_metadata_writes clock r1 reads0 Hpages)
        as (r' & reads' & Hmeta & Hmap & _).
      rewrite Hmeta. cbn [fst snd]. now rewrite Hmap. }
    split; [exact Hsync|].
    destruct (initialSync_in_turns clock (Some (Z.of_nat N)) on_load turns
                (at_rest (fresh found)) reads) as (finished & Hasync).
    rewrite Hasync. exact Hsync.
  - intros r Hr. specialize (Hfull r Hr).
    split; [|split; [|split]]; intros.
    + now apply capture_refused.
    + now apply scroll_stops.
    + induction ads as [|ad rest IH]; [reflexivity|].
      cbn [Async.offer]. rewrite bind_unfold. cbn [get_state].
      now rewrite Hfull.
    + destruct left as [|left]; [reflexivity|].
      cbn [Async.scroll]. rewrite bind_unfold. cbn [get_state Async.run].
      now rewrite Hfull.
Qed.

(** Scenario D of the specification: a cap of two and three identities
    over two responses. *)
Lemma cap_of_two_refuses_the_third :
  let a := record_of (raw_ad "A" "P" true) (VStr "A") 1 in
  let b := record_of (raw_ad "B" "P" true) (VStr "B") 2 in
  let c := record_of (raw_ad "C" "P" true) (VStr "C") 3 in
  let found := {| ad_files := ∅; metadata_files := ∅ |} in
  exists r,
    feed (Some 2) [[a; b]; [c]] (fresh found) 0%nat = (Normal tt, r, 0%nat)
    /\ map_size (ads_map r) = 2%nat.
Proof.
  cbv zeta.
  destruct (cap_bounds_the_session 2 {| ad_files := ∅; metadata_files := ∅ |}
              ltac:(discriminate)) as (_ & _ & Hfeed & _).
  apply (Hfeed [[record_of (raw_ad "A" "P" true) (VStr "A") 1;
                 record_of (raw_ad "B" "P" true) (VStr "B") 2];
                [record_of (raw_ad "C" "P" true) (VStr "C") 3]] 0%nat).
  - cbn. repeat split; repeat constructor.
  - repeat constructor; eexists _, _; repeat split; reflexivity.
  - cbn. lia.
Defined.

(** ** Last seen wins: claim C8 *)

(** C8, as it stands, fails at the cap: with a cap of 1, a second record
    for a key the map already holds is refused, and the map ends with the
    first record, not with the last one seen for that key. *)
Lemma later_record_refused_at_the_cap :
  let first := record_of (raw_ad "A" "P" true) (VStr "A") 1 in
  let second := record_of (raw_ad "A" "P" false) (VStr "A") 2 in
  let found := {| ad_files := ∅; metadata_files := ∅ |} in
  let r := (feed (Some 1) [[first]; [second]] (fresh found) 0%nat).1.2 in
  same_value_zero (id first) (id second) = true
  /\ last_with (VStr "A") [first; second] = Some second
  /\ map_get (ads_map r) (VStr "A") = Some first
  /\ first <> second.
Proof. vm_compute. repeat split; discriminate. Qed.

(** C8, amended.  A record accepted while the map holds an earlier one
    under the same key takes its place: afterwards the key yields the
    later record, the map has not grown and the other keys hold what they
    held.  Hence in a run under any cap, fed records that [saveAd] can
    file, the records accepted are those met before the map is full, and
    the map ends up holding under each key the last record accepted with
    that key, be the records fed in batches or extracted by the handlers
    from the responses; without a cap every record is accepted.  A
    handler that runs among others takes the place of the earlier record
    in the same way, at the one step in which it accepts the later. *)
Theorem later_record_overwrites_earlier :
  (forall (max : cap) (earlier later : AdData) (r : Run) (reads : nat),
      same_value_zero (id earlier) (id later) = true ->
      map_get (ads_map r) (id earlier) = Some earlier ->
      below_cap max (map_size (ads_map r)) = true ->
      let r' := (capture max later r reads).1.2 in
      map_get (ads_map r') (id later) = Some later
      /\ map_get (ads_map r') (id earlier) = Some later
      /\ map_size (ads_map r') = map_size (ads_map r)
      /\ forall k, same_value_zero (id later) k = false ->
                   map_get (ads_map r') k = map_get (ads_map r) k)
  /\ (forall (max : cap) (batches : list (list AdData)) (found : Database)
             (reads : nat),
         Forall savable (concat batches) ->
         exists r accepted refused,
           feed max batches (fresh found) reads = (Normal tt, r, reads)
           /\ concat batches = accepted ++ refused
           /\ accepted_below max [] accepted
           /\ (refused <> [] ->
               below_cap max (map_size (ads_map r)) = false)
           /\ (max = None -> refused = [])
           /\ ads_map r = session_map accepted
           /\ forall k, map_get (ads_map r) k = last_with k accepted)
  /\ (forall (clock : nat -> Z) (max : cap) (bodies : list (option value))
             (found : Database) (reads : nat),
         Forall savable (concat (extracted_batches clock bodies reads)) ->
         exists accepted refused,
           let r := (for_each bodies (on_response_initial clock max)
                       (fresh found) reads).1.2 in
           concat (extracted_batches clock bodies reads) = accepted ++ refused
           /\ accepted_below max [] accepted
           /\ (refused <> [] ->
               below_cap max (map_size (ads_map r)) = false)
           /\ (max = None -> refused = [])
           /\ ads_map r = session_map accepted
           /\ forall k, map_get (ads_map r) k = last_with k accepted)
  /\ (forall (max : cap) (earlier later : AdData) (rest : list AdData)
             (r : Run) (reads : nat),
         same_value_zero (id earlier) (id later) = true ->
         map_get (ads_map r) (id earlier) = Some earlier ->
         below_cap max (map_size (ads_map r)) = true ->
         Async.offer max (later :: rest) r reads
         = (Normal (Async.Writing later rest), kept later r, reads)
         /\ map_get (ads_map (kept later r)) (id earlier) = Some later
         /\ map_size (ads_map (kept later r)) = map_size (ads_map r)).
Proof.
  assert (Hfeed : forall (max : cap) (batches : list (list AdData))
                         (found : Database) (reads : nat),
             Forall savable (concat batches) ->
             exists r accepted refused,
               feed max batches (fresh found) reads = (Normal tt, r, reads)
               /\ concat batches = accepted ++ refused
               /\ accepted_below max [] accepted
               /\ (refused <> [] ->
                   below_cap max (map_size (ads_map r)) = false)
               /\ (max = None -> refused = [])
               /\ ads_map r = session_map accepted
               /\ forall k, map_get (ads_map r) k = last_with k accepted).
  { intros max batches found reads Hsavable.
    destruct (feed_split max batches (fresh found) reads
                (savable_pages _ Hsavable))
      as (r & accepted & refused & Hrun & Hsplit & Hmap & Hacc & Hfull).
    exists r, accepted, refused.
    split; [exact Hrun|]. split; [exact Hsplit|]. split; [exact Hacc|].
    split; [exact Hfull|]. split; [|split; [exact Hmap|]].
    - intros ->. destruct refused as [|ad refused]; [reflexivity|].
      now specialize (Hfull ltac:(discriminate)).
    - intros k. rewrite Hmap. cbn [fresh ads_map].
      rewrite accepting_last. cbn [map_get].
      now destruct (last_with k accepted). }
  split; [|split; [exact Hfeed|split]].
  - intros max earlier later r reads Hkey Hheld Hcap.
    assert (Hmap : ads_map (capture max later r reads).1.2
                   = map_set (ads_map r) (id later) later).
    { rewrite capture_eq, Hcap. destruct (page_id later); reflexivity. }
    cbv zeta. rewrite Hmap.
    pose proof (same_value_zero_eq _ _ Hkey) as Hid.
    rewrite Hid in Hkey, Hheld |- *.
    repeat split.
    + now apply map_get_set_same.
    + now apply map_get_set_same.
    + now apply map_set_size_present with (old := earlier).
    + intros k Hk. now apply map_get_set_other.
  - intros clock max bodies found reads Hsavable.
    destruct (Hfeed max _ found 0%nat Hsavable)
      as (r & accepted & refused & Hrun & Hrest).
    exists accepted, refused. cbv zeta.
    rewrite responses_initial_feed, Hrun. exact Hrest.
  - intros max earlier later rest r reads Hkey Hheld Hcap.
    pose proof (same_value_zero_eq _ _ Hkey) as Hid.
    rewrite Hid in Hkey, Hheld |- *.
    split; [|split].
    + cbn [Async.offer]. rewrite bind_unfold. cbn [get_state].
      rewrite Hcap. reflexivity.
    + now apply map_get_set_same.
    + now apply map_set_size_present with (old := earlier).
Qed.

(** Two records of the identity A, with a record of B between them, under
    a cap of five at the step that accepts the second, and under a cap of
    three over a run of two responses. *)
Lemma second_capture_of_an_identity_wins :
  let first := record_of (raw_ad "A" "P" true) (VStr "A") 1 in
  let other := record_of (raw_ad "B" "P" true) (VStr "B") 2 in
  let second := record_of (raw_ad "A" "P" false) (VStr "A") 3 in
  let found := {| ad_files := ∅; metadata_files := ∅ |} in
  let r := kept first (fresh found) in
  let r' := (capture (Some 5) second r 0%nat).1.2 in
  (map_get (ads_map r') (VStr "A") = Some second
   /\ map_size (ads_map r') = 1%nat)
  /\ Forall savable (concat [[first; other]; [second]])
  /\ exists r accepted refused,
       feed (Some 3) [[first; other]; [second]] (fresh found) 0%nat
       = (Normal tt, r, 0%nat)
       /\ concat [[first; other]; [second]] = accepted ++ refused
       /\ accepted_below (Some 3) [] accepted
       /\ (refused <> [] ->
           below_cap (Some 3) (map_size (ads_map r)) = false)
       /\ (Some 3 = None -> refused = [])
       /\ ads_map r = session_map accepted
       /\ forall k, map_get (ads_map r) k = last_with k accepted.
Proof.
  cbv zeta.
  destruct later_record_overwrites_earlier as (Hstep & Hfeed & _).
  assert (Hsavable :
    Forall savable
      (concat [[record_of (raw_ad "A" "P" true) (VStr "A") 1;
                record_of (raw_ad "B" "P" true) (VStr "B") 2];
               [record_of (raw_ad "A" "P" false) (VStr "A") 3]])).
  { repeat constructor; eexists _, _; repeat split; reflexivity. }
  split; [|split; [exact Hsavable|]].
  - destruct (Hstep (Some 5)
                (record_of (raw_ad "A" "P" true) (VStr "A") 1)
                (record_of (raw_ad "A" "P" false) (VStr "A") 3)
                (kept (record_of (raw_ad "A" "P" true) (VStr "A") 1)
                   (fresh {| ad_files := ∅; metadata_files := ∅ |}))
                0%nat eq_refl eq_refl eq_refl) as (Hlater & _ & Hsize & _).
    split; [exact Hlater|exact Hsize].
  - exact (Hfeed (Some 3) _ {| ad_files := ∅; metadata_files := ∅ |} 0%nat
             Hsavable).
Defined.

(** ** Runs under two clocks *)

Section Sim.

Context {St : Type}.
Variable R : St -> St -> Prop.

Lemma sim_ret {A} (RA : A -> A -> Prop) a1 a2 :
  RA a1 a2 -> sim R RA (mret a1) (mret a2).
Proof. intros Ha s1 s2 t1 t2 Hs. split; assumption. Qed.

Lemma sim_bind {A B} (RA : A -> A -> Prop) (RB : B -> B -> Prop)
  (m1 m2 : Eff St A) (f1 f2 : A -> Eff St B) :
  sim R RA m1 m2 ->
  (forall a1 a2, RA a1 a2 -> sim R RB (f1 a1) (f2 a2)) ->
  sim R RB (m1 ≫= f1) (m2 ≫= f2).
Proof.
  intros Hm Hf s1 s2 t1 t2 Hs. rewrite !bind_unfold.
  specialize (Hm s1 s2 t1 t2 Hs).
  destruct (m1 s1 t1) as [[[a1|e1] s1'] t1'],
           (m2 s2 t2) as [[[a2|e2] s2'] t2']; try contradiction.
  - destruct Hm as [Ha Hs']. now apply Hf.
  - exact Hm.
Qed.

Lemma sim_lift {A} (c : completion A) : sim R eq (lift c) (lift c).
Proof. intros s1 s2 t1 t2 Hs. unfold lift. destruct c; auto. Qed.

Lemma sim_get_state : sim R R get_state get_state.
Proof. intros s1 s2 t1 t2 Hs. split; assumption. Qed.

Lemma sim_modify (f1 f2 : St -> St) :
  (forall s1 s2, R s1 s2 -> R (f1 s1) (f2 s2)) ->
  sim R (fun _ _ => True) (modify f1) (modify f2).
Proof. intros Hf s1 s2 t1 t2 Hs. split; auto. Qed.

Lemma sim_now clock1 clock2 :
  sim R (fun _ _ => True) (now clock1) (now clock2).
Proof. intros s1 s2 t1 t2 Hs. split; auto. Qed.

Lemma sim_try_catch {A} (RA : A -> A -> Prop) (m1 m2 : Eff St A)
  (h1 h2 : error -> Eff St A) :
  sim R RA m1 m2 ->
  (forall e, sim R RA (h1 e) (h2 e)) ->
  sim R RA (try_catch m1 h1) (try_catch m2 h2).
Proof.
  intros Hm Hh s1 s2 t1 t2 Hs. unfold try_catch.
  specialize (Hm s1 s2 t1 t2 Hs).
  destruct (m1 s1 t1) as [[[a1|e1] s1'] t1'],
           (m2 s2 t2) as [[[a2|e2] s2'] t2']; try contradiction.
  - exact Hm.
  - destruct Hm as [<- Hs']. now apply Hh.
Qed.

Lemma sim_weaken {A} (RA RA' : A -> A -> Prop) (m1 m2 : Eff St A) :
  sim R RA m1 m2 -> (forall a1 a2, RA a1 a2 -> RA' a1 a2) -> sim R RA' m1 m2.
Proof.
  intros Hm HA s1 s2 t1 t2 Hs. specialize (Hm s1 s2 t1 t2 Hs).
  destruct (m1 s1 t1) as [[[a1|e1] s1'] t1'],
           (m2 s2 t2) as [[[a2|e2] s2'] t2']; try contradiction.
  - destruct Hm. split; auto.
  - exact Hm.
Qed.

Lemma sim_for_each {A} (RA : A -> A -> Prop) (xs1 xs2 : list A)
  (body1 body2 : A -> Eff St unit) :
  Forall2 RA xs1 xs2 ->
  (forall x1 x2, In x1 xs1 -> RA x1 x2 ->
                 sim R (fun _ _ => True) (body1 x1) (body2 x2)) ->
  sim R (fun _ _ => True) (for_each xs1 body1) (for_each xs2 body2).
Proof.
  induction 1 as [|x1 x2 xs1 xs2 Hx Hxs IH]; intros Hbody.
  - now apply sim_ret.
  - cbn [for_each]. eapply sim_bind.
    + apply Hbody; [now left|exact Hx].
    + intros _ _ _. apply IH. intros y1 y2 Hy. apply Hbody. now right.
Qed.

Lemma sim_for_each_same {A} (xs : list A) (body1 body2 : A -> Eff St unit) :
  (forall x, In x xs -> sim R (fun _ _ => True) (body1 x) (body2 x)) ->
  sim R (fun _ _ => True) (for_each xs body1) (for_each xs body2).
Proof.
  intros Hbody. apply sim_for_each with (RA := eq).
  - clear Hbody. induction xs; constructor; auto.
  - intros x1 x2 Hin <-. now apply Hbody.
Qed.

Lemma sim_for_break {A} (RA : A -> A -> Prop) (xs1 xs2 : list A)
  (body1 body2 : A -> Eff St bool) :
  Forall2 RA xs1 xs2 ->
  (forall x1 x2, RA x1 x2 -> sim R eq (body1 x1) (body2 x2)) ->
  sim R (fun _ _ => True) (for_break xs1 body1) (for_break xs2 body2).
Proof.
  intros Hxs Hbody. induction Hxs as [|x1 x2 xs1 xs2 Hx Hxs IH].
  - now apply sim_ret.
  - cbn [for_break]. eapply sim_bind.
    + apply Hbody, Hx.
    + intros stop ? <-. destruct stop; [now apply sim_ret|exact IH].
Qed.

End Sim.

Lemma sim_bind_lift {St A B} (R : St -> St -> Prop) (RB : B -> B -> Prop)
  (c : completion A) (f1 f2 : A -> Eff St B) :
  (forall a, c = Normal a -> sim R RB (f1 a) (f2 a)) ->
  sim R RB (lift c ≫= f1) (lift c ≫= f2).
Proof.
  intros Hf s1 s2 t1 t2 Hs. rewrite !bind_unfold. unfold lift.
  destruct c as [a|e]; [now apply Hf|auto].
Qed.

(** *** Extraction *)

Lemma process_result_sim clock1 clock2 x :
  identified x ->
  sim same_records (fun _ _ => True)
    (process_result clock1 x) (process_result clock2 x).
Proof.
  intros Hid ads1 ads2 t1 t2 Hads. rewrite !process_result_eq.
  destruct (truthy x) eqn:Hx; [|split; auto].
  destruct (Hid Hx) as [Hown Hreal]. rewrite Hown, !Hreal. cbn [negb].
  split; [exact I|]. unfold same_records. rewrite !map_app.
  f_equal. exact Hads.
Qed.

Lemma process_edge_sim clock1 clock2 edge :
  Forall identified (results_of_edge edge) ->
  sim same_records (fun _ _ => True)
    (process_edge clock1 edge) (process_edge clock2 edge).
Proof.
  intros Hid. unfold process_edge.
  destruct (truthy (opt_get edge "node")) eqn:Hnode; cbn [negb];
    [|now apply sim_ret].
  rewrite (get_truthy _ _ Hnode), opt_get_lookup.
  apply sim_bind_lift. intros c [= <-]. cbv zeta.
  apply sim_bind_lift. intros results Hresults.
  apply sim_for_each_same. intros x Hx. apply process_result_sim.
  unfold results_of_edge in Hid.
  cbn [lookup_path] in Hid, Hresults. rewrite Hresults in Hid.
  rewrite List.Forall_forall in Hid. now apply Hid.
Qed.

Lemma extract_block_sim clock1 clock2 response :
  Forall identified (ad_like_objects response) ->
  sim same_records (fun _ _ => True)
    (extract_block clock1 response) (extract_block clock2 response).
Proof.
  intros Hid. rewrite !extract_block_edges.
  destruct (negb (truthy (lookup_path ["data"] response)));
    [now apply sim_ret|].
  cbv zeta. destruct (negb (truthy (lookup_path anchor response)) || _) eqn:E;
    [now apply sim_ret|].
  apply orb_false_elim in E as [_ E]. apply negb_false_iff in E.
  apply isArray_inv in E as [es Hes].
  unfold ad_like_objects in Hid. rewrite Hes in *. cbn [iterate].
  apply sim_bind_lift. intros ? [= <-].
  apply sim_for_each_same. intros edge Hedge. apply process_edge_sim.
  rewrite List.Forall_forall in Hid |- *. intros x Hx. apply Hid.
  apply in_flat_map. eauto.
Qed.

Lemma extractAdData_sim clock1 clock2 response reads1 reads2 :
  Forall identified (ad_like_objects response) ->
  same_records (extractAdData clock1 response reads1).1
               (extractAdData clock2 response reads2).1.
Proof.
  intros Hid. unfold extractAdData, try_catch.
  pose proof (extract_block_sim clock1 clock2 response Hid [] [] reads1 reads2
                eq_refl) as H.
  destruct (extract_block clock1 response [] reads1) as [[[u1|e1] ads1] t1],
           (extract_block clock2 response [] reads2) as [[[u2|e2] ads2] t2];
    try contradiction; apply H.
Qed.

(** *** Records, maps and disks without instants *)

Lemma undated_map_set m k ad :
  undated_map (map_set m k ad) = map_set (undated_map m) k (undated ad).
Proof.
  induction m as [|[k' ad'] m IH]; [reflexivity|].
  cbn [map_set undated_map List.map fst snd].
  destruct (same_value_zero k' k); cbn [List.map fst snd]; [reflexivity|].
  f_equal. exact IH.
Qed.

Lemma undated_kept ad r :
  undated_run (kept ad r) = kept (undated ad) (undated_run r).
Proof.
  unfold undated_run, kept, with_map. cbn [ads_map db id undated].
  f_equal. apply undated_map_set.
Qed.

Lemma undated_filed dir ad r :
  undated_run (filed dir ad r) = filed dir (undated ad) (undated_run r).
Proof.
  unfold undated_run, filed, with_db, undated_db.
  cbn [ads_map db ad_files metadata_files id undated].
  do 2 f_equal. apply fmap_insert.
Qed.

Lemma same_undated_size r1 r2 :
  same_undated r1 r2 -> map_size (ads_map r1) = map_size (ads_map r2).
Proof.
  intros H. apply (f_equal ads_map) in H. cbn [undated_run ads_map] in H.
  apply (f_equal (@length _)) in H. unfold undated_map in H.
  now rewrite !length_map in H.
Qed.

Lemma same_undated_pages r1 r2 :
  same_undated r1 r2 ->
  List.map page_id (map_values (ads_map r1))
  = List.map page_id (map_values (ads_map r2)).
Proof.
  intros H. apply (f_equal ads_map) in H. cbn [undated_run ads_map] in H.
  apply (f_equal (List.map (fun entry => page_id entry.2))) in H.
  unfold undated_map, map_values in *. rewrite !List.map_map in H |- *.
  exact H.
Qed.

Lemma same_undated_ad r1 r2 key :
  same_undated r1 r2 ->
  undated <$> ad_files (db r1) !! key = undated <$> ad_files (db r2) !! key.
Proof.
  intros H. apply (f_equal (fun r => ad_files (db r) !! key)) in H.
  cbn [undated_run undated_db db ad_files] in H.
  now rewrite !lookup_fmap in H.
Qed.

Lemma same_undated_metadata r1 r2 key :
  same_undated r1 r2 ->
  same_metadata (metadata_files (db r1) !! key) (metadata_files (db r2) !! key).
Proof.
  intros H. apply (f_equal (fun r => metadata_files (db r) !! key)) in H.
  cbn [undated_run undated_db db metadata_files] in H.
  unfold same_metadata. now rewrite !lookup_fmap in H.
Qed.

Lemma needs_update_undated existing ad :
  needs_update (undated <$> existing) (undated ad) = needs_update existing ad.
Proof. destruct existing; reflexivity. Qed.

Lemma same_records_Forall2 ads1 ads2 :
  same_records ads1 ads2 ->
  Forall2 (fun a1 a2 => undated a1 = undated a2) ads1 ads2.
Proof.
  unfold same_records. revert ads2.
  induction ads1 as [|a1 ads1 IH]; intros [|a2 ads2] H; try discriminate H.
  - constructor.
  - cbn [List.map] in H.
    assert (undated a1 = undated a2
            /\ List.map undated ads1 = List.map undated ads2) as [Ha Hads]
      by (split; congruence).
    constructor; auto.
Qed.

(** *** The handlers *)

Lemma kept_filed_sim a1 a2 dir r1 r2 :
  undated a1 = undated a2 ->
  same_undated r1 r2 ->
  same_undated (kept a1 r1) (kept a2 r2)
  /\ same_undated (filed dir a1 (kept a1 r1)) (filed dir a2 (kept a2 r2)).
Proof.
  unfold same_undated. intros Ha Hr.
  rewrite !undated_filed, !undated_kept, Ha, Hr. auto.
Qed.

Lemma capture_sim max a1 a2 :
  undated a1 = undated a2 ->
  sim same_undated eq (capture max a1) (capture max a2).
Proof.
  intros Ha r1 r2 t1 t2 Hr. rewrite !capture_eq.
  rewrite (same_undated_size r1 r2 Hr).
  destruct (below_cap max (map_size (ads_map r2))); [|auto].
  assert (Hpage : page_id a1 = page_id a2)
    by exact (f_equal page_id Ha).
  rewrite Hpage.
  destruct (page_id a2) as [| | | |dir| |];
    try (split; [reflexivity|now apply (kept_filed_sim a1 a2 EmptyString r1 r2)]).
  destruct (kept_filed_sim a1 a2 dir r1 r2 Ha Hr) as [Hkept Hfiled].
  split; [|exact Hfiled].
  now rewrite (same_undated_size _ _ Hkept).
Qed.

Lemma refresh_sim pageId a1 a2 :
  undated a1 = undated a2 ->
  sim same_undated (fun _ _ => True) (refresh pageId a1) (refresh pageId a2).
Proof.
  intros Ha r1 r2 t1 t2 Hr. rewrite !refresh_eq.
  assert (Hpage : page_id a1 = page_id a2) by exact (f_equal page_id Ha).
  assert (Hid : id a1 = id a2) by exact (f_equal id Ha).
  rewrite Hpage, Hid.
  rewrite <- (needs_update_undated _ a1), <- (needs_update_undated _ a2).
  rewrite (same_undated_ad r1 r2 _ Hr), Ha.
  destruct (_ && _); split; auto.
  now apply kept_filed_sim.
Qed.

Lemma extracted_sim clock1 clock2 json :
  all_identified (Some json) ->
  sim same_undated same_records (extracted clock1 json) (extracted clock2 json).
Proof.
  intros Hid r1 r2 t1 t2 Hr. unfold extracted.
  pose proof (extractAdData_sim clock1 clock2 json t1 t2 Hid) as H.
  destruct (extractAdData clock1 json t1), (extractAdData clock2 json t2).
  split; assumption.
Qed.

Lemma on_response_initial_sim clock1 clock2 max body :
  all_identified body ->
  sim same_undated (fun _ _ => True)
    (on_response_initial clock1 max body) (on_response_initial clock2 max body).
Proof.
  intros Hid. unfold on_response_initial.
  apply sim_try_catch; [|intros e; now apply sim_ret].
  destruct body as [json|]; [|now apply sim_ret].
  eapply sim_bind; [apply extracted_sim, Hid|].
  intros ads1 ads2 Hads. unfold capture_all.
  apply same_records_Forall2 in Hads.
  rewrite (Forall2_length _ _ _ Hads).
  destruct (0 <? length ads2)%nat.
  - apply sim_for_break with (RA := fun a1 a2 => undated a1 = undated a2).
    + exact Hads.
    + intros a1 a2. apply capture_sim.
  - apply sim_bind_lift. intros ? _. now apply sim_ret.
Qed.

Lemma on_response_incremental_sim clock1 clock2 pageId body :
  all_identified body ->
  sim same_undated (fun _ _ => True)
    (on_response_incremental clock1 pageId body)
    (on_response_incremental clock2 pageId body).
Proof.
  intros Hid. unfold on_response_incremental.
  apply sim_try_catch; [|intros e; now apply sim_ret].
  destruct body as [json|]; [|now apply sim_ret].
  eapply sim_bind; [apply extracted_sim, Hid|].
  intros ads1 ads2 Hads.
  apply sim_for_each with (RA := fun a1 a2 => undated a1 = undated a2).
  - now apply same_records_Forall2.
  - intros a1 a2 _. apply refresh_sim.
Qed.

Lemma responses_initial_sim clock1 clock2 max bodies :
  Forall all_identified bodies ->
  sim same_undated (fun _ _ => True)
    (for_each bodies (on_response_initial clock1 max))
    (for_each bodies (on_response_initial clock2 max)).
Proof.
  intros Hid. apply sim_for_each_same. intros body Hbody.
  apply on_response_initial_sim.
  rewrite List.Forall_forall in Hid. now apply Hid.
Qed.

(** *** The runs *)

Lemma renewed_sim r1 r2 :
  same_undated r1 r2 -> same_undated (renewed r1) (renewed r2).
Proof.
  unfold same_undated, undated_run, renewed, with_map. cbn [ads_map db].
  intros H. f_equal. exact (f_equal db H).
Qed.

Lemma turns_identified turns :
  Forall turn_identified turns ->
  turn_identified (hd idle turns) /\ Forall turn_identified (tl turns).
Proof.
  intros [|turn rest Hturn Hrest]; cbn [hd tl].
  - repeat constructor.
  - auto.
Qed.

Lemma scroll_sim clock1 clock2 max left :
  forall turns previousCount noChangeCount,
    Forall turn_identified turns ->
    sim same_undated (fun _ _ => True)
      (scroll clock1 max left turns previousCount noChangeCount)
      (scroll clock2 max left turns previousCount noChangeCount).
Proof.
  induction left as [|left IH]; intros turns previousCount noChangeCount Hid.
  - now apply sim_ret.
  - apply turns_identified in Hid as [[Hwaiting Hprobing] Hrest].
    cbn [scroll].
    eapply sim_bind; [apply sim_get_state|]. intros r1 r2 Hr.
    rewrite (same_undated_size r1 r2 Hr).
    destruct (below_cap max (map_size (ads_map r2))); [|now apply sim_ret].
    cbv zeta.
    eapply sim_bind; [apply responses_initial_sim, Hwaiting|]. intros _ _ _.
    eapply sim_bind; [apply sim_get_state|]. intros r1' r2' Hr'.
    rewrite (same_undated_size r1' r2' Hr').
    destruct (_ && _); [now apply sim_ret|].
    eapply sim_bind; [apply responses_initial_sim, Hprobing|]. intros _ _ _.
    destruct (_ && _); [now apply sim_ret|].
    apply IH, Hrest.
Qed.

Lemma savePageMetadata_sim m1 m2 :
  undated_metadata m1 = undated_metadata m2 ->
  sim same_undated (fun _ _ => True)
    (savePageMetadata m1) (savePageMetadata m2).
Proof.
  intros Hm. unfold savePageMetadata.
  assert (Hpage : meta_page_id m1 = meta_page_id m2)
    by exact (f_equal meta_page_id Hm).
  rewrite Hpage.
  destruct (meta_page_id m2); try (intros r1 r2 t1 t2 Hr; now split).
  apply sim_modify. unfold same_undated. intros r1 r2 Hr.
  unfold undated_run, with_db, undated_db in *.
  cbn [ads_map db ad_files metadata_files] in *.
  rewrite !fmap_insert, Hm. congruence.
Qed.

Lemma count_by_page pageId ads :
  length (List.filter (fun ad => strict_eq (page_id ad) pageId) ads)
  = length (List.filter (fun p => strict_eq p pageId) (List.map page_id ads)).
Proof.
  induction ads as [|ad ads IH]; [reflexivity|].
  cbn [List.filter List.map].
  destruct (strict_eq (page_id ad) pageId); cbn [length]; now rewrite IH.
Qed.

Lemma save_all_metadata_sim clock1 clock2 :
  sim same_undated (fun _ _ => True)
    (save_all_metadata clock1) (save_all_metadata clock2).
Proof.
  unfold save_all_metadata.
  eapply sim_bind; [apply sim_get_state|]. intros r1 r2 Hr. cbv zeta.
  rewrite (same_undated_pages r1 r2 Hr).
  apply sim_for_each_same. intros pageId _.
  eapply sim_bind; [apply sim_get_state|]. intros r1' r2' Hr'. cbv zeta.
  eapply sim_bind; [apply sim_now|]. intros stamp1 stamp2 _.
  apply savePageMetadata_sim. unfold undated_metadata.
  cbn [meta_page_id last_synced total_ads].
  now rewrite !count_by_page, (same_undated_pages r1' r2' Hr').
Qed.

Lemma initialSync_sim clock1 clock2 max on_load turns :
  Forall all_identified on_load ->
  Forall turn_identified turns ->
  sim same_undated (fun _ _ => True)
    (initialSync clock1 max on_load turns)
    (initialSync clock2 max on_load turns).
Proof.
  intros Hload Hturns. unfold initialSync.
  eapply sim_bind; [apply sim_modify, renewed_sim|]. intros _ _ _.
  eapply sim_bind; [apply responses_initial_sim, Hload|]. intros _ _ _.
  eapply sim_bind; [apply scroll_sim, Hturns|]. intros _ _ _.
  apply save_all_metadata_sim.
Qed.

Lemma incrementalSync_sim clock1 clock2 pageId responses :
  Forall all_identified responses ->
  sim same_undated (fun _ _ => True)
    (incrementalSync clock1 pageId responses)
    (incrementalSync clock2 pageId responses).
Proof.
  intros Hid. unfold incrementalSync.
  eapply sim_bind; [apply sim_modify, renewed_sim|]. intros _ _ _.
  eapply sim_bind with (RA := same_metadata).
  { unfold loadPageMetadata.
    eapply sim_bind; [apply sim_get_state|]. intros r1 r2 Hr.
    apply sim_ret. now apply same_undated_metadata. }
  intros m1 m2 Hm.
  eapply sim_bind with (RA := fun _ _ => True).
  { apply sim_for_each_same. intros body Hbody.
    apply on_response_incremental_sim.
    rewrite List.Forall_forall in Hid. now apply Hid. }
  intros _ _ _.
  eapply sim_bind; [apply sim_now|]. intros stamp1 stamp2 _.
  eapply sim_bind; [apply sim_get_state|]. intros r1 r2 Hr.
  apply savePageMetadata_sim. unfold undated_metadata.
  cbn [meta_page_id last_synced total_ads].
  rewrite (same_undated_size r1 r2 Hr).
  destruct m1 as [m1|], m2 as [m2|]; try discriminate Hm; [|reflexivity].
  injection Hm as _ Htotal. now rewrite Htotal.
Qed.

Lemma sim_outcome (m1 m2 : Eff Run unit) r reads1 reads2 :
  sim same_undated (fun _ _ => True) m1 m2 ->
  same_outcome (m1 r reads1) (m2 r reads2).
Proof.
  intros Hm. specialize (Hm r r reads1 reads2 eq_refl). unfold same_outcome.
  destruct (m1 r reads1) as [[[[]|e1] r1] t1],
           (m2 r reads2) as [[[[]|e2] r2] t2]; try contradiction; cbn.
  - split; [reflexivity|apply Hm].
  - destruct Hm as [-> Hr]. auto.
Qed.


(** ** The event loop under two clocks *)

Lemma on_run_sim {A} (RA : A -> A -> Prop) (m1 m2 : Eff Run A) :
  sim same_undated RA m1 m2 ->
  sim same_session RA (Async.on_run m1) (Async.on_run m2).
Proof.
  intros Hm s1 s2 t1 t2 [Hrun Hpool]. unfold Async.on_run.
  specialize (Hm (Async.run s1) (Async.run s2) t1 t2 Hrun).
  destruct (m1 (Async.run s1) t1) as [[[a1|e1] r1] t1'],
           (m2 (Async.run s2) t2) as [[[a2|e2] r2] t2']; try contradiction.
  - destruct Hm as [Ha Hr]. repeat split; assumption.
  - destruct Hm as [He Hr]. repeat split; assumption.
Qed.

Lemma kept_sim a1 a2 r1 r2 :
  undated a1 = undated a2 ->
  same_undated r1 r2 ->
  same_undated (kept a1 r1) (kept a2 r2).
Proof.
  intros Ha Hr. now destruct (kept_filed_sim a1 a2 EmptyString r1 r2 Ha Hr).
Qed.

Lemma same_records_cons a1 a2 rest1 rest2 :
  same_records (a1 :: rest1) (a2 :: rest2) ->
  undated a1 = undated a2 /\ same_records rest1 rest2.
Proof. unfold same_records. cbn [List.map]. intros H. split; congruence. Qed.

Lemma offer_sim max ads1 :
  forall ads2,
    same_records ads1 ads2 ->
    sim same_undated alike (Async.offer max ads1) (Async.offer max ads2).
Proof.
  induction ads1 as [|a1 ads1 IH]; intros [|a2 ads2] Hads;
    try discriminate Hads.
  - now apply sim_ret.
  - apply same_records_cons in Hads as [Ha Hads]. cbn [Async.offer].
    eapply sim_bind; [apply sim_get_state|]. intros r1 r2 Hr.
    rewrite (same_undated_size r1 r2 Hr).
    destruct (below_cap max (map_size (ads_map r2))); [|now apply IH].
    eapply sim_bind with (RA := fun _ _ => True).
    + apply sim_modify. intros s1 s2 Hs. now apply kept_sim.
    + intros _ _ _. apply sim_ret. split; assumption.
Qed.

Lemma saveAd_sim a1 a2 :
  undated a1 = undated a2 ->
  sim same_undated (fun _ _ => True) (saveAd a1) (saveAd a2).
Proof.
  intros Ha r1 r2 t1 t2 Hr. rewrite !saveAd_eq.
  rewrite (f_equal page_id Ha : page_id a1 = page_id a2).
  destruct (page_id a2); try (split; [reflexivity|exact Hr]).
  split; [exact I|]. unfold same_undated in *.
  now rewrite !undated_filed, Ha, Hr.
Qed.

Lemma written_sim a1 a2 rest1 rest2 :
  undated a1 = undated a2 ->
  same_records rest1 rest2 ->
  sim same_undated alike
    (try_catch (_ ← saveAd a1; mret (Async.Written rest1))
       (fun _ => mret Async.Finished))
    (try_catch (_ ← saveAd a2; mret (Async.Written rest2))
       (fun _ => mret Async.Finished)).
Proof.
  intros Ha Hrest. apply sim_try_catch.
  - eapply sim_bind; [now apply saveAd_sim|].
    intros _ _ _. now apply sim_ret.
  - intros e. now apply sim_ret.
Qed.

Lemma resume_initial_sim clock1 clock2 max h1 h2 :
  alike h1 h2 ->
  sim same_undated alike
    (Async.resume_initial clock1 max h1) (Async.resume_initial clock2 max h2).
Proof.
  intros Hh.
  destruct h1 as [body1|a1 rest1|e1 a1 rest1|a1 rest1|rest1|],
           h2 as [body2|a2 rest2|e2 a2 rest2|a2 rest2|rest2|];
    try contradiction; cbn [Async.resume_initial];
    try (now apply sim_ret).
  - destruct Hh as [<- Hid]. destruct body1 as [json|]; [|now apply sim_ret].
    eapply sim_bind; [apply extracted_sim, Hid|].
    intros ads1 ads2 Hads.
    rewrite (Forall2_length _ _ _ (same_records_Forall2 _ _ Hads)).
    destruct (0 <? length ads2)%nat; [now apply offer_sim|].
    apply sim_try_catch; [|intros e; now apply sim_ret].
    apply sim_bind_lift. intros ? _. now apply sim_ret.
  - destruct Hh as [Ha Hrest]. now apply written_sim.
  - eapply sim_bind; [apply sim_get_state|]. intros r1 r2 Hr.
    rewrite (same_undated_size r1 r2 Hr).
    destruct (cap_reached max (map_size (ads_map r2))); [now apply sim_ret|].
    now apply offer_sim.
Qed.

Lemma seek_alike pageId ads1 :
  forall ads2,
    same_records ads1 ads2 ->
    alike (Async.seek pageId ads1) (Async.seek pageId ads2).
Proof.
  induction ads1 as [|a1 ads1 IH]; intros [|a2 ads2] Hads;
    try discriminate Hads; [exact I|].
  apply same_records_cons in Hads as [Ha Hads]. cbn [Async.seek].
  rewrite (f_equal page_id Ha : page_id a1 = page_id a2).
  destruct (strict_eq (page_id a2) (VStr pageId)); [split; assumption|].
  now apply IH.
Qed.

Lemma resume_incremental_sim clock1 clock2 pageId h1 h2 :
  alike h1 h2 ->
  sim same_undated alike
    (Async.resume_incremental clock1 pageId h1)
    (Async.resume_incremental clock2 pageId h2).
Proof.
  intros Hh.
  destruct h1 as [body1|a1 rest1|e1 a1 rest1|a1 rest1|rest1|],
           h2 as [body2|a2 rest2|e2 a2 rest2|a2 rest2|rest2|];
    try contradiction; cbn [Async.resume_incremental].
  - destruct Hh as [<- Hid]. destruct body1 as [json|]; [|now apply sim_ret].
    eapply sim_bind; [apply extracted_sim, Hid|].
    intros ads1 ads2 Hads. apply sim_ret. now apply seek_alike.
  - destruct Hh as [Ha Hrest]. unfold loadAd.
    eapply sim_bind with (RA := fun e1 e2 => undated <$> e1 = undated <$> e2).
    + eapply sim_bind; [apply sim_get_state|]. intros r1 r2 Hr.
      apply sim_ret. rewrite (f_equal id Ha : id a1 = id a2).
      now apply same_undated_ad.
    + intros e1 e2 He. apply sim_ret. repeat split; assumption.
  - destruct Hh as (He & Ha & Hrest).
    rewrite <- (needs_update_undated e1 a1), <- (needs_update_undated e2 a2).
    rewrite He, Ha.
    destruct (needs_update _ _); [|apply sim_ret; now apply seek_alike].
    eapply sim_bind with (RA := fun _ _ => True).
    + apply sim_modify. intros s1 s2 Hs. now apply kept_sim.
    + intros _ _ _. apply sim_ret. split; assumption.
  - destruct Hh as [Ha Hrest]. now apply written_sim.
  - apply sim_ret. now apply seek_alike.
  - now apply sim_ret.
Qed.

Section Handlers.

Variables resume1 resume2 : Async.pending -> Eff Run Async.pending.

Hypothesis resume_sim :
  forall h1 h2, alike h1 h2 -> sim same_undated alike (resume1 h1) (resume2 h2).

Lemma handle_sim e :
  event_identified e ->
  sim same_session (fun _ _ => True)
    (Async.handle resume1 e) (Async.handle resume2 e).
Proof.
  intros He. destruct e as [body|n]; cbn [Async.handle].
  - apply sim_modify. intros s1 s2 [Hrun Hpool]. split; [exact Hrun|].
    cbn [Async.pool]. apply Forall2_app; [exact Hpool|].
    constructor; [|constructor]. split; [reflexivity|exact He].
  - eapply sim_bind; [apply sim_get_state|]. intros s1 s2 [Hrun Hpool].
    destruct (Async.pool s1 !! n) as [h1|] eqn:H1.
    + destruct (Forall2_lookup_l _ _ _ _ _ Hpool H1) as (h2 & -> & Hh).
      eapply sim_bind; [apply on_run_sim, resume_sim, Hh|].
      intros h1' h2' Hh'. apply sim_modify.
      intros s1' s2' [Hrun' Hpool']. split; [exact Hrun'|].
      cbn [Async.pool]. now apply Forall2_insert.
    + destruct (Async.pool s2 !! n) as [h2|] eqn:H2; [|now apply sim_ret].
      destruct (Forall2_lookup_r _ _ _ _ _ Hpool H2) as (h1 & H1' & _).
      congruence.
Qed.

Lemma happen_sim events :
  Forall event_identified events ->
  sim same_session (fun _ _ => True)
    (Async.happen resume1 events) (Async.happen resume2 events).
Proof.
  intros Hid. unfold Async.happen. apply sim_for_each_same.
  intros e He. apply handle_sim.
  rewrite List.Forall_forall in Hid. now apply Hid.
Qed.

End Handlers.

Lemma finally_sim {St A} (R : St -> St -> Prop) (RA : A -> A -> Prop)
  (m1 m2 : Eff St A) (after1 after2 : Eff St unit) :
  sim R RA m1 m2 ->
  sim R (fun _ _ => True) after1 after2 ->
  sim R RA (Async.finally m1 after1) (Async.finally m2 after2).
Proof.
  intros Hm Hafter s1 s2 t1 t2 Hs. unfold Async.finally.
  specialize (Hm s1 s2 t1 t2 Hs).
  destruct (m1 s1 t1) as [[c1 s1'] t1'], (m2 s2 t2) as [[c2 s2'] t2'].
  assert (R s1' s2') as Hs'.
  { destruct c1, c2; try contradiction; apply Hm. }
  specialize (Hafter s1' s2' t1' t2' Hs').
  destruct (after1 s1' t1') as [[[u1|e1] s1''] t1''],
           (after2 s2' t2') as [[[u2|e2] s2''] t2'']; try contradiction.
  - destruct c1, c2; try contradiction; split; try apply Hm; apply Hafter.
  - exact Hafter.
Qed.

Lemma settled_sim {St} (R : St -> St -> Prop) fulfilled :
  sim R (fun _ _ => True) (Async.settled fulfilled) (Async.settled fulfilled).
Proof.
  intros s1 s2 t1 t2 Hs. destruct fulfilled; cbn; auto.
Qed.

Lemma async_scroll_sim clock1 clock2 max left :
  forall turns previousCount noChangeCount,
    Forall (fun turn =>
              Forall event_identified (Async.while_waiting turn)
              /\ Forall event_identified (Async.while_probing turn)) turns ->
    sim same_session (fun _ _ => True)
      (Async.scroll clock1 max left turns previousCount noChangeCount)
      (Async.scroll clock2 max left turns previousCount noChangeCount).
Proof.
  induction left as [|left IH]; intros turns previousCount noChangeCount Hid.
  - now apply sim_ret.
  - assert (Forall event_identified (Async.while_waiting (hd Async.idle turns))
            /\ Forall event_identified
                 (Async.while_probing (hd Async.idle turns)))
      as [Hwaiting Hprobing].
    { destruct Hid as [|turn turns Hturn _]; [split; constructor|exact Hturn]. }
    assert (Forall (fun turn =>
                      Forall event_identified (Async.while_waiting turn)
                      /\ Forall event_identified (Async.while_probing turn))
              (tl turns)) as Hrest.
    { destruct Hid; [constructor|assumption]. }
    cbn [Async.scroll].
    eapply sim_bind; [apply sim_get_state|]. intros s1 s2 [Hrun Hpool].
    rewrite (same_undated_size _ _ Hrun).
    destruct (below_cap max (map_size (ads_map (Async.run s2))));
      [|now apply sim_ret].
    cbv zeta.
    eapply sim_bind.
    { apply happen_sim; [apply resume_initial_sim|exact Hwaiting]. }
    intros _ _ _.
    eapply sim_bind; [apply settled_sim|]. intros _ _ _.
    eapply sim_bind; [apply sim_get_state|]. intros s1' s2' [Hrun' Hpool'].
    rewrite (same_undated_size _ _ Hrun').
    destruct (_ && _); [now apply sim_ret|].
    eapply sim_bind.
    { apply happen_sim; [apply resume_initial_sim|exact Hprobing]. }
    intros _ _ _.
    destruct (Async.isAtBottom _) as [bottom|];
      [|exact (settled_sim same_session false)].
    destruct (_ && _); [now apply sim_ret|].
    apply IH, Hrest.
Qed.

Lemma metadata_loop_sim clock1 clock2 max pageIds :
  forall while_writing,
    Forall (Forall event_identified) while_writing ->
    sim same_session (fun _ _ => True)
      (Async.metadata_loop clock1 max pageIds while_writing)
      (Async.metadata_loop clock2 max pageIds while_writing).
Proof.
  induction pageIds as [|pageId pageIds IH]; intros while_writing Hid.
  - now apply sim_ret.
  - assert (Forall event_identified (hd [] while_writing)) as Hhere.
    { destruct Hid; [constructor|assumption]. }
    assert (Forall (Forall event_identified) (tl while_writing)) as Hlater.
    { destruct Hid; [constructor|assumption]. }
    cbn [Async.metadata_loop].
    eapply sim_bind; [apply sim_get_state|]. intros s1 s2 [Hrun Hpool].
    cbv zeta.
    eapply sim_bind; [apply sim_now|]. intros stamp1 stamp2 _.
    eapply sim_bind.
    { apply on_run_sim, savePageMetadata_sim. unfold undated_metadata.
      cbn [meta_page_id last_synced total_ads].
      now rewrite !count_by_page, (same_undated_pages _ _ Hrun). }
    intros _ _ _.
    eapply sim_bind.
    { apply happen_sim; [apply resume_initial_sim|exact Hhere]. }
    intros _ _ _. apply IH, Hlater.
Qed.

Lemma async_initialSync_sim clock1 clock2 max schedule :
  schedule_identified schedule ->
  sim same_session (fun _ _ => True)
    (Async.initialSync clock1 max schedule)
    (Async.initialSync clock2 max schedule).
Proof.
  intros (Hload & Hturns & Hwriting & Hclosing). unfold Async.initialSync.
  eapply sim_bind.
  { apply sim_modify. intros s1 s2 [Hrun _]. split; [|constructor].
    now apply renewed_sim. }
  intros _ _ _.
  eapply sim_bind; [apply settled_sim|]. intros _ _ _.
  apply finally_sim.
  2:{ eapply sim_bind; [|intros _ _ _; apply settled_sim].
      apply happen_sim; [apply resume_initial_sim|exact Hclosing]. }
  eapply sim_bind.
  { apply happen_sim; [apply resume_initial_sim|exact Hload]. }
  intros _ _ _.
  eapply sim_bind; [apply settled_sim|]. intros _ _ _.
  eapply sim_bind; [apply async_scroll_sim, Hturns|]. intros _ _ _.
  unfold Async.save_all_metadata.
  eapply sim_bind; [apply sim_get_state|]. intros s1 s2 [Hrun Hpool].
  cbv zeta. rewrite (same_undated_pages _ _ Hrun).
  apply metadata_loop_sim, Hwriting.
Qed.

Lemma async_incrementalSync_sim clock1 clock2 pageId visit :
  visit_identified visit ->
  sim same_session (fun _ _ => True)
    (Async.incrementalSync clock1 pageId visit)
    (Async.incrementalSync clock2 pageId visit).
Proof.
  intros (Hscrolling & Hstamping & Hleaving). unfold Async.incrementalSync.
  eapply sim_bind.
  { apply sim_modify. intros s1 s2 [Hrun _]. split; [|constructor].
    now apply renewed_sim. }
  intros _ _ _.
  eapply sim_bind with (RA := same_metadata).
  { apply on_run_sim. unfold loadPageMetadata.
    eapply sim_bind; [apply sim_get_state|]. intros r1 r2 Hr.
    apply sim_ret. now apply same_undated_metadata. }
  intros m1 m2 Hm.
  eapply sim_bind; [apply settled_sim|]. intros _ _ _.
  apply finally_sim.
  2:{ eapply sim_bind; [|intros _ _ _; apply settled_sim].
      apply happen_sim; [apply resume_incremental_sim|exact Hleaving]. }
  eapply sim_bind.
  { apply happen_sim; [apply resume_incremental_sim|exact Hscrolling]. }
  intros _ _ _.
  eapply sim_bind; [apply settled_sim|]. intros _ _ _.
  eapply sim_bind; [apply sim_now|]. intros stamp1 stamp2 _.
  eapply sim_bind; [apply sim_get_state|]. intros s1 s2 [Hrun Hpool].
  eapply sim_bind.
  { apply on_run_sim, savePageMetadata_sim. unfold undated_metadata.
    cbn [meta_page_id last_synced total_ads].
    rewrite (same_undated_size _ _ Hrun).
    destruct m1 as [m1|], m2 as [m2|]; try discriminate Hm; [|reflexivity].
    injection Hm as _ Htotal. now rewrite Htotal. }
  intros _ _ _.
  apply happen_sim; [apply resume_incremental_sim|exact Hstamping].
Qed.

Lemma sim_end (m1 m2 : Eff Async.Session unit) r reads1 reads2 :
  sim same_session (fun _ _ => True) m1 m2 ->
  same_end (m1 (at_rest r) reads1) (m2 (at_rest r) reads2).
Proof.
  intros Hm.
  specialize (Hm (at_rest r) (at_rest r) reads1 reads2
                (conj eq_refl (List.Forall2_nil _))).
  unfold same_end.
  destruct (m1 (at_rest r) reads1) as [[[[]|e1] s1] t1],
           (m2 (at_rest r) reads2) as [[[[]|e2] s2] t2];
    try contradiction; cbn.
  - split; [reflexivity|apply Hm].
  - destruct Hm as [-> Hs]. auto.
Qed.

(** ** Determinism: claim C9 *)

(** C9, as it stands, fails, on both counts of timing.  The same
    response, under two clocks, yields records that differ in
    [fetched_at], hence different maps and different files.  And under
    one clock, with a cap of two, the same two responses leave the ads A
    and B in the map when the second arrives after the handler of the
    first has finished, and the ads A and C when it arrives while that
    handler is writing the file of A. *)
Lemma output_depends_on_timing :
  let found := {| ad_files := ∅; metadata_files := ∅ |} in
  let session clock max schedule :=
    (Async.initialSync clock max schedule (at_rest (fresh found)) 0%nat).1.2 in
  (extractAdData (frozen 1000) first_response 0).1
  <> (extractAdData (frozen 2000) first_response 0).1
  /\ ads_map (Async.run (session (frozen 1000) None in_turn))
     <> ads_map (Async.run (session (frozen 2000) None in_turn))
  /\ ad_files (db (Async.run (session (frozen 1000) None in_turn)))
       !! ("P", "A")
     <> ad_files (db (Async.run (session (frozen 2000) None in_turn)))
          !! ("P", "A")
  /\ List.map fst
       (ads_map (Async.run (session (frozen 1000) (Some 2) in_turn)))
     = [VStr "A"; VStr "B"]
  /\ List.map fst
       (ads_map (Async.run (session (frozen 1000) (Some 2) overlapping)))
     = [VStr "A"; VStr "C"].
Proof.
  vm_compute. repeat split; discriminate.
Qed.

(** C9, amended.  When every ad-like object of every response carries an
    identity of its own, two runs given the same responses, the same map
    and disk and the same schedule (the points of the run at which the
    responses arrive and the suspended handlers are resumed, what the
    page answers about its bottom, and which calls into the browser
    fail) agree on everything but the instants
    read from the clock: the records extracted agree up to [fetched_at],
    and the runs of [initialSync] and of [incrementalSync] end alike, with
    maps, disks and handlers in flight that agree up to [fetched_at] and
    [last_synced]. *)
Theorem runs_agree_up_to_instants :
  forall (clock1 clock2 : nat -> Z),
    (forall response reads1 reads2,
        all_identified (Some response) ->
        same_records (extractAdData clock1 response reads1).1
                     (extractAdData clock2 response reads2).1)
    /\ (forall max schedule r reads1 reads2,
           schedule_identified schedule ->
           same_end
             (Async.initialSync clock1 max schedule (at_rest r) reads1)
             (Async.initialSync clock2 max schedule (at_rest r) reads2))
    /\ (forall pageId visit r reads1 reads2,
           visit_identified visit ->
           same_end
             (Async.incrementalSync clock1 pageId visit (at_rest r) reads1)
             (Async.incrementalSync clock2 pageId visit (at_rest r) reads2)).
Proof.
  intros clock1 clock2. split; [|split].
  - intros response reads1 reads2 Hid. now apply extractAdData_sim.
  - intros max schedule r reads1 reads2 Hid.
    now apply sim_end, async_initialSync_sim.
  - intros pageId visit r reads1 reads2 Hid.
    now apply sim_end, async_incrementalSync_sim.
Qed.

Lemma overlapping_handlers_under_two_clocks :
  let found := {| ad_files := ∅; metadata_files := ∅ |} in
  schedule_identified overlapping
  /\ same_records (extractAdData (frozen 1000) first_response 0).1
                  (extractAdData (frozen 2000) first_response 5).1
  /\ same_end
       (Async.initialSync (frozen 1000) (Some 2) overlapping
          (at_rest (fresh found)) 0%nat)
       (Async.initialSync (ticking 2000) (Some 2) overlapping
          (at_rest (fresh found)) 7%nat).
Proof.
  assert (Hfirst : all_identified (Some first_response)).
  { repeat (constructor; [intros _; split; reflexivity|]). constructor. }
  assert (Hsecond : all_identified (Some second_response)).
  { repeat (constructor; [intros _; split; reflexivity|]). constructor. }
  assert (Hid : schedule_identified overlapping).
  { repeat split; repeat constructor; assumption. }
  split; [exact Hid|]. split.
  - exact (proj1 (runs_agree_up_to_instants (frozen 1000) (frozen 2000))
             _ 0%nat 5%nat Hfirst).
  - exact (proj1 (proj2 (runs_agree_up_to_instants (frozen 1000)
                           (ticking 2000)))
             (Some 2) overlapping _ 0%nat 7%nat Hid).
Defined.

(** * Further properties of the code *)

(** ** The instants of an extraction *)

Lemma read_between_later clock lo hi hi' ads :
  (hi <= hi')%nat ->
  Forall (read_between clock lo hi) ads ->
  Forall (read_between clock lo hi') ads.
Proof.
  intros Hle Hads. eapply Forall_impl; [exact Hads|].
  intros ad (k & Hk & Hstamp). exists k. split; [lia|exact Hstamp].
Qed.

Lemma process_result_stamps clock lo x ads reads :
  (lo <= reads)%nat ->
  Forall (read_between clock lo reads) ads ->
  exists ads' reads',
    process_result clock x ads reads = (Normal tt, ads', reads')
    /\ (reads <= reads')%nat
    /\ Forall (read_between clock lo reads') ads'.
Proof.
  intros Hlo Hads. rewrite process_result_eq.
  destruct (truthy x); [|eexists _, _; split; [reflexivity|split; [lia|exact Hads]]].
  destruct (truthy (own_identity x)); destruct (negb _);
    eexists _, _; (split; [reflexivity|]); (split; [lia|]);
    rewrite ?Forall_app; repeat split;
    try (eapply read_between_later; [|exact Hads]; lia).
  - repeat constructor. exists reads. split; [lia|reflexivity].
  - repeat constructor. exists (S reads). split; [lia|reflexivity].
Qed.

Lemma for_each_stamps {A} clock lo (body : A -> Eff (list AdData) unit) :
  (forall x ads reads,
      (lo <= reads)%nat ->
      Forall (read_between clock lo reads) ads ->
      match body x ads reads with
      | (_, ads', reads') =>
          (reads <= reads')%nat /\ Forall (read_between clock lo reads') ads'
      end) ->
  forall xs ads reads,
    (lo <= reads)%nat ->
    Forall (read_between clock lo reads) ads ->
    match for_each xs body ads reads with
    | (_, ads', reads') =>
        (reads <= reads')%nat /\ Forall (read_between clock lo reads') ads'
    end.
Proof.
  intros Hbody. induction xs as [|x xs IH]; intros ads reads Hlo Hads.
  - cbn. split; [lia|exact Hads].
  - cbn [for_each]. rewrite bind_unfold.
    specialize (Hbody x ads reads Hlo Hads).
    destruct (body x ads reads) as [[[u|e] ads1] reads1].
    + destruct Hbody as [Hle Hads1].
      specialize (IH ads1 reads1 ltac:(lia) Hads1).
      destruct (for_each xs body ads1 reads1) as [[c ads2] reads2].
      split; [lia|apply IH].
    + exact Hbody.
Qed.

Lemma process_edge_stamps clock lo edge ads reads :
  (lo <= reads)%nat ->
  Forall (read_between clock lo reads) ads ->
  match process_edge clock edge ads reads with
  | (_, ads', reads') =>
      (reads <= reads')%nat /\ Forall (read_between clock lo reads') ads'
  end.
Proof.
  intros Hlo Hads. unfold process_edge.
  destruct (negb (truthy (opt_get edge "node"))); [cbn; split; [lia|exact Hads]|].
  cbv zeta. rewrite bind_unfold.
  destruct (get (opt_get edge "node") "collated_results") as [c|e];
    cbn [lift]; [|split; [lia|exact Hads]].
  rewrite bind_unfold.
  destruct (iterate (or c (VArr []))) as [results|e];
    cbn [lift]; [|split; [lia|exact Hads]].
  apply for_each_stamps; [|exact Hlo|exact Hads].
  intros x ads0 reads0 Hlo0 Hads0.
  destruct (process_result_stamps clock lo x ads0 reads0 Hlo0 Hads0)
    as (ads' & reads' & -> & Hle & Hads').
  split; assumption.
Qed.

(** X3. Whatever the response, every record [extractAdData] returns has
    for [fetched_at] an instant read from the clock during that call, and
    the count of reads never goes back. *)
Theorem fetched_at_is_read_during_the_call :
  forall (clock : nat -> Z) (response : value) (reads : nat),
    (reads <= (extractAdData clock response reads).2)%nat
    /\ Forall (read_between clock reads (extractAdData clock response reads).2)
         (extractAdData clock response reads).1.
Proof.
  intros clock response reads.
  unfold extractAdData. rewrite try_catch_unfold, extract_block_edges.
  destruct (negb (truthy (lookup_path ["data"] response)));
    [cbn; split; [lia|constructor]|].
  cbv zeta.
  destruct (negb (truthy (lookup_path anchor response))
            || negb (isArray (lookup_path anchor response)));
    [cbn; split; [lia|constructor]|].
  rewrite bind_unfold.
  destruct (iterate (lookup_path anchor response)) as [es|e];
    cbn [lift]; [|cbn; split; [lia|constructor]].
  pose proof (for_each_stamps clock reads (process_edge clock)
                (process_edge_stamps clock reads) es [] reads
                (Nat.le_refl _) (List.Forall_nil _)) as H.
  destruct (for_each es (process_edge clock) [] reads) as [[[u|e] ads] t];
    exact H.
Qed.

(** ** Persistence *)

(** X6. The map tells identities apart by value and type, the disk by
    their text: a record whose id is an integer (one that JavaScript
    renders digit by digit) and a record whose id is the string of its
    digits, of one page with a plain name, are both kept in the map,
    while their one file holds the later of them. *)
Theorem ids_that_render_alike_share_a_file :
  forall (n : Z) (a b : AdData) (dir : string) (found : Database)
         (reads : nat),
    - 2 ^ 53 < n < 2 ^ 53 ->
    id a = VNum n ->
    id b = VStr (pretty n) ->
    page_id a = VStr dir ->
    page_id b = VStr dir ->
    plain_dir dir = true ->
    exists r',
      for_break [a; b] (capture None) (fresh found) reads
      = (Normal tt, r', reads)
      /\ map_values (ads_map r') = [a; b]
      /\ loadAd dir (id a) r' reads = (Normal (Some b), r', reads)
      /\ loadAd dir (id b) r' reads = (Normal (Some b), r', reads).
Proof.
  intros n a b dir found reads Hsafe Hnumber Hdigits Ha Hb Hdir.
  assert (Hdiff : same_value_zero (id a) (id b) = false)
    by now rewrite Hnumber, Hdigits.
  assert (Htext : to_string (id a) = to_string (id b))
    by now rewrite Hnumber, Hdigits.
  eexists. cbn [for_break]. rewrite !bind_unfold, capture_eq.
  cbn [below_cap cap_reached]. rewrite Ha.
  rewrite !bind_unfold, capture_eq. cbn [below_cap cap_reached]. rewrite Hb.
  rewrite ret_unfold. split; [reflexivity|].
  unfold loadAd. rewrite !bind_unfold.
  cbn [get_state filed kept fresh with_db with_map db ads_map ad_files
       map_set].
  rewrite Hdiff. cbn [map_set map_values List.map snd].
  rewrite !ret_unfold, Htext, lookup_insert_eq. auto.
Qed.

Lemma the_number_5_and_the_string_5 :
  let a := record_of (VObj [("id", VNum 5); ("page_id", VStr "P")])
             (VNum 5) 0 in
  let b := record_of (VObj [("id", VStr "5"); ("page_id", VStr "P")])
             (VStr "5") 1 in
  exists r',
    for_break [a; b] (capture None) (fresh (mkDatabase ∅ ∅)) 0%nat
    = (Normal tt, r', 0%nat)
    /\ map_values (ads_map r') = [a; b]
    /\ loadAd "P" (VNum 5) r' 0%nat = (Normal (Some b), r', 0%nat)
    /\ loadAd "P" (VStr "5") r' 0%nat = (Normal (Some b), r', 0%nat).
Proof.
  refine (ids_that_render_alike_share_a_file 5
            (record_of (VObj [("id", VNum 5); ("page_id", VStr "P")])
               (VNum 5) 0)
            (record_of (VObj [("id", VStr "5"); ("page_id", VStr "P")])
               (VStr "5") 1)
            "P" (mkDatabase ∅ ∅) 0%nat _ eq_refl eq_refl eq_refl eq_refl
            eq_refl).
  lia.
Defined.

(** ** [initialSync] *)

(** X7. A response whose first record has a page that is no string (a
    number, say), handled below the cap: the record enters the map, no
    file is written for it, the records after it in the response are
    dropped, and the handler completes as if nothing had failed. *)
Theorem record_without_a_directory_ends_its_batch :
  forall (clock : nat -> Z) (max : cap) (json : value) (r : Run)
         (reads reads' : nat) (ad : AdData) (rest : list AdData),
    extractAdData clock json reads = (ad :: rest, reads') ->
    ~ is_string (page_id ad) ->
    below_cap max (map_size (ads_map r)) = true ->
    on_response_initial clock max (Some json) r reads
    = (Normal tt, kept ad r, reads').
Proof.
  intros clock max json r reads reads' ad rest Hads Hpage Hbelow.
  rewrite on_response_initial_feeds, Hads. cbn [fst snd for_break].
  rewrite try_catch_unfold, bind_unfold, capture_eq, Hbelow.
  destruct (page_id ad) as [| | | |dir| |]; try reflexivity.
  destruct Hpage. now exists dir.
Qed.

Lemma a_numbered_page_ends_the_batch :
  let json :=
    response_of [edge_of (VArr [numbered_ad "A" 7; raw_ad "B" "P" true])] in
  let ad := record_of (numbered_ad "A" 7) (VStr "A") 0 in
  on_response_initial (ticking 0) None (Some json) (fresh (mkDatabase ∅ ∅))
    0%nat
  = (Normal tt, kept ad (fresh (mkDatabase ∅ ∅)), 4%nat).
Proof.
  refine (record_without_a_directory_ends_its_batch (ticking 0) None
            (response_of [edge_of (VArr [numbered_ad "A" 7;
                                         raw_ad "B" "P" true])])
            (fresh (mkDatabase ∅ ∅)) 0%nat 4%nat
            (record_of (numbered_ad "A" 7) (VStr "A") 0)
            [record_of (raw_ad "B" "P" true) (VStr "B") 2] _ _ eq_refl).
  - reflexivity.
  - intros [s Hs]. discriminate Hs.
Defined.






(** Loops over bodies that agree run alike. *)
Lemma for_each_ext {St A} (f g : A -> Eff St unit) xs :
  (forall x s t, f x s t = g x s t) ->
  forall s t, for_each xs f s t = for_each xs g s t.
Proof.
  intros Hfg. induction xs as [|x xs IH]; intros s t; [reflexivity|].
  cbn [for_each]. rewrite !bind_unfold, Hfg.
  destruct (g x s t) as [[[u|e] s'] t']; [apply IH|reflexivity].
Qed.

Lemma for_break_ext {St A} (f g : A -> Eff St bool) xs :
  (forall x s t, f x s t = g x s t) ->
  forall s t, for_break xs f s t = for_break xs g s t.
Proof.
  intros Hfg. induction xs as [|x xs IH]; intros s t; [reflexivity|].
  cbn [for_break]. rewrite !bind_unfold, Hfg.
  destruct (g x s t) as [[[[|]|e] s'] t']; [reflexivity|apply IH|reflexivity].
Qed.

Lemma capture_cap_zero ad r reads :
  capture (Some 0) ad r reads = capture None ad r reads.
Proof. rewrite !capture_eq. reflexivity. Qed.

Lemma on_response_initial_cap_zero clock body r reads :
  on_response_initial clock (Some 0) body r reads
  = on_response_initial clock None body r reads.
Proof.
  unfold on_response_initial. rewrite !try_catch_unfold.
  destruct body as [json|]; [|reflexivity].
  rewrite !bind_unfold.
  destruct (extracted clock json r reads) as [[[ads|e] r'] reads'];
    [|reflexivity].
  unfold capture_all. destruct (0 <? length ads)%nat; [|reflexivity].
  now rewrite (for_break_ext _ _ ads capture_cap_zero).
Qed.

Lemma scroll_cap_zero clock left :
  forall turns previousCount noChangeCount r reads,
    scroll clock (Some 0) left turns previousCount noChangeCount r reads
    = scroll clock None left turns previousCount noChangeCount r reads.
Proof.
  induction left as [|left IH]; intros turns previousCount noChangeCount r reads;
    [reflexivity|].
  cbn [scroll]. rewrite !bind_unfold. cbn [get_state below_cap Z.eqb orb].
  cbv zeta. rewrite !bind_unfold.
  rewrite (for_each_ext _ _ _ (on_response_initial_cap_zero clock)).
  destruct (for_each (while_waiting (hd idle turns))
              (on_response_initial clock None) r reads)
    as [[[u|e] r1] reads1]; [|reflexivity].
  rewrite !bind_unfold. cbn [get_state].
  destruct (_ && _); [reflexivity|].
  rewrite !bind_unfold.
  rewrite (for_each_ext _ _ _ (on_response_initial_cap_zero clock)).
  destruct (for_each (while_probing (hd idle turns))
              (on_response_initial clock None) r1 reads1)
    as [[[u'|e] r2] reads2]; [|reflexivity].
  destruct (_ && _); [reflexivity|]. apply IH.
Qed.

(** X8. A cap of 0 is no cap: [initialSync] called with [max = 0] does
    what it does when [max] is left out, whatever the page answers. *)
Theorem cap_of_zero_is_no_cap :
  forall (clock : nat -> Z) (on_load : list (option value))
         (turns : list Turn) (r : Run) (reads : nat),
    initialSync clock (Some 0) on_load turns r reads
    = initialSync clock None on_load turns r reads.
Proof.
  intros clock on_load turns r reads.
  rewrite !initialSync_phases. unfold capture_phase. rewrite !bind_unfold.
  rewrite (for_each_ext _ _ _ (on_response_initial_cap_zero clock)).
  destruct (for_each on_load (on_response_initial clock None) (renewed r) reads)
    as [[[u|e] r1] reads1]; [|reflexivity].
  now rewrite scroll_cap_zero.
Qed.

(** What each handled body keeps, the handlers of a run keep, and no
    error leaves them. *)
Section InitialRun.

Variable clock : nat -> Z.
Variable max : cap.
Variable I : Run -> Prop.
Variable B : option value -> Prop.

Hypothesis handler_keeps :
  forall body, B body ->
    triple I (on_response_initial clock max body) (fun _ => I)
      (fun _ => False).

Lemma responses_keep bodies :
  Forall B bodies ->
  triple I (for_each bodies (on_response_initial clock max)) (fun _ => I)
    (fun _ => False).
Proof.
  intros Hbodies. apply triple_for_each. intros body Hin.
  apply handler_keeps. rewrite List.Forall_forall in Hbodies. now apply Hbodies.
Qed.

Lemma scroll_keeps_with left :
  forall turns previousCount noChangeCount,
    Forall (fun turn => Forall B (while_waiting turn)
                        /\ Forall B (while_probing turn)) turns ->
    triple I (scroll clock max left turns previousCount noChangeCount)
      (fun _ => I) (fun _ => False).
Proof.
  induction left as [|left IH]; intros turns previousCount noChangeCount Hturns.
  - apply triple_ret. auto.
  - assert (Forall B (while_waiting (hd idle turns))
            /\ Forall B (while_probing (hd idle turns))) as [Hwait Hprobe].
    { destruct Hturns as [|turn turns Hturn _]; [split; constructor|exact Hturn]. }
    assert (Forall (fun turn => Forall B (while_waiting turn)
                                /\ Forall B (while_probing turn)) (tl turns))
      as Hlater.
    { destruct Hturns; [constructor|assumption]. }
    cbn [scroll].
    eapply triple_bind with (R := fun _ => I); [apply triple_get_state; auto|].
    intros r. cbv beta.
    destruct (below_cap max (map_size (ads_map r))); [|apply triple_ret; auto].
    cbv zeta.
    eapply triple_bind with (R := fun _ => I); [now apply responses_keep|].
    intros ?.
    eapply triple_bind with (R := fun _ => I); [apply triple_get_state; auto|].
    intros r'. cbv beta.
    destruct (_ && _); [apply triple_ret; auto|].
    eapply triple_bind with (R := fun _ => I); [now apply responses_keep|].
    intros ?.
    destruct (_ && _); [apply triple_ret; auto|].
    now apply IH.
Qed.

Lemma capture_phase_keeps on_load turns :
  Forall B on_load ->
  Forall (fun turn => Forall B (while_waiting turn)
                      /\ Forall B (while_probing turn)) turns ->
  triple I (capture_phase clock max on_load turns) (fun _ => I)
    (fun _ => False).
Proof.
  intros Hload Hturns. unfold capture_phase.
  eapply triple_bind with (R := fun _ => I); [now apply responses_keep|].
  intros ?. now apply scroll_keeps_with.
Qed.

End InitialRun.

(** A handler keeps what the captures of its records keep. *)
Lemma handler_keeps_of_captures clock max (I : Run -> Prop)
  (P : AdData -> Prop) body :
  match body with
  | Some json => forall reads, Forall P (extractAdData clock json reads).1
  | None => True
  end ->
  (forall ad, P ad -> triple I (capture max ad) (fun _ => I) I) ->
  triple I (on_response_initial clock max body) (fun _ => I) (fun _ => False).
Proof.
  intros Hbody Hcapture. unfold on_response_initial.
  apply triple_try_catch with (E' := I).
  - destruct body as [json|]; [|apply triple_ret; auto].
    eapply triple_bind.
    + eapply triple_weaken.
      * apply (extracted_triple clock I (Forall P)). exact Hbody.
      * auto.
      * intros a s H. exact H.
      * intros s [].
    + intros ads. cbv beta. intros s t [Hs Hads].
      now apply (capture_all_keeps max I P).
  - intros e. apply triple_ret. auto.
Qed.


Lemma triple_outcome {A} (I : Run -> Prop) (m : Eff Run A) r reads :
  triple I m (fun _ => I) (fun _ => False) ->
  I r ->
  exists a r' reads', m r reads = (Normal a, r', reads') /\ I r'.
Proof.
  intros Hm Hr. specialize (Hm r reads Hr).
  destruct (m r reads) as [[[a|e] r'] reads']; [eauto|contradiction].
Qed.



Lemma scroll_firstn clock max left :
  forall turns previousCount noChangeCount r reads,
    scroll clock max left turns previousCount noChangeCount r reads
    = scroll clock max left (firstn left turns) previousCount noChangeCount
        r reads.
Proof.
  induction left as [|left IH]; intros turns previousCount noChangeCount r reads;
    [reflexivity|].
  destruct turns as [|turn turns]; [reflexivity|].
  cbn [scroll firstn hd tl]. rewrite !bind_unfold. cbn [get_state].
  destruct (below_cap max (map_size (ads_map r))); [|reflexivity].
  cbv zeta. rewrite !bind_unfold.
  destruct (for_each (while_waiting turn) (on_response_initial clock max)
              r reads) as [[[u|e] r1] reads1]; [|reflexivity].
  rewrite !bind_unfold. cbn [get_state].
  destruct (_ && _); [reflexivity|].
  rewrite !bind_unfold.
  destruct (for_each (while_probing turn) (on_response_initial clock max)
              r1 reads1) as [[[u'|e] r2] reads2]; [|reflexivity].
  destruct (_ && _); [reflexivity|]. apply IH.
Qed.

(** X10. [initialSync] scrolls 20 times at most: what the page would
    answer from the 21st turn on has no part in the outcome. *)
Theorem turns_after_the_twentieth_are_never_made :
  forall (clock : nat -> Z) (max : cap) (on_load : list (option value))
         (turns : list Turn) (r : Run) (reads : nat),
    initialSync clock max on_load turns r reads
    = initialSync clock max on_load (firstn 20 turns) r reads.
Proof.
  intros clock max on_load turns r reads.
  rewrite !initialSync_phases. unfold capture_phase. rewrite !bind_unfold.
  destruct (for_each on_load (on_response_initial clock max) (renewed r) reads)
    as [[[u|e] r1] reads1]; [|reflexivity].
  now rewrite (scroll_firstn clock max maxScrollAttempts turns).
Qed.

Lemma scroll_quiet clock max left :
  forall quiet rest previousCount noChangeCount r reads,
    Forall barren quiet ->
    (1 <= length quiet)%nat ->
    (if (map_size (ads_map r) =? previousCount)%nat
     then 5 <= noChangeCount + length quiet
     else 6 <= length quiet)%nat ->
    scroll clock max left (quiet ++ rest) previousCount noChangeCount r reads
    = (Normal tt, r, reads).
Proof.
  induction left as [|left IH];
    intros quiet rest previousCount noChangeCount r reads Hquiet Hone Hlen;
    [reflexivity|].
  destruct Hquiet as [|turn quiet [Hwait Hprobe] Hquiet]; [cbn in Hone; lia|].
  cbn [scroll app hd tl]. rewrite bind_unfold. cbn [get_state].
  destruct (below_cap max (map_size (ads_map r))); [|reflexivity].
  cbv zeta. rewrite Hwait, Hprobe. cbn [for_each].
  rewrite bind_unfold, ret_unfold, bind_unfold. cbn [get_state].
  cbn [length] in Hlen.
  destruct (Nat.eqb_spec (map_size (ads_map r)) previousCount) as [Hsame|Hnew];
    cbn [andb].
  - destruct (Nat.leb_spec 5 (S noChangeCount)); [reflexivity|].
    rewrite bind_unfold, ret_unfold.
    destruct (isAtBottom turn && _); [reflexivity|].
    apply IH; [exact Hquiet|lia|].
    rewrite <- Hsame, Nat.eqb_refl. lia.
  - rewrite bind_unfold, ret_unfold. rewrite andb_false_r.
    apply IH; [exact Hquiet|lia|].
    rewrite Nat.eqb_refl. lia.
Qed.

Lemma scroll_quiet_at_bottom clock max left :
  forall quiet rest previousCount noChangeCount r reads,
    Forall (fun turn => barren turn /\ isAtBottom turn = true) quiet ->
    (1 <= length quiet)%nat ->
    (if (map_size (ads_map r) =? previousCount)%nat
     then 2 <= noChangeCount + length quiet
     else 3 <= length quiet)%nat ->
    scroll clock max left (quiet ++ rest) previousCount noChangeCount r reads
    = (Normal tt, r, reads).
Proof.
  induction left as [|left IH];
    intros quiet rest previousCount noChangeCount r reads Hquiet Hone Hlen;
    [reflexivity|].
  destruct Hquiet as [|turn quiet [[Hwait Hprobe] Hbottom] Hquiet];
    [cbn in Hone; lia|].
  cbn [scroll app hd tl]. rewrite bind_unfold. cbn [get_state].
  destruct (below_cap max (map_size (ads_map r))); [|reflexivity].
  cbv zeta. rewrite Hwait, Hprobe, Hbottom. cbn [for_each].
  rewrite bind_unfold, ret_unfold, bind_unfold. cbn [get_state].
  cbn [length] in Hlen.
  destruct (Nat.eqb_spec (map_size (ads_map r)) previousCount) as [Hsame|Hnew];
    cbn [andb].
  - destruct (Nat.leb_spec 5 (S noChangeCount)); [reflexivity|].
    rewrite bind_unfold, ret_unfold.
    destruct (Nat.leb_spec 2 (S noChangeCount)); [reflexivity|].
    apply IH; [exact Hquiet|lia|].
    rewrite <- Hsame, Nat.eqb_refl. lia.
  - rewrite bind_unfold, ret_unfold. cbn [Nat.leb].
    apply IH; [exact Hquiet|lia|].
    rewrite Nat.eqb_refl. lia.
Qed.

(** X11. The scroll loop gives up on a page that has gone quiet: after
    six turns in a row in which no response is handled, or three such
    turns with the bottom of the page reached, it ends with the map and
    the database as they were, and nothing the page would answer later is
    seen; this from any count of attempts left and any state of its
    counters. *)
Theorem quiet_turns_end_the_scroll :
  forall (clock : nat -> Z) (max : cap) (left : nat)
         (quiet rest : list Turn) (previousCount noChangeCount : nat)
         (r : Run) (reads : nat),
    Forall barren quiet ->
    (length quiet = 6%nat
     \/ (length quiet = 3%nat
         /\ Forall (fun turn => isAtBottom turn = true) quiet)) ->
    scroll clock max left (quiet ++ rest) previousCount noChangeCount r reads
    = (Normal tt, r, reads).
Proof.
  intros clock max left quiet rest previousCount noChangeCount r reads
    Hquiet [Hsix|[Hthree Hbottom]].
  - apply scroll_quiet; [exact Hquiet|lia|].
    destruct (_ =? _)%nat; lia.
  - apply scroll_quiet_at_bottom; [|lia|destruct (_ =? _)%nat; lia].
    rewrite List.Forall_forall in *. intros turn Hin. split; auto.
Qed.

Lemma six_idle_turns_hide_a_late_answer :
  let late :=
    {| while_waiting :=
         [Some (response_of [edge_of (VArr [raw_ad "A" "P" true])])];
       isAtBottom := false;
       while_probing := [] |} in
  scroll (ticking 0) None maxScrollAttempts
    ([idle; idle; idle; idle; idle; idle] ++ [late]) 0 0
    (fresh (mkDatabase ∅ ∅)) 0%nat
  = (Normal tt, fresh (mkDatabase ∅ ∅), 0%nat).
Proof.
  refine (quiet_turns_end_the_scroll (ticking 0) None maxScrollAttempts
            [idle; idle; idle; idle; idle; idle] _ 0%nat 0%nat
            (fresh (mkDatabase ∅ ∅)) 0%nat _ (or_introl eq_refl)).
  repeat constructor.
Defined.

(** *** The count of clock reads only grows *)

Lemma steady_ret {St A} (a : A) : steady (mret (M := Eff St) a).
Proof. intros s t. cbn. lia. Qed.

Lemma steady_bind {St A B} (m : Eff St A) (f : A -> Eff St B) :
  steady m -> (forall a, steady (f a)) -> steady (m ≫= f).
Proof.
  intros Hm Hf s t. rewrite bind_unfold. specialize (Hm s t).
  destruct (m s t) as [[[a|e] s'] t']; cbn [snd] in *; [|exact Hm].
  specialize (Hf a s' t'). lia.
Qed.

Lemma steady_try_catch {St A} (m : Eff St A) (h : error -> Eff St A) :
  steady m -> (forall e, steady (h e)) -> steady (try_catch m h).
Proof.
  intros Hm Hh s t. rewrite try_catch_unfold. specialize (Hm s t).
  destruct (m s t) as [[[a|e] s'] t']; cbn [snd] in *; [exact Hm|].
  specialize (Hh e s' t'). lia.
Qed.

Lemma steady_for_each {St A} (xs : list A) (body : A -> Eff St unit) :
  (forall x, steady (body x)) -> steady (for_each xs body).
Proof.
  intros Hbody. induction xs as [|x xs IH]; [apply steady_ret|].
  cbn [for_each]. apply steady_bind; auto.
Qed.

Lemma steady_for_break {St A} (xs : list A) (body : A -> Eff St bool) :
  (forall x, steady (body x)) -> steady (for_break xs body).
Proof.
  intros Hbody. induction xs as [|x xs IH]; [apply steady_ret|].
  cbn [for_break]. apply steady_bind; [auto|].
  intros [|]; [apply steady_ret|exact IH].
Qed.

Lemma steady_timeless {St A} (m : Eff St A) :
  (forall s t, (m s t).2 = t) -> steady m.
Proof. intros H s t. rewrite H. lia. Qed.

Lemma steady_capture max ad : steady (capture max ad).
Proof.
  apply steady_timeless. intros s t. rewrite capture_eq.
  destruct (below_cap _ _); [|reflexivity]. destruct (page_id ad); reflexivity.
Qed.

Lemma steady_refresh pageId ad : steady (refresh pageId ad).
Proof.
  apply steady_timeless. intros s t. rewrite refresh_eq.
  destruct (_ && _); reflexivity.
Qed.

Lemma extractAdData_steady clock json reads :
  (reads <= (extractAdData clock json reads).2)%nat.
Proof.
  unfold extractAdData. rewrite try_catch_unfold, extract_block_edges.
  destruct (negb (truthy (lookup_path ["data"] json))); [cbn; lia|].
  cbv zeta.
  destruct (negb (truthy (lookup_path anchor json))
            || negb (isArray (lookup_path anchor json))); [cbn; lia|].
  rewrite bind_unfold.
  destruct (iterate (lookup_path anchor json)) as [es|e]; cbn [lift]; [|cbn; lia].
  pose proof (for_each_stamps clock reads (process_edge clock)
                (process_edge_stamps clock reads) es [] reads
                (Nat.le_refl _) (List.Forall_nil _)) as H.
  destruct (for_each es (process_edge clock) [] reads) as [[[u|e] ads] t];
    apply H.
Qed.

Lemma steady_extracted clock json : steady (extracted clock json).
Proof.
  intros s t. unfold extracted.
  pose proof (extractAdData_steady clock json t) as H.
  destruct (extractAdData clock json t) as [ads reads']. exact H.
Qed.

Lemma steady_on_response_initial clock max body :
  steady (on_response_initial clock max body).
Proof.
  unfold on_response_initial.
  apply steady_try_catch; [|intros; apply steady_ret].
  destruct body as [json|]; [|apply steady_ret].
  apply steady_bind; [apply steady_extracted|]. intros ads.
  unfold capture_all. destruct (0 <? length ads)%nat.
  - apply steady_for_break, steady_capture.
  - apply steady_bind; [|intros; apply steady_ret].
    apply steady_timeless. intros s t. destruct (keys json); reflexivity.
Qed.

Lemma steady_on_response_incremental clock pageId body :
  steady (on_response_incremental clock pageId body).
Proof.
  unfold on_response_incremental.
  apply steady_try_catch; [|intros; apply steady_ret].
  destruct body as [json|]; [|apply steady_ret].
  apply steady_bind; [apply steady_extracted|]. intros ads.
  apply steady_for_each, steady_refresh.
Qed.

Lemma steady_scroll clock max left :
  forall turns previousCount noChangeCount,
    steady (scroll clock max left turns previousCount noChangeCount).
Proof.
  induction left as [|left IH]; intros turns previousCount noChangeCount;
    [apply steady_ret|].
  cbn [scroll].
  apply steady_bind; [apply steady_timeless; reflexivity|]. intros r.
  destruct (below_cap _ _); [|apply steady_ret]. cbv zeta.
  apply steady_bind;
    [apply steady_for_each, steady_on_response_initial|]. intros ?.
  apply steady_bind; [apply steady_timeless; reflexivity|]. intros r'.
  destruct (_ && _); [apply steady_ret|].
  apply steady_bind;
    [apply steady_for_each, steady_on_response_initial|]. intros ?.
  destruct (_ && _); [apply steady_ret|apply IH].
Qed.

Lemma steady_capture_phase clock max on_load turns :
  steady (capture_phase clock max on_load turns).
Proof.
  unfold capture_phase.
  apply steady_bind;
    [apply steady_for_each, steady_on_response_initial|]. intros ?.
  apply steady_scroll.
Qed.

(** *** Records with plain names *)

Lemma same_value_zero_refl_string s : same_value_zero (VStr s) (VStr s) = true.
Proof. cbn. apply String.eqb_refl. Qed.

Lemma same_value_zero_neq a b : a <> b -> same_value_zero a b = false.
Proof.
  intros Hne. destruct (same_value_zero a b) eqn:H; [|reflexivity].
  destruct Hne. now apply same_value_zero_eq.
Qed.

Lemma map_set_entries m k0 a k x :
  NoDup (List.map fst m) ->
  In (k, x) (map_set m k0 a) ->
  (k = k0 /\ x = a) \/ (In (k, x) m /\ same_value_zero k k0 = false).
Proof.
  induction m as [|[k' a'] m IH]; cbn [map_set List.map fst]; intros Hnd Hin.
  - destruct Hin as [[= <- <-]|[]]. now left.
  - apply NoDup_cons in Hnd as [Hfresh Hnd].
    destruct (same_value_zero k' k0) eqn:Hsame.
    + apply same_value_zero_eq in Hsame as ->.
      destruct Hin as [[= <- <-]|Hin]; [now left|].
      right. split; [now right|]. apply same_value_zero_neq. intros ->.
      apply Hfresh. apply list_elem_of_In.
      change k0 with (fst (k0, x)). now apply List.in_map.
    + destruct Hin as [[= <- <-]|Hin]; [right; split; [now left|exact Hsame]|].
      destruct (IH Hnd Hin) as [?|[? ?]]; [now left|].
      right. split; [now right|assumption].
Qed.

Lemma map_set_keys m key a :
  NoDup (List.map fst m) ->
  NoDup (List.map fst (map_set m (VStr key) a)).
Proof.
  induction m as [|[k' a'] m IH]; cbn [map_set List.map fst]; intros Hnd.
  - apply NoDup_singleton.
  - apply NoDup_cons in Hnd as [Hfresh Hnd].
    destruct (same_value_zero k' (VStr key)) eqn:Hsame; cbn [List.map fst].
    + now apply NoDup_cons.
    + apply NoDup_cons. split; [|now apply IH].
      intros Hin. apply list_elem_of_In, List.in_map_iff in Hin
        as ([k x] & Hk & Hin). cbn in Hk. subst k.
      destruct (map_set_entries _ _ _ _ _ Hnd Hin) as [[-> ->]|[Hold _]].
      * now rewrite same_value_zero_refl_string in Hsame.
      * apply Hfresh, list_elem_of_In.
        change k' with (fst (k', x)). now apply List.in_map.
Qed.

Lemma capture_keeps_on_disk (found : Database) max ad :
  savable ad ->
  triple (fun s => map_on_disk s /\ keys_apart s
                   /\ metadata_files (db s) = metadata_files found)
    (capture max ad)
    (fun _ s => map_on_disk s /\ keys_apart s
                /\ metadata_files (db s) = metadata_files found)
    (fun _ => False).
Proof.
  intros (key & dir & Hid & Hpage & _) s t (Hdisk & Hkeys & Hmeta).
  rewrite capture_eq.
  destruct (below_cap max (map_size (ads_map s))); [|auto].
  rewrite Hpage. unfold map_on_disk, keys_apart.
  cbn [filed kept with_db with_map db ads_map ad_files metadata_files].
  rewrite Hid. cbn [to_string]. split; [|split; [now apply map_set_keys|exact Hmeta]].
  intros k x Hin.
  destruct (map_set_entries _ _ _ _ _ Hkeys Hin) as [[-> ->]|[Hold Hother]].
  - exists key, dir. repeat split; try assumption. apply lookup_insert_eq.
  - destruct (Hdisk k x Hold) as (key' & dir' & -> & Hid' & Hpage' & Hfile).
    exists key', dir'. repeat split; try assumption.
    rewrite lookup_insert_ne; [exact Hfile|].
    intros [= _ <-]. now rewrite same_value_zero_refl_string in Hother.
Qed.

Lemma capture_phase_on_disk clock max on_load turns r reads :
  Forall (well_named clock) on_load ->
  Forall (turn_well_named clock) turns ->
  exists r1 reads1,
    capture_phase clock max on_load turns (renewed r) reads
    = (Normal tt, r1, reads1)
    /\ map_on_disk r1 /\ keys_apart r1
    /\ metadata_files (db r1) = metadata_files (db r).
Proof.
  intros Hload Hturns.
  destruct (triple_outcome
              (fun s => map_on_disk s /\ keys_apart s
                        /\ metadata_files (db s) = metadata_files (db r))
              (capture_phase clock max on_load turns) (renewed r) reads)
    as ([] & r1 & reads1 & Hrun & Hkept); [| |eauto].
  - apply capture_phase_keeps with (B := well_named clock);
      [|exact Hload|exact Hturns].
    intros body Hbody.
    apply handler_keeps_of_captures with (P := savable); [exact Hbody|].
    intros ad Had. eapply triple_weaken;
      [apply (capture_keeps_on_disk (db r) max ad Had)|auto..].
    intros s [].
  - split; [intros k ad []|]. split; [constructor|reflexivity].
Qed.




(** X12. [initialSync] fails while it writes the metadata when a page
    is no string: the browser doing as it is asked and the handlers
    running one after the other, if the map holds, as the scroll loop
    leaves it, a record whose page is no string, while the pages that are
    strings are plain names, [initialSync] throws a [TypeError]. *)
Theorem a_page_that_is_no_string_fails_the_run :
  forall (clock : nat -> Z) (max : cap) (on_load : list (option value))
         (turns : list Turn) (r r1 : Run) (reads reads1 : nat),
    capture_phase clock max on_load turns (renewed r) reads
    = (Normal tt, r1, reads1) ->
    Exists (fun ad => ~ is_string (page_id ad)) (map_values (ads_map r1)) ->
    Forall (fun ad => forall dir, page_id ad = VStr dir -> plain_dir dir = true)
      (map_values (ads_map r1)) ->
    (Async.initialSync clock max (in_turns on_load turns) (at_rest r)
       reads).1.1
    = Throw TypeError.
Proof.
  intros clock max on_load turns r r1 reads reads1 Hphase Hex _.
  destruct (initialSync_in_turns clock max on_load turns (at_rest r) reads)
    as (finished & ->).
  cbn [fst snd Async.run at_rest].
  rewrite initialSync_phases, Hphase.
  destruct (save_all_metadata_throws clock r1 reads1 Hex)
    as (r' & reads' & -> & _).
  reflexivity.
Qed.

Lemma initialSync_of_a_numbered_page_throws :
  let json :=
    response_of [edge_of (VArr [numbered_ad "A" 7; raw_ad "B" "P" true])] in
  (Async.initialSync (ticking 0) None (in_turns [Some json] [])
     (at_rest (fresh (mkDatabase ∅ ∅))) 0%nat).1.1
  = Throw TypeError.
Proof.
  refine (a_page_that_is_no_string_fails_the_run (ticking 0) None
            [Some (response_of [edge_of (VArr [numbered_ad "A" 7;
                                               raw_ad "B" "P" true])])]
            [] (fresh (mkDatabase ∅ ∅))
            (kept (record_of (numbered_ad "A" 7) (VStr "A") 0)
               (fresh (mkDatabase ∅ ∅)))
            0%nat 4%nat _ _ _).
  - vm_compute. reflexivity.
  - constructor. intros [s Hs]. discriminate Hs.
  - constructor; [|constructor]. intros dir Hdir. discriminate Hdir.
Defined.

Lemma on_disk_pages_are_strings r :
  map_on_disk r ->
  Forall (fun ad => is_string (page_id ad)) (map_values (ads_map r)).
Proof.
  intros Hdisk. apply List.Forall_forall. intros ad Hin.
  apply List.in_map_iff in Hin as ([k x] & <- & Hin).
  destruct (Hdisk k x Hin) as (key & dir & _ & _ & Hpage & _).
  now exists dir.
Qed.

Lemma initialSync_well_named clock max on_load turns r reads :
  Forall (well_named clock) on_load ->
  Forall (turn_well_named clock) turns ->
  exists r' reads',
    initialSync clock max on_load turns r reads = (Normal tt, r', reads')
    /\ map_on_disk r'
    /\ forall dir,
         if (count_of_page dir (ads_map r') =? 0)%nat
         then metadata_files (db r') !! dir = metadata_files (db r) !! dir
         else exists k,
                (reads <= k < reads')%nat
                /\ metadata_files (db r') !! dir
                   = Some {| meta_page_id := VStr dir;
                             last_synced := clock k;
                             total_ads :=
                               Z.of_nat (count_of_page dir (ads_map r')) |}.
Proof.
  intros Hload Hturns. rewrite initialSync_phases.
  destruct (capture_phase_on_disk clock max on_load turns r reads Hload Hturns)
    as (r1 & reads1 & Hphase & Hdisk & _ & Hmeta1).
  assert (reads <= reads1)%nat as Hmono.
  { pose proof (steady_capture_phase clock max on_load turns (renewed r) reads)
      as H. now rewrite Hphase in H. }
  rewrite Hphase.
  destruct (save_all_metadata_writes clock r1 reads1
              (on_disk_pages_are_strings r1 Hdisk))
    as (r' & reads' & Hrun & Hmap & Hfiles & Hmeta).
  exists r', reads'. split; [exact Hrun|]. split.
  - intros k ad Hin. rewrite Hmap in Hin. rewrite Hfiles. now apply Hdisk.
  - intros dir. specialize (Hmeta dir). rewrite Hmap, <- Hmeta1.
    destruct (count_of_page dir (ads_map r1) =? 0)%nat; [exact Hmeta|].
    destruct Hmeta as (k & Hk & Hlook). exists k. split; [lia|exact Hlook].
Qed.

Lemma two_pages_well_named clock : well_named clock (Some two_pages).
Proof.
  intros reads.
  replace (extractAdData clock two_pages reads)
    with ([record_of (raw_ad "A" "P" true) (VStr "A") (clock reads);
           record_of (raw_ad "B" "Q" false) (VStr "B")
             (clock (S (S reads)))],
          S (S (S (S reads)))) by reflexivity.
  repeat constructor; eexists _, _; repeat split; reflexivity.
Qed.

(** X13. When the records extracted from every response of a run have
    plain names for [id] and [page_id], the browser does as it is asked
    and the handlers run one after the other, [initialSync] completes, no
    handler is left in flight, and every record its map holds at the end
    is the content of the file of its page and id. *)
Theorem captured_records_are_on_disk :
  forall (clock : nat -> Z) (max : cap) (on_load : list (option value))
         (turns : list Turn) (r : Run) (reads : nat),
    Forall (well_named clock) on_load ->
    Forall (turn_well_named clock) turns ->
    exists s' reads',
      Async.initialSync clock max (in_turns on_load turns) (at_rest r) reads
      = (Normal tt, s', reads')
      /\ Forall (eq Async.Finished) (Async.pool s')
      /\ map_on_disk (Async.run s').
Proof.
  intros clock max on_load turns r reads Hload Hturns.
  destruct (initialSync_well_named clock max on_load turns r reads Hload Hturns)
    as (r' & reads' & Hrun & Hdisk & _).
  destruct (initialSync_in_turns clock max on_load turns (at_rest r) reads)
    as (finished & ->).
  cbn [Async.run at_rest]. rewrite Hrun. cbn [fst snd].
  eexists _, _. split; [reflexivity|]. cbn [Async.run Async.pool].
  split; [|exact Hdisk].
  apply Forall_forall. intros h Hh. now apply elem_of_replicate in Hh as [-> _].
Qed.

Lemma two_pages_captured_on_disk :
  exists s' reads',
    Async.initialSync (ticking 0) None (in_turns [Some two_pages] [])
      (at_rest (fresh (mkDatabase ∅ ∅))) 0%nat
    = (Normal tt, s', reads')
    /\ Forall (eq Async.Finished) (Async.pool s')
    /\ map_on_disk (Async.run s').
Proof.
  refine (captured_records_are_on_disk (ticking 0) None [Some two_pages] []
            (fresh (mkDatabase ∅ ∅)) 0%nat _ _).
  - constructor; [apply two_pages_well_named|constructor].
  - constructor.
Defined.

(** X14. Under the same conditions, the metadata [initialSync] leaves
    for a page of which its map holds records are: that page, an instant
    read from the clock during the run, and the number of those records;
    the metadata of any other page are as they were found. *)
Theorem metadata_count_the_captured_records :
  forall (clock : nat -> Z) (max : cap) (on_load : list (option value))
         (turns : list Turn) (r : Run) (reads : nat),
    Forall (well_named clock) on_load ->
    Forall (turn_well_named clock) turns ->
    exists s' reads',
      Async.initialSync clock max (in_turns on_load turns) (at_rest r) reads
      = (Normal tt, s', reads')
      /\ forall dir,
           let r' := Async.run s' in
           if (count_of_page dir (ads_map r') =? 0)%nat
           then metadata_files (db r') !! dir = metadata_files (db r) !! dir
           else exists k,
                  (reads <= k < reads')%nat
                  /\ metadata_files (db r') !! dir
                     = Some {| meta_page_id := VStr dir;
                               last_synced := clock k;
                               total_ads :=
                                 Z.of_nat (count_of_page dir (ads_map r')) |}.
Proof.
  intros clock max on_load turns r reads Hload Hturns.
  destruct (initialSync_well_named clock max on_load turns r reads Hload Hturns)
    as (r' & reads' & Hrun & _ & Hmeta).
  destruct (initialSync_in_turns clock max on_load turns (at_rest r) reads)
    as (finished & ->).
  cbn [Async.run at_rest]. rewrite Hrun. cbn [fst snd].
  eexists _, _. split; [reflexivity|]. exact Hmeta.
Qed.

Lemma two_pages_counted_apart :
  exists s' reads',
    Async.initialSync (ticking 0) None (in_turns [Some two_pages] [])
      (at_rest (fresh (mkDatabase ∅ ∅))) 0%nat
    = (Normal tt, s', reads')
    /\ forall dir,
         let r' := Async.run s' in
         if (count_of_page dir (ads_map r') =? 0)%nat
         then metadata_files (db r') !! dir
              = (∅ : gmap string PageMetadata) !! dir
         else exists k,
                (0 <= k < reads')%nat
                /\ metadata_files (db r') !! dir
                   = Some {| meta_page_id := VStr dir;
                             last_synced := ticking 0 k;
                             total_ads :=
                               Z.of_nat (count_of_page dir (ads_map r')) |}.
Proof.
  refine (metadata_count_the_captured_records (ticking 0) None
            [Some two_pages] [] (fresh (mkDatabase ∅ ∅)) 0%nat _ _).
  - constructor; [apply two_pages_well_named|constructor].
  - constructor.
Defined.

(** *** Responses without ads *)








(** ** [incrementalSync] *)

Lemma strict_eq_string v s : strict_eq v (VStr s) = true -> v = VStr s.
Proof.
  destruct v; try discriminate. cbn. intros H.
  now apply String.eqb_eq in H as ->.
Qed.

(** *** Whatever the visit *)

Section Pools.

Variable resume : Async.pending -> Eff Run Async.pending.
Variable J : Run -> Prop.
Variable G : Async.pending -> Prop.

Hypothesis resume_keeps :
  forall h, G h -> triple J (resume h) (fun h' r => J r /\ G h') J.
Hypothesis reading_kept : forall body, G (Async.Reading body).

Definition kept_by_all (s : Async.Session) : Prop :=
  J (Async.run s) /\ Forall G (Async.pool s).

Lemma handle_keeps_pool e :
  triple kept_by_all (Async.handle resume e) (fun _ => kept_by_all)
    kept_by_all.
Proof.
  intros s t [Hrun Hpool]. destruct e as [body|n]; cbn [Async.handle].
  - cbn. split; [exact Hrun|].
    apply Forall_app. split; [exact Hpool|]. constructor; [|constructor].
    apply reading_kept.
  - rewrite bind_unfold. cbn [get_state].
    destruct (Async.pool s !! n) as [h|] eqn:Hn; [|now split].
    rewrite bind_on_run.
    assert (G h) as Hh by (eapply Forall_lookup_1; eassumption).
    pose proof (resume_keeps h Hh (Async.run s) t Hrun) as Hstep.
    destruct (resume h (Async.run s) t) as [[[h'|e] r'] t'].
    + destruct Hstep as [Hrun' Hh']. cbn. split; [exact Hrun'|].
      now apply Forall_insert.
    + now split.
Qed.

Lemma happen_keeps_pool events :
  triple kept_by_all (Async.happen resume events) (fun _ => kept_by_all)
    kept_by_all.
Proof. apply triple_for_each. intros e _. apply handle_keeps_pool. Qed.

End Pools.

Lemma seek_on_page pageId ads : on_page pageId (Async.seek pageId ads).
Proof.
  induction ads as [|ad rest IH]; [exact I|]. cbn [Async.seek].
  destruct (strict_eq (page_id ad) (VStr pageId)) eqn:Hpage; [|exact IH].
  now apply strict_eq_string.
Qed.

Lemma resume_incremental_keeps_to_its_page clock pageId (r0 : Run) h :
  on_page pageId h ->
  triple (fun r => other_pages_as_in pageId r0 r
                   /\ Forall (fun entry => page_id entry.2 = VStr pageId)
                        (ads_map r))
    (Async.resume_incremental clock pageId h)
    (fun h' r => (other_pages_as_in pageId r0 r
                  /\ Forall (fun entry => page_id entry.2 = VStr pageId)
                       (ads_map r))
                 /\ on_page pageId h')
    (fun r => other_pages_as_in pageId r0 r
              /\ Forall (fun entry => page_id entry.2 = VStr pageId)
                   (ads_map r)).
Proof.
  intros Hh r t Hr. pose proof Hr as [[Hfiles Hmeta] Hmap].
  destruct h as [[json|]|ad rest|existingAd ad rest|ad rest|rest|];
    cbn [Async.resume_incremental on_page] in *.
  - rewrite bind_unfold. unfold extracted.
    destruct (extractAdData clock json t) as [ads t'].
    split; [exact Hr|apply seek_on_page].
  - now split.
  - unfold loadAd. rewrite !bind_unfold. cbn [get_state].
    now split.
  - destruct (needs_update existingAd ad).
    + rewrite bind_unfold. cbn [modify]. split; [split; [now split|]|exact Hh].
      cbn [with_map ads_map].
      now apply (Forall_map_set (fun x => page_id x = VStr pageId)).
    + split; [exact Hr|apply seek_on_page].
  - rewrite try_catch_unfold, bind_unfold, saveAd_eq, Hh.
    split; [split; [split|]|exact I].
    + intros dir key Hdir. cbn [filed with_db db ad_files].
      rewrite lookup_insert_ne; [auto|].
      intros [= -> _]. now destruct Hdir.
    + exact Hmeta.
    + exact Hmap.
  - split; [exact Hr|apply seek_on_page].
  - now split.
Qed.

(** X16. [incrementalSync] keeps to the page it is asked for, a page
    with a plain name, when the records of that page have plain names for
    ids: however its handlers are scheduled and whether or not the
    browser fails, the records in its map all belong to that page, the ad
    files and the metadata of every other page are as they were found,
    and the handlers it leaves in flight are at records of that page. *)
Theorem incrementalSync_keeps_to_its_page :
  forall (clock : nat -> Z) (pageId : string) (visit : Async.Visit)
         (r : Run) (reads : nat),
    plain_dir pageId = true ->
    visit_plainly_identified clock pageId visit ->
    let s' :=
      (Async.incrementalSync clock pageId visit (at_rest r) reads).1.2 in
    other_pages_as_in pageId r (Async.run s')
    /\ Forall (fun entry => page_id entry.2 = VStr pageId)
         (ads_map (Async.run s'))
    /\ Forall (on_page pageId) (Async.pool s').
Proof.
  intros clock pageId visit r reads _ _. cbv zeta.
  set (J := fun r' : Run =>
              other_pages_as_in pageId r r'
              /\ Forall (fun entry => page_id entry.2 = VStr pageId)
                   (ads_map r')).
  set (K := kept_by_all J (on_page pageId)).
  assert (Hhappen : forall events,
             triple K
               (Async.happen (Async.resume_incremental clock pageId) events)
               (fun _ => K) K).
  { intros events. apply happen_keeps_pool; [|intros body; exact I].
    intros h Hh.
    apply (resume_incremental_keeps_to_its_page clock pageId r h Hh). }
  enough (triple (fun s => Async.run s = r)
            (Async.incrementalSync clock pageId visit)
            (fun _ => K) K) as Hsync.
  { specialize (Hsync (at_rest r) reads eq_refl).
    destruct (Async.incrementalSync clock pageId visit (at_rest r) reads)
      as [[[u|e] s'] reads']; destruct Hsync as [[Hfiles Hmap] Hpool];
      auto. }
  unfold Async.incrementalSync.
  eapply triple_bind with (R := fun _ => K).
  { apply triple_modify. intros s <-. split; [|constructor].
    split; [split; reflexivity|constructor]. }
  intros _.
  eapply triple_bind with (R := fun _ => K).
  { intros s t Hs. unfold Async.on_run, loadPageMetadata.
    rewrite bind_unfold. cbn [get_state]. now destruct s. }
  intros metadata.
  eapply triple_bind with (R := fun _ => K); [apply settled_keeps|].
  intros _. apply finally_keeps.
  - eapply triple_bind with (R := fun _ => K); [apply Hhappen|]. intros _.
    eapply triple_bind with (R := fun _ => K); [apply settled_keeps|].
    intros _.
    eapply triple_bind with (R := fun _ => K); [apply triple_now; auto|].
    intros stamp.
    eapply triple_bind with (R := fun _ => K);
      [apply triple_get_state; auto|].
    intros s.
    eapply triple_bind with (R := fun _ => K); [|intros _; apply Hhappen].
    intros s1 t [[[Hfiles Hmeta] Hmap] Hpool]. unfold Async.on_run.
    cbn [savePageMetadata meta_page_id modify].
    split; [split; [split|]|exact Hpool].
    + exact Hfiles.
    + intros dir Hdir. cbn [with_db db metadata_files Async.run].
      rewrite lookup_insert_ne; [auto|congruence].
    + exact Hmap.
  - eapply triple_bind with (R := fun _ => K); [apply Hhappen|]. intros _.
    apply settled_keeps.
Qed.

Lemma a_sync_of_page_P_leaves_page_Q :
  let found :=
    {| ad_files :=
         {[("Q", "B") := record_of (raw_ad "B" "Q" true) (VStr "B") 1000]};
       metadata_files := ∅ |} in
  let s' :=
    (Async.incrementalSync (ticking 2000) "P" cut_short
       (at_rest (fresh found)) 0%nat).1.2 in
  other_pages_as_in "P" (fresh found) (Async.run s')
  /\ Forall (fun entry => page_id entry.2 = VStr "P")
       (ads_map (Async.run s'))
  /\ Forall (on_page "P") (Async.pool s').
Proof.
  refine (incrementalSync_keeps_to_its_page (ticking 2000) "P" cut_short
            (fresh {| ad_files :=
                        {[("Q", "B") :=
                            record_of (raw_ad "B" "Q" true) (VStr "B") 1000]};
                      metadata_files := ∅ |})
            0%nat eq_refl _).
  assert (plainly_identified (ticking 2000) "P" (Some two_pages)) as Hbody.
  { intros reads.
    replace (extractAdData (ticking 2000) two_pages reads)
      with ([record_of (raw_ad "A" "P" true) (VStr "A") (ticking 2000 reads);
             record_of (raw_ad "B" "Q" false) (VStr "B")
               (ticking 2000 (S (S reads)))],
            S (S (S (S reads)))) by reflexivity.
    constructor; [intros _; now exists "A"|].
    constructor; [intros H; discriminate H|constructor]. }
  split; [|split]; cbn;
    repeat (apply List.Forall_cons; [first [exact Hbody|exact I]|]);
    apply List.Forall_nil.
Defined.






(** ** Both syncs *)

Lemma capture_deletes_nothing (found : Database) max ad :
  triple (fun s => (forall key, is_Some (ad_files found !! key) ->
                                is_Some (ad_files (db s) !! key))
                   /\ (forall dir, is_Some (metadata_files found !! dir) ->
                                   is_Some (metadata_files (db s) !! dir)))
    (capture max ad)
    (fun _ s => (forall key, is_Some (ad_files found !! key) ->
                             is_Some (ad_files (db s) !! key))
                /\ (forall dir, is_Some (metadata_files found !! dir) ->
                                is_Some (metadata_files (db s) !! dir)))
    (fun s => (forall key, is_Some (ad_files found !! key) ->
                           is_Some (ad_files (db s) !! key))
              /\ (forall dir, is_Some (metadata_files found !! dir) ->
                              is_Some (metadata_files (db s) !! dir))).
Proof.
  intros s t [Hfiles Hmeta]. rewrite capture_eq.
  destruct (below_cap _ _); [|auto].
  destruct (page_id ad) as [| | | |dir| |]; try (split; assumption).
  split; [|exact Hmeta]. intros key Hkey.
  cbn [filed kept with_db with_map db ad_files].
  apply lookup_insert_is_Some'. right. auto.
Qed.

Lemma refresh_deletes_nothing (found : Database) pageId ad :
  triple (fun s => (forall key, is_Some (ad_files found !! key) ->
                                is_Some (ad_files (db s) !! key))
                   /\ (forall dir, is_Some (metadata_files found !! dir) ->
                                   is_Some (metadata_files (db s) !! dir)))
    (refresh pageId ad)
    (fun _ s => (forall key, is_Some (ad_files found !! key) ->
                             is_Some (ad_files (db s) !! key))
                /\ (forall dir, is_Some (metadata_files found !! dir) ->
                                is_Some (metadata_files (db s) !! dir)))
    (fun s => (forall key, is_Some (ad_files found !! key) ->
                           is_Some (ad_files (db s) !! key))
              /\ (forall dir, is_Some (metadata_files found !! dir) ->
                              is_Some (metadata_files (db s) !! dir))).
Proof.
  intros s t [Hfiles Hmeta]. rewrite refresh_eq.
  destruct (_ && _); [|auto].
  split; [|exact Hmeta]. intros key Hkey.
  cbn [filed kept with_db with_map db ad_files].
  apply lookup_insert_is_Some'. right. auto.
Qed.

Lemma savePageMetadata_deletes_nothing (found : Database) m :
  triple (fun s => (forall key, is_Some (ad_files found !! key) ->
                                is_Some (ad_files (db s) !! key))
                   /\ (forall dir, is_Some (metadata_files found !! dir) ->
                                   is_Some (metadata_files (db s) !! dir)))
    (savePageMetadata m)
    (fun _ s => (forall key, is_Some (ad_files found !! key) ->
                             is_Some (ad_files (db s) !! key))
                /\ (forall dir, is_Some (metadata_files found !! dir) ->
                                is_Some (metadata_files (db s) !! dir)))
    (fun s => (forall key, is_Some (ad_files found !! key) ->
                           is_Some (ad_files (db s) !! key))
              /\ (forall dir, is_Some (metadata_files found !! dir) ->
                              is_Some (metadata_files (db s) !! dir))).
Proof.
  intros s t [Hfiles Hmeta]. unfold savePageMetadata.
  destruct (meta_page_id m) as [| | | |dir| |]; try (split; assumption).
  split; [exact Hfiles|]. intros key Hkey.
  cbn [modify with_db db metadata_files].
  apply lookup_insert_is_Some'. right. auto.
Qed.

(** X18. A sync deletes nothing: whatever the page answers, and whether
    the run completes or throws, every ad file and every metadata file
    found on disk when [initialSync] or [incrementalSync] starts is still
    there when it ends. *)
Theorem a_sync_deletes_no_file :
  forall (clock : nat -> Z) (r : Run) (reads : nat),
    (forall max on_load turns key,
        is_Some (ad_files (db r) !! key) ->
        is_Some (ad_files
                   (db (initialSync clock max on_load turns r reads).1.2)
                 !! key))
    /\ (forall max on_load turns dir,
          is_Some (metadata_files (db r) !! dir) ->
          is_Some (metadata_files
                     (db (initialSync clock max on_load turns r reads).1.2)
                   !! dir))
    /\ (forall pageId responses key,
          is_Some (ad_files (db r) !! key) ->
          is_Some (ad_files
                     (db (incrementalSync clock pageId responses r reads).1.2)
                   !! key))
    /\ (forall pageId responses dir,
          is_Some (metadata_files (db r) !! dir) ->
          is_Some (metadata_files
                     (db (incrementalSync clock pageId responses r reads).1.2)
                   !! dir)).
Proof.
  intros clock r reads.
  assert (forall max on_load turns,
             let s := (initialSync clock max on_load turns r reads).1.2 in
             (forall key, is_Some (ad_files (db r) !! key) ->
                          is_Some (ad_files (db s) !! key))
             /\ (forall dir, is_Some (metadata_files (db r) !! dir) ->
                             is_Some (metadata_files (db s) !! dir)))
    as Hinitial.
  { intros max on_load turns.
    pose proof (initialSync_keeps clock max _ (fun _ => True)
                  ltac:(intros; apply Forall_true; auto)
                  (fun ad _ => capture_deletes_nothing (db r) max ad)
                  (savePageMetadata_deletes_nothing (db r))
                  ltac:(intros s Hs; exact Hs)
                  on_load turns r reads (conj (fun _ H => H) (fun _ H => H)))
      as H.
    destruct (initialSync clock max on_load turns r reads) as [[[u|e] s] t];
      exact H. }
  assert (forall pageId responses,
             let s := (incrementalSync clock pageId responses r reads).1.2 in
             (forall key, is_Some (ad_files (db r) !! key) ->
                          is_Some (ad_files (db s) !! key))
             /\ (forall dir, is_Some (metadata_files (db r) !! dir) ->
                             is_Some (metadata_files (db s) !! dir)))
    as Hincremental.
  { intros pageId responses.
    pose proof (incrementalSync_keeps clock pageId _ (fun _ => True)
                  ltac:(intros; apply Forall_true; auto)
                  (fun ad _ => refresh_deletes_nothing (db r) pageId ad)
                  (savePageMetadata_deletes_nothing (db r))
                  ltac:(intros s Hs; exact Hs)
                  responses r reads (conj (fun _ H => H) (fun _ H => H)))
      as H.
    destruct (incrementalSync clock pageId responses r reads)
      as [[[u|e] s] t]; exact H. }
  repeat split; intros.
  - now apply Hinitial.
  - now apply Hinitial.
  - now apply Hincremental.
  - now apply Hincremental.
Qed.

(** ** The response filter *)

Lemma starts_with_spec sub :
  forall s, starts_with s sub = true <-> exists after, s = (sub ++ after)%string.
Proof.
  induction sub as [|c sub IH]; intros s.
  - split; [intros _; now exists s|destruct s; reflexivity].
  - destruct s as [|d s]; cbn [starts_with].
    + split; [discriminate|]. intros [after H]. rewrite append_cons in H.
      discriminate H.
    + rewrite andb_true_iff, IH. split.
      * intros [Hc [after ->]]. apply Ascii.eqb_eq in Hc as ->.
        exists after. now rewrite append_cons.
      * intros [after H]. rewrite append_cons in H. injection H as -> ->.
        split; [apply Ascii.eqb_refl|now exists after].
Qed.

Lemma includes_occurs sub :
  forall s, includes s sub = true <-> occurs sub s.
Proof.
  induction s as [|d s IH].
  - cbn [includes]. rewrite orb_false_r, starts_with_spec. split.
    + intros [after ->]. now exists EmptyString, after.
    + intros ([|c before] & after & H).
      * rewrite append_nil in H. now exists after.
      * rewrite append_cons in H. discriminate H.
  - cbn [includes]. rewrite orb_true_iff, starts_with_spec, IH. split.
    + intros [[after ->]|(before & after & ->)].
      * now exists EmptyString, after.
      * exists (String d before), after. now rewrite append_cons.
    + intros ([|c before] & after & H).
      * left. rewrite append_nil in H. now exists after.
      * right. rewrite append_cons in H. injection H as -> ->.
        now exists before, after.
Qed.

Lemma occurs_trans a b c : occurs a b -> occurs b c -> occurs a c.
Proof.
  intros (before & after & ->) (before' & after' & ->).
  exists (before' ++ before)%string, (after ++ after')%string.
  now rewrite !append_assoc.
Qed.

Lemma includes_mono s s' sub :
  occurs s s' -> includes s sub = true -> includes s' sub = true.
Proof.
  rewrite !includes_occurs. intros Hs Hsub. now apply occurs_trans with s.
Qed.

(** X19. The filter of the response handlers looks for fragments only: a
    response is relevant as soon as a relevant URL occurs anywhere inside
    its URL, in its query string for one, and a relevant content type
    inside its content type. *)
Theorem relevance_survives_what_surrounds_the_url :
  forall (url url' contentType contentType' : string),
    occurs url url' ->
    occurs contentType contentType' ->
    isRelevantRequest url contentType = true ->
    isRelevantRequest url' contentType' = true.
Proof.
  intros url url' contentType contentType' Hurl Htype.
  unfold isRelevantRequest.
  rewrite !orb_true_iff, !andb_true_iff, !orb_true_iff.
  pose proof (includes_mono url url') as Hu.
  pose proof (includes_mono contentType contentType') as Hc.
  intuition auto.
Qed.

Lemma a_redirect_through_another_site_is_relevant :
  isRelevantRequest "https://example.org/r?to=/ads/library/&x=1"
    "text/html; charset=utf-8"
  = true.
Proof.
  refine (relevance_survives_what_surrounds_the_url
            "/ads/library/" "https://example.org/r?to=/ads/library/&x=1"
            EmptyString "text/html; charset=utf-8" _ _ eq_refl).
  - now exists "https://example.org/r?to=", "&x=1".
  - now exists EmptyString, "text/html; charset=utf-8".
Defined.

(** X20. The page [incrementalSync] opens passes its own filter: the URL
    it navigates to is relevant whatever the page id and the content
    type, so the response that carries the document is handled like an
    API response. *)
Theorem the_library_page_passes_the_filter :
  forall (pageId contentType : string),
    isRelevantRequest (library_url pageId) contentType = true.
Proof.
  intros pageId contentType. unfold isRelevantRequest.
  assert (includes (library_url pageId) "ads/library" = true) as ->.
  { apply includes_occurs.
    exists "https://www.facebook.com/",
      ("/?active_status=all&ad_type=all&country=ALL&view_all_page_id="
       ++ pageId)%string.
    unfold library_url. now rewrite <- !append_assoc. }
  now rewrite !orb_true_r.
Qed.

(** X21. A response that the filter rejects, or whose status is not 200,
    changes nothing and reads no clock: the handlers of [initialSync] and
    of [incrementalSync], run over the responses of a page, do what they
    do when run over the bodies of the relevant responses of status 200
    alone. *)
Theorem only_relevant_responses_of_status_200_count :
  forall (clock : nat -> Z) (responses : list Response) (r : Run)
         (reads : nat),
    (forall max,
        for_each responses (response_handler_initial clock max) r reads
        = for_each (intercepted_bodies responses)
            (on_response_initial clock max) r reads)
    /\ (forall pageId,
          for_each responses (response_handler_incremental clock pageId)
            r reads
          = for_each (intercepted_bodies responses)
              (on_response_incremental clock pageId) r reads).
Proof.
  intros clock responses. unfold intercepted_bodies.
  induction responses as [|response responses IH]; intros r reads;
    [split; reflexivity|].
  cbn [List.filter]. unfold response_handler_initial,
    response_handler_incremental in *.
  split; intros x; cbn [for_each]; rewrite bind_unfold;
    destruct (intercepted response); cbn [List.map for_each];
    rewrite ?bind_unfold, ?ret_unfold;
    try apply (IH r reads).
  - destruct (on_response_initial clock x (json_body response) r reads)
      as [[[u|e] r1] reads1]; [apply (IH r1 reads1)|reflexivity].
  - destruct (on_response_incremental clock x (json_body response) r reads)
      as [[[u|e] r1] reads1]; [apply (IH r1 reads1)|reflexivity].
Qed.
